(** * The event loop core of Janet ([src/core/ev.c]): ring queue, timer heap,
    pollables and listeners, the run queue and channels.

    Every definition below is a transcription of the C function of the same
    name.  Pointers into the fiber, channel and pollable heaps are addresses
    ([nat]) into total stores; C integers are [Z]. *)

From Stdlib Require Import ZArith Lia ZifyNat List Bool Sorting.Sorted Permutation.
From stdpp Require Import base tactics option list numbers functions strings.

Local Open Scope Z_scope.

(* ===================================================================== *)
(** ** General queue (struct [JanetQueue], ev.c lines 62-125)            *)
(* ===================================================================== *)

Module RingQueue.

(** [#define JANET_MAX_Q_CAPACITY 0x7FFFFFF] *)
Definition JANET_MAX_Q_CAPACITY : Z := 0x7FFFFFF.

(** The ring buffer.  [capacity], [head] and [tail] are [int32_t]; under the
    invariant [q_wf] below every intermediate value of the code stays under
    [2 * (JANET_MAX_Q_CAPACITY + 1) < 2^31], so no [int32_t] operation wraps.
    [data] is the [malloc]ed block seen as [capacity] cells of the item
    type (the [itemsize] argument of the C functions is the size of one
    cell). *)
Record JanetQueue (A : Type) : Type := mkQ {
  capacity : Z;
  head : Z;
  tail : Z;
  data : list A
}.
Arguments mkQ {A} _ _ _ _.
Arguments capacity {A} _.
Arguments head {A} _.
Arguments tail {A} _.
Arguments data {A} _.

Section Queue.
Context {A : Type} `{Inhabited A}.

(** Cells that [realloc] adds hold no meaningful value: they are filled
    with the arbitrary inhabitant of the item type. *)
Definition junk : A := inhabitant.

Definition janet_q_init : JanetQueue A :=
  {| capacity := 0; head := 0; tail := 0; data := [] |}.

Definition janet_q_count (q : JanetQueue A) : Z :=
  if head q >? tail q
  then tail q + capacity q - head q
  else tail q - head q.

(** [realloc(p, itemsize * newcap)]: the old cells are kept, the block is
    extended (or cut) to [newcap] cells. *)
Definition realloc (d : list A) (newcap : Z) : list A :=
  take (Z.to_nat newcap) d ++ replicate (Z.to_nat newcap - length d)%nat junk.

(** [memmove(d + dst, d + src, n)] on cells; the source range is read
    before anything is written, as [memmove] guarantees for overlaps. *)
Definition memmove (d : list A) (dst src n : Z) : list A :=
  let seg := take (Z.to_nat n) (drop (Z.to_nat src) d) in
  take (Z.to_nat dst) d ++ seg ++ drop (Z.to_nat dst + length seg)%nat d.

(** The last two statements of [janet_q_push]: the [memcpy] of the item
    into cell [tail] and the advance of [tail]. *)
Definition q_store (q : JanetQueue A) (item : A) : JanetQueue A :=
  {| capacity := capacity q;
     head := head q;
     tail := if tail q + 1 <? capacity q then tail q + 1 else 0;
     data := <[Z.to_nat (tail q) := item]> (data q) |}.

(** The "Resize if needed" block of [janet_q_push], once [newcap] is
    known: [realloc], the fix of the second segment when the live cells
    wrap, and the new capacity. *)
Definition q_resize (q : JanetQueue A) (newcap : Z) : JanetQueue A :=
  let d := realloc (data q) newcap in
  if head q >? tail q then
    (* Two segments, fix 2nd seg. *)
    let newhead := head q + (newcap - capacity q) in
    let seg1 := capacity q - head q in
    let d' := if seg1 >? 0 then memmove d newhead (head q) seg1 else d in
    {| capacity := newcap; head := newhead; tail := tail q; data := d' |}
  else
    {| capacity := newcap; head := head q; tail := tail q; data := d |}.

(** [janet_q_push]: [None] is the C return value 1 (the queue is at its
    hard cap and is left as it was), [Some q'] is return value 0. *)
Definition janet_q_push (q : JanetQueue A) (item : A) : option (JanetQueue A) :=
  let count := janet_q_count q in
  (* Resize if needed *)
  if count + 1 >=? capacity q then
    if count + 1 >=? JANET_MAX_Q_CAPACITY then None
    else
      let newcap := (count + 2) * 2 in
      let newcap := if newcap >? JANET_MAX_Q_CAPACITY
                    then JANET_MAX_Q_CAPACITY else newcap in
      Some (q_store (q_resize q newcap) item)
  else Some (q_store q item).

(** [janet_q_pop]: [None] is the C return value 1 (empty queue, [*out]
    untouched), [Some (x, q')] is return value 0 with [*out = x]. *)
Definition janet_q_pop (q : JanetQueue A) : option (A * JanetQueue A) :=
  if head q =? tail q then None
  else
    Some (nth (Z.to_nat (head q)) (data q) junk,
          {| capacity := capacity q;
             head := if head q + 1 <? capacity q then head q + 1 else 0;
             tail := tail q;
             data := data q |}).

(** The live cells in queue order, read the way [janet_ev_mark] and
    [janet_chanat_mark_fq] iterate over a queue: [head..tail) when
    [head <= tail], else [head..capacity) followed by [0..tail). *)
Definition q_contents (q : JanetQueue A) : list A :=
  if head q <=? tail q
  then take (Z.to_nat (tail q - head q)) (drop (Z.to_nat (head q)) (data q))
  else take (Z.to_nat (capacity q - head q)) (drop (Z.to_nat (head q)) (data q))
       ++ take (Z.to_nat (tail q)) (data q).

(** Representation invariant of the ring: indices inside the block, the
    block has [capacity] cells, and the capacity respects the hard cap. *)
Definition q_wf (q : JanetQueue A) : Prop :=
  0 <= head q /\ 0 <= tail q /\
  head q < Z.max (capacity q) 1 /\ tail q < Z.max (capacity q) 1 /\
  0 <= capacity q <= JANET_MAX_Q_CAPACITY /\
  Z.of_nat (length (data q)) = capacity q.

(** *** Traces of queue operations

    A client of the queue issues pushes and pops; each call either succeeds
    or returns 1.  [q_run] runs a sequence of calls and records what each
    one did. *)
Inductive q_op : Type :=
  | Push (x : A)
  | Pop.

Inductive q_event : Type :=
  | Pushed (x : A)        (* janet_q_push returned 0 *)
  | PushFailed (x : A)    (* janet_q_push returned 1 *)
  | Popped (x : A)        (* janet_q_pop returned 0 and wrote x *)
  | PopFailed.            (* janet_q_pop returned 1 *)

Fixpoint q_run (ops : list q_op) (q : JanetQueue A) : list q_event * JanetQueue A :=
  match ops with
  | [] => ([], q)
  | Push x :: ops' =>
      match janet_q_push q x with
      | Some q' => let '(evs, qf) := q_run ops' q' in (Pushed x :: evs, qf)
      | None => let '(evs, qf) := q_run ops' q in (PushFailed x :: evs, qf)
      end
  | Pop :: ops' =>
      match janet_q_pop q with
      | Some (x, q') => let '(evs, qf) := q_run ops' q' in (Popped x :: evs, qf)
      | None => let '(evs, qf) := q_run ops' q in (PopFailed :: evs, qf)
      end
  end.

(** The items of the successful pushes, and the items the successful pops
    returned, in call order. *)
Fixpoint pushed (evs : list q_event) : list A :=
  match evs with
  | [] => []
  | Pushed x :: evs' => x :: pushed evs'
  | _ :: evs' => pushed evs'
  end.

Fixpoint popped (evs : list q_event) : list A :=
  match evs with
  | [] => []
  | Popped x :: evs' => x :: popped evs'
  | _ :: evs' => popped evs'
  end.

End Queue.
Arguments q_op : clear implicits.
Arguments q_event : clear implicits.
End RingQueue.

(* ===================================================================== *)
(** ** Min priority queue of timestamps for timeouts (ev.c lines 135-223) *)
(* ===================================================================== *)

Module TimerHeap.

(** [struct JanetTimeout].  [when] is a [JanetTimestamp] ([int64_t]) that
    the heap only compares; [to_fiber] is the address of the fiber. *)
Record JanetTimeout : Type := mkTimeout {
  when : Z;
  to_fiber : nat;
  to_sched_id : Z;
  is_error : bool
}.

Global Instance JanetTimeout_inhabited : Inhabited JanetTimeout :=
  populate (mkTimeout 0 0 0 false).

(** The three globals [janet_vm_tq], [janet_vm_tq_count] and
    [janet_vm_tq_capacity].  The two [size_t] counters are naturals: they
    count cells of the block [janet_vm_tq]. *)
Record TimerQueue : Type := mkTQ {
  janet_vm_tq : list JanetTimeout;
  janet_vm_tq_count : nat;
  janet_vm_tq_capacity : nat
}.

(** The state [janet_ev_init_common] sets up. *)
Definition tq_init : TimerQueue :=
  {| janet_vm_tq := []; janet_vm_tq_count := 0; janet_vm_tq_capacity := 0 |}.

(** [(int32_t) n] for a [size_t] [n], and the conversion of the result back
    to [size_t] (64 bits) by the assignment to [janet_vm_tq_count]. *)
Definition int32_of_size (n : Z) : Z := (n + 2^31) mod 2^32 - 2^31.
Definition size_of_int32 (z : Z) : Z := z mod 2^64.

(** [JanetTimeout tmp = tq[i]; tq[i] = tq[j]; tq[j] = tmp;] *)
Definition tq_swap (tq : list JanetTimeout) (i j : nat) : list JanetTimeout :=
  let tmp := tq !!! i in
  <[j := tmp]> (<[i := tq !!! j]> tq).

Definition peek_timeout (t : TimerQueue) : option JanetTimeout :=
  if (janet_vm_tq_count t =? 0)%nat then None
  else Some (janet_vm_tq t !!! 0%nat).

(** The [for (;;)] loop of [pop_timeout].  [fuel] bounds the number of
    iterations; [None] means the bound was reached before the loop left. *)
Fixpoint sift_down (fuel : nat) (tq : list JanetTimeout) (count index : nat)
  : option (list JanetTimeout) :=
  match fuel with
  | O => None
  | S fuel' =>
      let left := ((index * 2) + 1)%nat in   (* (index << 1) + 1 *)
      let right := (left + 1)%nat in
      let smallest := index in
      let smallest :=
        if (left <? count)%nat && (when (tq !!! left) <? when (tq !!! smallest))
        then left else smallest in
      let smallest :=
        if (right <? count)%nat && (when (tq !!! right) <? when (tq !!! smallest))
        then right else smallest in
      if (smallest =? index)%nat then Some tq
      else sift_down fuel' (tq_swap tq index smallest) count smallest
  end.

(** [pop_timeout(index)].  The loop moves [index] strictly down the tree,
    so [janet_vm_tq_count] iterations always suffice (see
    [TimerHeapFacts.pop_timeout_total]). *)
Definition pop_timeout (t : TimerQueue) (index : nat) : option TimerQueue :=
  if (janet_vm_tq_count t <=? index)%nat then Some t
  else
    let count := (janet_vm_tq_count t - 1)%nat in
    let tq := <[index := janet_vm_tq t !!! count]> (janet_vm_tq t) in
    tq' ← sift_down (S count) tq count index;
    Some {| janet_vm_tq := tq'; janet_vm_tq_count := count;
            janet_vm_tq_capacity := janet_vm_tq_capacity t |}.

(** The [while (index > 0)] loop of [add_timeout]. *)
Fixpoint sift_up (fuel : nat) (tq : list JanetTimeout) (index : nat)
  : option (list JanetTimeout) :=
  match fuel with
  | O => None
  | S fuel' =>
      if (0 <? index)%nat then
        let parent := ((index - 1) / 2)%nat in   (* (index - 1) >> 1 *)
        if when (tq !!! parent) <=? when (tq !!! index) then Some tq
        else sift_up fuel' (tq_swap tq index parent) parent
      else Some tq
  end.

(** [realloc(janet_vm_tq, newcap * sizeof(JanetTimeout))]. *)
Definition tq_realloc (tq : list JanetTimeout) (newcap : nat) : list JanetTimeout :=
  take newcap tq ++ replicate (newcap - length tq) inhabitant.

(** [add_timeout(to)]. *)
Definition add_timeout (t : TimerQueue) (to : JanetTimeout) : option TimerQueue :=
  let oldcount := janet_vm_tq_count t in
  let newcount := (oldcount + 1)%nat in
  let '(tq, cap) :=
    if (janet_vm_tq_capacity t <? newcount)%nat
    then (tq_realloc (janet_vm_tq t) (2 * newcount), (2 * newcount)%nat)
    else (janet_vm_tq t, janet_vm_tq_capacity t) in
  (* Append *)
  let count := Z.to_nat (size_of_int32 (int32_of_size (Z.of_nat newcount))) in
  let tq := <[oldcount := to]> tq in
  (* Heapify *)
  tq' ← sift_up (S oldcount) tq oldcount;
  Some {| janet_vm_tq := tq'; janet_vm_tq_count := count;
          janet_vm_tq_capacity := cap |}.

(** *** Clients of the heap *)

Inductive tq_op : Type :=
  | Add (to : JanetTimeout)     (* add_timeout(to) *)
  | PopMin.                     (* pop_timeout(0) *)

Fixpoint tq_run (ops : list tq_op) (t : TimerQueue) : option TimerQueue :=
  match ops with
  | [] => Some t
  | Add to :: ops' => t' ← add_timeout t to; tq_run ops' t'
  | PopMin :: ops' => t' ← pop_timeout t 0; tq_run ops' t'
  end.

(** Successive removals of the minimum, the way [janet_loop1] does them:
    [peek_timeout] then [pop_timeout(0)], at most [n] times. *)
Fixpoint drain (n : nat) (t : TimerQueue) : option (list JanetTimeout) :=
  match n with
  | O => Some []
  | S n' =>
      match peek_timeout t with
      | None => Some []
      | Some to => t' ← pop_timeout t 0; l ← drain n' t'; Some (to :: l)
      end
  end.

(** The live entries: cells [0..janet_vm_tq_count). *)
Definition tq_live (t : TimerQueue) : list JanetTimeout :=
  take (janet_vm_tq_count t) (janet_vm_tq t).

(** *** Specification vocabulary *)

(** The key of cell [i], the parent of a cell, and the heap property on
    the first [n] cells. *)
Definition key (a : list JanetTimeout) (i : nat) : Z := when (a !!! i).
Definition parent (i : nat) : nat := ((i - 1) / 2)%nat.

Definition heap_upto (a : list JanetTimeout) (n : nat) : Prop :=
  forall i, (0 < i < n)%nat -> key a (parent i) <= key a i.

Definition heap_ok (t : TimerQueue) : Prop :=
  (janet_vm_tq_count t <= length (janet_vm_tq t))%nat /\
  length (janet_vm_tq t) = janet_vm_tq_capacity t /\
  heap_upto (janet_vm_tq t) (janet_vm_tq_count t).

Definition when_le (x y : JanetTimeout) : Prop := when x <= when y.

(** The choice of [smallest] in one iteration of the [pop_timeout] loop. *)
Definition pick (a : list JanetTimeout) (count index : nat) : nat :=
  let left := (index * 2 + 1)%nat in
  let right := (left + 1)%nat in
  let smallest := index in
  let smallest :=
    if (left <? count)%nat && (key a left <? key a smallest)
    then left else smallest in
  if (right <? count)%nat && (key a right <? key a smallest)
  then right else smallest.

(** The heap property with a possible violation between [k] and its
    parent only. *)
Definition up_inv (a : list JanetTimeout) (n k : nat) : Prop :=
  (forall i, (0 < i < n)%nat -> i <> k -> key a (parent i) <= key a i) /\
  (forall i, (0 < i < n)%nat -> parent i = k -> (0 < k)%nat ->
     key a (parent k) <= key a i).

(** The heap property with a possible violation between [k] and its
    children only. *)
Definition down_inv (a : list JanetTimeout) (n k : nat) : Prop :=
  (forall i, (0 < i < n)%nat -> parent i <> k -> key a (parent i) <= key a i) /\
  (forall i, (0 < i < n)%nat -> parent i = k -> (0 < k)%nat ->
     key a (parent k) <= key a i).

End TimerHeap.

(* ===================================================================== *)
(** ** Fibers, tasks, pollables and the run queue (ev.c lines 127-400)    *)
(* ===================================================================== *)

Module Ev.
Import RingQueue.

#[local] Set Warnings "-register-all".

(** Janet values, as far as the event loop builds or inspects them.
    [JAbstract c] is [janet_wrap_abstract] of the channel at address [c]
    (channels are the only abstract type this file handles); [JTuple] is
    what [janet_indexed_view] accepts. *)
Inductive Janet : Type :=
  | JNil
  | JNumber (n : Z)
  | JString (s : string)
  | JKeyword (s : string)
  | JTuple (xs : list Janet)
  | JAbstract (channel : nat)
  | JFiber (fiber : nat).

Global Instance Janet_inhabited : Inhabited Janet := populate JNil.

(** [JanetSignal]: the signals the loop tells apart. *)
Inductive JanetSignal : Type :=
  | JANET_SIGNAL_OK
  | JANET_SIGNAL_ERROR
  | JANET_SIGNAL_DEBUG
  | JANET_SIGNAL_YIELD
  | JANET_SIGNAL_EVENT.

(** How a C function of the file can leave: it returns a value, it calls
    [janet_panic] (a non-local exit back to the resumer of the fiber), it
    suspends the fiber with [janet_await], or a [janet_assert] fails and the
    process exits. *)
Inductive outcome (A : Type) : Type :=
  | Return (a : A)
  | Panicked (msg : string)
  | Await
  | Aborted (msg : string).
Arguments Return {A} _.
Arguments Panicked {A} _.
Arguments Await {A}.
Arguments Aborted {A} _.

(** [struct JanetListenerState], the fields set once by [janet_listen_impl]:
    its own address (the value of the pointer [state]), [fiber] ([None]
    is [NULL]), [pollable] and [_mask].  A pointer to a listener is modelled
    by the listener itself; pointers are compared through [state_addr]. *)
Record JanetListenerState : Type := mkState {
  state_addr : nat;
  state_fiber : option nat;
  state_pollable : nat;
  state_mask : Z
}.

(** [struct JanetPollable]: [state] is the linked list of listeners (linked
    through [_next]), [_mask] the aggregate mask. *)
Record JanetPollable : Type := mkPollable {
  pollable_flags : Z;
  pollable_state : list JanetListenerState;
  pollable_mask : Z
}.

(** The fields of [JanetFiber] that the event loop uses: [flags] ([int32_t]
    bit set), [sched_id] ([uint32_t]) and [waiting]. *)
Record JanetFiber : Type := mkFiber {
  flags : Z;
  sched_id : Z;
  waiting : option JanetListenerState
}.

(** [struct JanetTask]. *)
Record JanetTask : Type := mkTask {
  task_fiber : nat;
  task_value : Janet;
  task_sig : JanetSignal
}.

Global Instance JanetTask_inhabited : Inhabited JanetTask :=
  populate (mkTask 0 JNil JANET_SIGNAL_OK).

Inductive JanetChannelMode : Type :=
  | JANET_CP_MODE_ITEM
  | JANET_CP_MODE_CHOICE_READ
  | JANET_CP_MODE_CHOICE_WRITE.

(** [JanetChannelPending]. *)
Record JanetChannelPending : Type := mkPending {
  pending_fiber : nat;
  pending_sched_id : Z;
  pending_mode : JanetChannelMode
}.

Global Instance JanetChannelPending_inhabited : Inhabited JanetChannelPending :=
  populate (mkPending 0 0 JANET_CP_MODE_ITEM).

(** [JanetChannel]. *)
Record JanetChannel : Type := mkChannel {
  items : JanetQueue Janet;
  read_pending : JanetQueue JanetChannelPending;
  write_pending : JanetQueue JanetChannelPending;
  limit : Z
}.

(** The state the functions of ev.c work on: the heaps of fibers, channels
    and pollables (total maps from addresses) and the thread-local globals
    [janet_vm_spawn], [janet_vm_root_fiber], [janet_vm_active_listeners]. *)
Record VM : Type := mkVM {
  fibers : nat -> JanetFiber;
  channels : nat -> JanetChannel;
  pollables : nat -> JanetPollable;
  janet_vm_spawn : JanetQueue JanetTask;
  janet_vm_root_fiber : nat;
  janet_vm_active_listeners : Z
}.

Definition with_fibers (vm : VM) (f : nat -> JanetFiber) : VM :=
  mkVM f (channels vm) (pollables vm) (janet_vm_spawn vm)
       (janet_vm_root_fiber vm) (janet_vm_active_listeners vm).
Definition with_channels (vm : VM) (c : nat -> JanetChannel) : VM :=
  mkVM (fibers vm) c (pollables vm) (janet_vm_spawn vm)
       (janet_vm_root_fiber vm) (janet_vm_active_listeners vm).
Definition with_pollables (vm : VM) (p : nat -> JanetPollable) : VM :=
  mkVM (fibers vm) (channels vm) p (janet_vm_spawn vm)
       (janet_vm_root_fiber vm) (janet_vm_active_listeners vm).
Definition with_spawn (vm : VM) (q : JanetQueue JanetTask) : VM :=
  mkVM (fibers vm) (channels vm) (pollables vm) q
       (janet_vm_root_fiber vm) (janet_vm_active_listeners vm).
Definition with_root_fiber (vm : VM) (f : nat) : VM :=
  mkVM (fibers vm) (channels vm) (pollables vm) (janet_vm_spawn vm)
       f (janet_vm_active_listeners vm).
Definition with_active_listeners (vm : VM) (n : Z) : VM :=
  mkVM (fibers vm) (channels vm) (pollables vm) (janet_vm_spawn vm)
       (janet_vm_root_fiber vm) n.

(** *** Constants of headers that are not among the sources *)

(** Modelled from the spec: [JANET_FIBER_FLAG_SCHEDULED] is defined in
    fiber.h, which is not among the sources; the spec calls it "a flag bit
    SCHEDULED" of the fiber.  The proofs use only that it is not zero. *)
Definition JANET_FIBER_FLAG_SCHEDULED : Z := 0x800000.

(** Modelled from the spec: [JANET_ASYNC_LISTEN_SPAWNER] is defined in
    janet.h, which is not among the sources; the spec describes it as a bit
    of the listen mask ("when mask includes SPAWNER").  The proofs use only
    that it is not zero. *)
Definition JANET_ASYNC_LISTEN_SPAWNER : Z := 0x1000.

(** [x & m] used as a C condition. *)
Definition has_bits (x m : Z) : bool := negb (Z.land x m =? 0).

(** Unsigned wrap-around of [uint32_t] and [size_t]. *)
Definition wrap32 (z : Z) : Z := z mod 2^32.
Definition wrap64 (z : Z) : Z := z mod 2^64.

(** A call of [janet_q_push] whose return value the caller drops. *)
Definition q_push_ignore {A} `{Inhabited A} (q : JanetQueue A) (x : A) : JanetQueue A :=
  match janet_q_push q x with
  | Some q' => q'
  | None => q
  end.

(** *** Pollables and listeners *)

(** [janet_pollable_init]. *)
Definition janet_pollable_init : JanetPollable :=
  {| pollable_flags := 0; pollable_state := []; pollable_mask := 0 |}.

(** [janet_listen_impl(pollable, behavior, mask, size, user)].  [state] is
    the address [malloc] returned.  The state machine [behavior] (called
    with [JANET_ASYNC_EVENT_INIT] at the end) belongs to the caller and
    works on the listener's private bytes, which are not modelled. *)
Definition janet_listen_impl (vm : VM) (pollable : nat) (mask : Z) (state : nat)
  : VM * outcome JanetListenerState :=
  let p := pollables vm pollable in
  let root := janet_vm_root_fiber vm in
  if has_bits (pollable_mask p) mask then
    (vm, Panicked "cannot listen for duplicate event on pollable")
  else if bool_decide (waiting (fibers vm root) <> None) then
    (vm, Panicked "current fiber is already waiting for event")
  else
    let spawner := has_bits mask JANET_ASYNC_LISTEN_SPAWNER in
    let mask' := Z.lor mask JANET_ASYNC_LISTEN_SPAWNER in
    let st := {| state_addr := state;
                 state_fiber := if spawner then None else Some root;
                 state_pollable := pollable;
                 state_mask := mask' |} in
    let fibers' :=
      if spawner then fibers vm
      else <[root := mkFiber (flags (fibers vm root)) (sched_id (fibers vm root))
                             (Some st)]> (fibers vm) in
    let p' := {| pollable_flags := pollable_flags p;
                 (* Prepend to linked list *)
                 pollable_state := st :: pollable_state p;
                 pollable_mask := Z.lor (pollable_mask p) mask' |} in
    (mkVM fibers' (channels vm) (<[pollable := p']> (pollables vm))
          (janet_vm_spawn vm) root (wrap64 (janet_vm_active_listeners vm + 1)),
     Return st).

(** The walk [while ( *iter && *iter != state) iter = &(( *iter)->_next)]
    followed by [*iter = state->_next]: the list without the first listener
    at address [addr], or [None] when the walk reaches the end (the
    [janet_assert] then fails). *)
Fixpoint unlink_listener (addr : nat) (l : list JanetListenerState)
  : option (list JanetListenerState) :=
  match l with
  | [] => None
  | s :: l' =>
      if (state_addr s =? addr)%nat then Some l'
      else option_map (cons s) (unlink_listener addr l')
  end.

(** [janet_unlisten_impl(state)]. *)
Definition janet_unlisten_impl (vm : VM) (state : JanetListenerState)
  : VM * outcome unit :=
  let p := pollables vm (state_pollable state) in
  (* Remove state machine from poll list *)
  match unlink_listener (state_addr state) (pollable_state p) with
  | None => (vm, Aborted "failed to remove listener")
  | Some l' =>
      let p' := {| pollable_flags := pollable_flags p;
                   pollable_state := l';
                   (* Remove mask *)
                   pollable_mask := Z.land (pollable_mask p) (Z.lnot (state_mask state)) |} in
      (* Ensure fiber does not reference this state *)
      let fibers' :=
        match state_fiber state with
        | Some fiber =>
            match waiting (fibers vm fiber) with
            | Some w =>
                if (state_addr w =? state_addr state)%nat
                then <[fiber := mkFiber (flags (fibers vm fiber))
                                        (sched_id (fibers vm fiber)) None]> (fibers vm)
                else fibers vm
            | None => fibers vm
            end
        | None => fibers vm
        end in
      (mkVM fibers' (channels vm) (<[state_pollable state := p']> (pollables vm))
            (janet_vm_spawn vm) (janet_vm_root_fiber vm)
            (wrap64 (janet_vm_active_listeners vm - 1)),
       Return tt)
  end.

(** [janet_unlisten]: the variant of the completion-port reactor, which is
    [janet_unlisten_impl] alone; the two readiness variants first update
    the OS registration, which is outside this model. *)
Definition janet_unlisten (vm : VM) (state : JanetListenerState) : VM * outcome unit :=
  janet_unlisten_impl vm state.

(** *** Scheduling *)

(** [janet_schedule_signal(fiber, value, sig)]. *)
Definition janet_schedule_signal (vm : VM) (fiber : nat) (value : Janet)
    (sig : JanetSignal) : VM :=
  let f := fibers vm fiber in
  if has_bits (flags f) JANET_FIBER_FLAG_SCHEDULED then vm
  else
    let f' := {| flags := Z.lor (flags f) JANET_FIBER_FLAG_SCHEDULED;
                 sched_id := wrap32 (sched_id f + 1);
                 waiting := waiting f |} in
    let t := {| task_fiber := fiber; task_value := value; task_sig := sig |} in
    mkVM (<[fiber := f']> (fibers vm)) (channels vm) (pollables vm)
         (q_push_ignore (janet_vm_spawn vm) t)
         (janet_vm_root_fiber vm) (janet_vm_active_listeners vm).

Definition janet_cancel (vm : VM) (fiber : nat) (value : Janet) : VM :=
  janet_schedule_signal vm fiber value JANET_SIGNAL_ERROR.

Definition janet_schedule (vm : VM) (fiber : nat) (value : Janet) : VM :=
  janet_schedule_signal vm fiber value JANET_SIGNAL_OK.

(** [janet_fiber_did_resume(fiber)]. *)
Definition janet_fiber_did_resume (vm : VM) (fiber : nat) : VM * outcome unit :=
  match waiting (fibers vm fiber) with
  | Some st => janet_unlisten vm st
  | None => (vm, Return tt)
  end.

(** The first statement of [run_one]:
    [fiber->flags &= ~JANET_FIBER_FLAG_SCHEDULED]. *)
Definition run_one_enter (vm : VM) (fiber : nat) : VM :=
  let f := fibers vm fiber in
  with_fibers vm
    (<[fiber := {| flags := Z.land (flags f) (Z.lnot JANET_FIBER_FLAG_SCHEDULED);
                   sched_id := sched_id f;
                   waiting := waiting f |}]> (fibers vm)).

(** [run_one(fiber, value, sigin)].  [janet_continue_signal] is the
    interpreter of the host VM (vm.c), an external collaborator: it runs the
    fiber until it returns or suspends and hands back the signal.
    [janet_stacktrace] only prints. *)
Definition run_one
    (janet_continue_signal : VM -> nat -> Janet -> JanetSignal -> VM * JanetSignal)
    (vm : VM) (fiber : nat) (value : Janet) (sigin : JanetSignal) : VM :=
  let vm1 := run_one_enter vm fiber in
  let '(vm2, sig) := janet_continue_signal vm1 fiber value sigin in
  vm2.

(** Modelled from the spec: fibers are created by fiber.c, which is not
    among the sources.  A new fiber is not scheduled and waits for nothing
    ("a nullable waiting back-reference"); its [sched_id] starts a
    "monotonically increasing" count, taken to start at 0. *)
Definition fiber_init : JanetFiber := {| flags := 0; sched_id := 0; waiting := None |}.

(** *** Channels (ev.c lines 402-665) *)

(** [janet_chan_init(chan, limit)]. *)
Definition janet_chan_init (limit : Z) : JanetChannel :=
  {| items := janet_q_init; read_pending := janet_q_init;
     write_pending := janet_q_init; limit := limit |}.

Definition with_items (c : JanetChannel) (q : JanetQueue Janet) : JanetChannel :=
  mkChannel q (read_pending c) (write_pending c) (limit c).
Definition with_read_pending (c : JanetChannel) (q : JanetQueue JanetChannelPending)
  : JanetChannel :=
  mkChannel (items c) q (write_pending c) (limit c).
Definition with_write_pending (c : JanetChannel) (q : JanetQueue JanetChannelPending)
  : JanetChannel :=
  mkChannel (items c) (read_pending c) q (limit c).

(** [make_write_result(channel)]: the tuple [[:give channel]]. *)
Definition make_write_result (channel : nat) : Janet :=
  JTuple [JKeyword "give"; JAbstract channel].

(** [make_read_result(channel, x)]: the tuple [[:take channel x]]. *)
Definition make_read_result (channel : nat) (x : Janet) : Janet :=
  JTuple [JKeyword "take"; JAbstract channel; x].

(** The [do ... while] loop at the head of [janet_channel_push]: pop
    readers until the queue is empty ([None], [is_empty = 1]) or the popped
    reader's [sched_id] is its fiber's current one.  [fuel] bounds the
    number of iterations; the outer [None] means the bound was reached. *)
Fixpoint pop_reader (fuel : nat) (fs : nat -> JanetFiber)
    (q : JanetQueue JanetChannelPending)
  : option (JanetQueue JanetChannelPending * option JanetChannelPending) :=
  match fuel with
  | O => None
  | S fuel' =>
      match janet_q_pop q with
      | None => Some (q, None)
      | Some (reader, q') =>
          if negb (pending_sched_id reader =? sched_id (fs (pending_fiber reader)))
          then pop_reader fuel' fs q'
          else Some (q', Some reader)
      end
  end.

(** [janet_channel_push(channel, x, is_choice)].  Every iteration of the
    reader loop pops one entry, so one more iteration than the queue has
    entries is enough (see [ChannelFacts.pop_reader_total]). *)
Definition janet_channel_push (vm : VM) (channel : nat) (x : Janet) (is_choice : bool)
  : option (VM * outcome Z) :=
  let c := channels vm channel in
  '(rp, reader) ← pop_reader (S (Z.to_nat (janet_q_count (read_pending c))))
                     (fibers vm) (read_pending c);
  let c1 := with_read_pending c rp in
  match reader with
  | None =>
      (* No pending reader *)
      match janet_q_push (items c1) x with
      | None =>
          Some (with_channels vm (<[channel := c1]> (channels vm)),
                Panicked "channel overflow: %v")
      | Some it =>
          let c2 := with_items c1 it in
          if janet_q_count (items c2) >? limit c2 then
            (* Pushed successfully, but should block. *)
            let root := janet_vm_root_fiber vm in
            let pending :=
              {| pending_fiber := root;
                 pending_sched_id := sched_id (fibers vm root);
                 pending_mode := if is_choice then JANET_CP_MODE_CHOICE_WRITE
                                 else JANET_CP_MODE_ITEM |} in
            let c3 := with_write_pending c2 (q_push_ignore (write_pending c2) pending) in
            Some (with_channels vm (<[channel := c3]> (channels vm)), Return 1)
          else
            Some (with_channels vm (<[channel := c2]> (channels vm)), Return 0)
      end
  | Some r =>
      (* Pending reader *)
      let vm1 := with_channels vm (<[channel := c1]> (channels vm)) in
      match pending_mode r with
      | JANET_CP_MODE_CHOICE_READ =>
          Some (janet_schedule vm1 (pending_fiber r) (make_read_result channel x),
                Return 0)
      | _ => Some (janet_schedule vm1 (pending_fiber r) x, Return 0)
      end
  end.

(** [janet_channel_pop(channel, item, is_choice)]: the returned pair is the
    C return value and the item written through [item] (if any). *)
Definition janet_channel_pop (vm : VM) (channel : nat) (is_choice : bool)
  : VM * (Z * option Janet) :=
  let c := channels vm channel in
  match janet_q_pop (items c) with
  | None =>
      (* Queue empty *)
      let root := janet_vm_root_fiber vm in
      let pending :=
        {| pending_fiber := root;
           pending_sched_id := sched_id (fibers vm root);
           pending_mode := if is_choice then JANET_CP_MODE_CHOICE_READ
                           else JANET_CP_MODE_ITEM |} in
      let c1 := with_read_pending c (q_push_ignore (read_pending c) pending) in
      (with_channels vm (<[channel := c1]> (channels vm)), (0, None))
  | Some (item, it) =>
      let c1 := with_items c it in
      match janet_q_pop (write_pending c1) with
      | Some (writer, wp) =>
          (* pending writer *)
          let c2 := with_write_pending c1 wp in
          let vm1 := with_channels vm (<[channel := c2]> (channels vm)) in
          match pending_mode writer with
          | JANET_CP_MODE_CHOICE_WRITE =>
              (janet_schedule vm1 (pending_fiber writer) (make_write_result channel),
               (1, Some item))
          | _ =>
              (janet_schedule vm1 (pending_fiber writer) (JAbstract channel),
               (1, Some item))
          end
      | None =>
          (with_channels vm (<[channel := c1]> (channels vm)), (1, Some item))
      end
  end.

(** [janet_getabstract(argv, n, &ChannelAT)]: the channel address, or the
    type error the host raises. *)
Definition janet_getabstract (x : option Janet) : option nat :=
  match x with
  | Some (JAbstract c) => Some c
  | _ => None
  end.

(** [cfun_channel_push] ([ev/give]). *)
Definition cfun_channel_push (vm : VM) (argv : list Janet) : option (VM * outcome Janet) :=
  match argv with
  | [a0; a1] =>
      match janet_getabstract (Some a0) with
      | None => Some (vm, Panicked "bad slot")
      | Some channel =>
          '(vm', r) ← janet_channel_push vm channel a1 false;
          match r with
          | Return 0 => Some (vm', Return a0)
          | Return _ => Some (vm', Await)
          | Panicked m => Some (vm', Panicked m)
          | Await => Some (vm', Await)
          | Aborted m => Some (vm', Aborted m)
          end
      end
  | _ => Some (vm, Panicked "arity mismatch")
  end.

(** [cfun_channel_pop] ([ev/take]). *)
Definition cfun_channel_pop (vm : VM) (argv : list Janet) : VM * outcome Janet :=
  match argv with
  | [a0] =>
      match janet_getabstract (Some a0) with
      | None => (vm, Panicked "bad slot")
      | Some channel =>
          match janet_channel_pop vm channel false with
          | (vm', (0, _)) => (vm', Await)
          | (vm', (_, Some item)) =>
              (janet_schedule vm' (janet_vm_root_fiber vm') item, Await)
          | (vm', (_, None)) => (vm', Await)
          end
      end
  | _ => (vm, Panicked "arity mismatch")
  end.

(** [cfun_channel_new] ([ev/chan]); [channel] is the address
    [janet_abstract] returned, [janet_optnat] rejects negative limits.
    [janet_optnat] itself is in capi.c, which is not among the sources: the
    test on [l] stands for its check that the argument is a natural number
    that fits an [int32_t]. *)
Definition cfun_channel_new (vm : VM) (channel : nat) (argv : list Janet)
  : VM * outcome Janet :=
  let new l := (with_channels vm (<[channel := janet_chan_init l]> (channels vm)),
                Return (JAbstract channel)) in
  match argv with
  | [] => new 0
  | [JNumber l] =>
      if (0 <=? l) && (l <=? 2^31 - 1) then new l
      else (vm, Panicked "bad slot")
  | [JNil] => new 0
  | [_] => (vm, Panicked "bad slot")
  | _ => (vm, Panicked "arity mismatch")
  end.

(** One clause of [ev/select]: [janet_indexed_view(argv[i], &data, &len)
    && len == 2] selects a write of [data[1]] to the channel [data[0]],
    anything else must be a channel to read from. *)
Inductive clause : Type :=
  | WriteClause (channel : nat) (x : Janet)
  | ReadClause (channel : nat)
  | BadClause.

Definition clause_of (arg : Janet) : clause :=
  match arg with
  | JTuple [d0; d1] =>
      match janet_getabstract (Some d0) with
      | Some c => WriteClause c d1
      | None => BadClause
      end
  | _ =>
      match janet_getabstract (Some arg) with
      | Some c => ReadClause c
      | None => BadClause
      end
  end.

(** The first loop of [cfun_channel_choice], "Check channels for immediate
    reads and writes".  [Return (Some r)]: the function returned [r];
    [Return None]: the loop ran to its end. *)
Fixpoint choice_check (vm : VM) (argv : list Janet)
  : option (VM * outcome (option Janet)) :=
  match argv with
  | [] => Some (vm, Return None)
  | arg :: argv' =>
      match clause_of arg with
      | BadClause => Some (vm, Panicked "bad slot")
      | WriteClause chan x =>
          if janet_q_count (items (channels vm chan)) <? limit (channels vm chan) then
            '(vm', r) ← janet_channel_push vm chan x true;
            match r with
            | Return _ => Some (vm', Return (Some (make_write_result chan)))
            | Panicked m => Some (vm', Panicked m)
            | Await => Some (vm', Await)
            | Aborted m => Some (vm', Aborted m)
            end
          else choice_check vm argv'
      | ReadClause chan =>
          if negb (head (items (channels vm chan)) =? tail (items (channels vm chan))) then
            match janet_channel_pop vm chan true with
            | (vm', (_, Some item)) =>
                Some (vm', Return (Some (make_read_result chan item)))
            | (vm', (_, None)) =>
                Some (vm', Return (Some (make_read_result chan JNil)))
            end
          else choice_check vm argv'
      end
  end.

(** The second loop, "Wait for all readers or writers": the return values
    of [janet_channel_push] and [janet_channel_pop] are dropped. *)
Fixpoint choice_wait (vm : VM) (argv : list Janet) : option (VM * outcome unit) :=
  match argv with
  | [] => Some (vm, Return tt)
  | arg :: argv' =>
      match clause_of arg with
      | BadClause => Some (vm, Panicked "bad slot")
      | WriteClause chan x =>
          '(vm', r) ← janet_channel_push vm chan x true;
          match r with
          | Return _ => choice_wait vm' argv'
          | Panicked m => Some (vm', Panicked m)
          | Await => Some (vm', Await)
          | Aborted m => Some (vm', Aborted m)
          end
      | ReadClause chan =>
          choice_wait (janet_channel_pop vm chan true).1 argv'
      end
  end.

(** [cfun_channel_choice] ([ev/select]). *)
Definition cfun_channel_choice (vm : VM) (argv : list Janet)
  : option (VM * outcome Janet) :=
  match argv with
  | [] => Some (vm, Panicked "arity mismatch")
  | _ =>
      '(vm1, r1) ← choice_check vm argv;
      match r1 with
      | Return (Some r) => Some (vm1, Return r)
      | Panicked m => Some (vm1, Panicked m)
      | Await => Some (vm1, Await)
      | Aborted m => Some (vm1, Aborted m)
      | Return None =>
          '(vm2, r2) ← choice_wait vm1 argv;
          match r2 with
          | Return _ => Some (vm2, Await)       (* janet_await() *)
          | Panicked m => Some (vm2, Panicked m)
          | Await => Some (vm2, Await)
          | Aborted m => Some (vm2, Aborted m)
          end
      end
  end.

(** *** The states the loop can be in *)

(** [janet_ev_init_common] on fresh heaps: every fiber as [fiber_init],
    every pollable as [janet_pollable_init] leaves it, every channel as
    [janet_chan_init] leaves it. *)
Definition vm_init : VM :=
  {| fibers := fun _ => fiber_init;
     channels := fun _ => janet_chan_init 0;
     pollables := fun _ => janet_pollable_init;
     janet_vm_spawn := janet_q_init;
     janet_vm_root_fiber := 0;
     janet_vm_active_listeners := 0 |}.

(** The listeners that are linked into some pollable. *)
Definition listening (vm : VM) (st : JanetListenerState) : Prop :=
  st ∈ pollable_state (pollables vm (state_pollable st)).

(** The observable points of a run: the states between two calls into
    ev.c.  The host VM picks the running fiber and calls the functions of
    the file on behalf of the fibers, the loop ([janet_loop1]) dequeues a
    task and resumes its fiber ([run_one], whose continuation of the fiber
    makes further calls).  [malloc] hands out an address that no linked
    listener has. *)
Inductive reachable : VM -> Prop :=
  | reach_init : reachable vm_init
  | reach_root vm fiber :
      reachable vm -> reachable (with_root_fiber vm fiber)
  | reach_schedule vm fiber value sig :
      reachable vm -> reachable (janet_schedule_signal vm fiber value sig)
  | reach_resume vm task q vm' :
      reachable vm ->
      janet_q_pop (janet_vm_spawn vm) = Some (task, q) ->
      janet_fiber_did_resume (run_one_enter (with_spawn vm q) (task_fiber task))
                             (task_fiber task) = (vm', Return tt) ->
      reachable vm'
  | reach_chan_new vm channel argv vm' r :
      reachable vm ->
      cfun_channel_new vm channel argv = (vm', r) ->
      reachable vm'
  | reach_give vm channel x is_choice vm' r :
      reachable vm ->
      janet_channel_push vm channel x is_choice = Some (vm', r) ->
      reachable vm'
  | reach_take vm channel is_choice vm' r :
      reachable vm ->
      janet_channel_pop vm channel is_choice = (vm', r) ->
      reachable vm'
  | reach_listen vm pollable mask state vm' r :
      reachable vm ->
      (forall p st, st ∈ pollable_state (pollables vm p) -> state_addr st <> state) ->
      janet_listen_impl vm pollable mask state = (vm', r) ->
      reachable vm'
  | reach_unlisten vm st vm' :
      reachable vm -> listening vm st ->
      janet_unlisten vm st = (vm', Return tt) ->
      reachable vm'.

(** *** Specification vocabulary *)

(** The fiber carries the [SCHEDULED] flag. *)
Definition scheduled (vm : VM) (fiber : nat) : Prop :=
  has_bits (flags (fibers vm fiber)) JANET_FIBER_FLAG_SCHEDULED = true.

(** Run queue: the ring is well formed, no fiber has two tasks in it, and
    every fiber with a task in it carries the flag. *)
Definition spawn_inv (vm : VM) : Prop :=
  q_wf (janet_vm_spawn vm) /\
  NoDup (task_fiber <$> q_contents (janet_vm_spawn vm)) /\
  forall t, t ∈ q_contents (janet_vm_spawn vm) -> scheduled vm (task_fiber t).

(** The bitwise OR of the masks of a listener list, and the bits of a mask
    other than [JANET_ASYNC_LISTEN_SPAWNER]. *)
Definition mask_or (l : list JanetListenerState) : Z :=
  foldr (fun s acc => Z.lor (state_mask s) acc) 0 l.

Definition event_bits (m : Z) : Z := Z.ldiff m JANET_ASYNC_LISTEN_SPAWNER.

(** No two listeners of the list share a bit other than the spawner bit. *)
Fixpoint masks_disjoint (l : list JanetListenerState) : Prop :=
  match l with
  | [] => True
  | s :: l' => Z.land (event_bits (state_mask s)) (mask_or l') = 0 /\ masks_disjoint l'
  end.

(** Pollables: listener addresses are unique, a listener is linked into
    the pollable it names and carries the spawner bit, a fiber's [waiting]
    listener is linked and names the fiber, and the aggregate mask agrees
    with the OR of the listener masks on every bit but the spawner bit. *)
Definition poll_inv (vm : VM) : Prop :=
  (forall p, NoDup (state_addr <$> pollable_state (pollables vm p))) /\
  (forall p1 p2 s1 s2,
     s1 ∈ pollable_state (pollables vm p1) ->
     s2 ∈ pollable_state (pollables vm p2) ->
     state_addr s1 = state_addr s2 -> s1 = s2) /\
  (forall p st, st ∈ pollable_state (pollables vm p) ->
     state_pollable st = p /\
     Z.land (state_mask st) JANET_ASYNC_LISTEN_SPAWNER = JANET_ASYNC_LISTEN_SPAWNER) /\
  (forall f st, waiting (fibers vm f) = Some st ->
     listening vm st /\ state_fiber st = Some f) /\
  (forall p, event_bits (pollable_mask (pollables vm p))
             = event_bits (mask_or (pollable_state (pollables vm p))) /\
             masks_disjoint (pollable_state (pollables vm p))).

(** Channels: the three rings are well formed, the limit is a natural
    number, every pending writer has its item in [items], and [items]
    exceeds the limit by at most one item per pending writer. *)
Definition chan_inv (c : JanetChannel) : Prop :=
  q_wf (items c) /\ q_wf (read_pending c) /\ q_wf (write_pending c) /\
  0 <= limit c /\
  janet_q_count (write_pending c) <= janet_q_count (items c) /\
  janet_q_count (items c) <= limit c + janet_q_count (write_pending c).

(** A pending reader whose fiber was rescheduled since it registered. *)
Definition is_stale (fs : nat -> JanetFiber) (p : JanetChannelPending) : bool :=
  negb (pending_sched_id p =? sched_id (fs (pending_fiber p))).

(** The pending readers from the first live one on. *)
Fixpoint skip_stale (fs : nat -> JanetFiber) (l : list JanetChannelPending)
  : list JanetChannelPending :=
  match l with
  | [] => []
  | p :: l' => if is_stale fs p then skip_stale fs l' else l
  end.

(** The value a reader is resumed with. *)
Definition reader_value (channel : nat) (x : Janet) (r : JanetChannelPending) : Janet :=
  match pending_mode r with
  | JANET_CP_MODE_CHOICE_READ => make_read_result channel x
  | _ => x
  end.

(** The value a writer is resumed with. *)
Definition writer_value (channel : nat) (w : JanetChannelPending) : Janet :=
  match pending_mode w with
  | JANET_CP_MODE_CHOICE_WRITE => make_write_result channel
  | _ => JAbstract channel
  end.

(** The [Pending] record that [janet_channel_push] ([read = false]) and
    [janet_channel_pop] ([read = true]) build for the running fiber. *)
Definition pending_of (vm : VM) (is_choice read : bool) : JanetChannelPending :=
  {| pending_fiber := janet_vm_root_fiber vm;
     pending_sched_id := sched_id (fibers vm (janet_vm_root_fiber vm));
     pending_mode :=
       if is_choice
       then (if read then JANET_CP_MODE_CHOICE_READ else JANET_CP_MODE_CHOICE_WRITE)
       else JANET_CP_MODE_ITEM |}.

(** A ring that holds [JANET_MAX_Q_CAPACITY - 1] copies of [x]: the state
    of a queue after that many pushes, in which [janet_q_push] returns 1. *)
Definition full_ring {A} (x : A) : JanetQueue A :=
  mkQ JANET_MAX_Q_CAPACITY 0 (JANET_MAX_Q_CAPACITY - 1)
      (replicate (Z.to_nat JANET_MAX_Q_CAPACITY) x).

(** Store [c] at [channel]. *)
Definition put_channel (vm : VM) (channel : nat) (c : JanetChannel) : VM :=
  with_channels vm (<[channel := c]> (channels vm)).

(** *** Scripts

    Calls made on behalf of a given fiber, for writing down concrete runs:
    [ev/chan], [ev/give], [ev/take] without the final [janet_await], a
    [janet_schedule_signal], a [janet_listen_impl], and one turn of
    the "Run scheduled fibers" loop of [janet_loop1] up to the point where
    the fiber's own code starts. *)
Definition do_chan (vm : VM) (channel : nat) (limit : Z) : VM :=
  (cfun_channel_new vm channel [JNumber limit]).1.

Definition do_give (vm : VM) (fiber channel : nat) (x : Janet) : VM :=
  match janet_channel_push (with_root_fiber vm fiber) channel x false with
  | Some (vm', _) => vm'
  | None => vm
  end.

Definition do_take (vm : VM) (fiber channel : nat) : VM :=
  (janet_channel_pop (with_root_fiber vm fiber) channel false).1.

Definition do_listen (vm : VM) (fiber pollable : nat) (mask : Z) (state : nat) : VM :=
  (janet_listen_impl (with_root_fiber vm fiber) pollable mask state).1.

Definition do_resume (vm : VM) : VM :=
  match janet_q_pop (janet_vm_spawn vm) with
  | Some (task, q) =>
      (janet_fiber_did_resume
         (run_one_enter (with_spawn (with_root_fiber vm (task_fiber task)) q)
            (task_fiber task))
         (task_fiber task)).1
  | None => vm
  end.

Definition vm_inv (vm : VM) : Prop :=
  spawn_inv vm /\ poll_inv vm /\ forall ch, chan_inv (channels vm ch).

(** Both channel operations store a channel that satisfies the invariant
    and call [janet_schedule] at most once. *)
Definition channel_step (vm : VM) (channel : nat) (vm' : VM) : Prop :=
  exists c', chan_inv c' /\
    (vm' = put_channel vm channel c' \/
     exists f v, vm' = janet_schedule (put_channel vm channel c') f v).

(** The state after [JANET_MAX_Q_CAPACITY - 1] gives of [nil] on a channel
    of limit [2^31 - 1] (the largest [ev/chan] accepts) that nobody reads. *)
Definition vm_items_full : VM :=
  put_channel vm_init 0
    (mkChannel (full_ring JNil) janet_q_init janet_q_init (2^31 - 1)).

(** An empty channel on which fiber 1 has registered
    [JANET_MAX_Q_CAPACITY - 1] reads that nobody served (one [ev/select]
    with that many read clauses on the channel does it). *)
Definition vm_readers_full : VM :=
  put_channel vm_init 0
    (mkChannel janet_q_init (full_ring (mkPending 1 0 JANET_CP_MODE_CHOICE_READ))
       janet_q_init 0).

(** The run queue at its hard cap: [JANET_MAX_Q_CAPACITY - 1] tasks, one
    for each of the fibers 10, 11, ..., which all carry the flag; fiber 2
    is not scheduled and waits in an [ev/take] on the empty channel 0. *)
Definition vm_spawn_full : VM :=
  {| fibers := fun f => if (10 <=? f)%nat
                        then mkFiber JANET_FIBER_FLAG_SCHEDULED 1 None
                        else fiber_init;
     channels :=
       <[0%nat := mkChannel janet_q_init
                    (q_push_ignore janet_q_init (mkPending 2 0 JANET_CP_MODE_ITEM))
                    janet_q_init 0]> (fun _ => janet_chan_init 0);
     pollables := fun _ => janet_pollable_init;
     janet_vm_spawn :=
       mkQ JANET_MAX_Q_CAPACITY 0 (JANET_MAX_Q_CAPACITY - 1)
           ((fun i => mkTask (10 + i) JNil JANET_SIGNAL_OK)
              <$> seq 0 (Z.to_nat JANET_MAX_Q_CAPACITY));
     janet_vm_root_fiber := 1;
     janet_vm_active_listeners := 0 |}.

End Ev.

(* ===================================================================== *)
(** ** Library functions and the rest of the loop                         *)
(* ===================================================================== *)

(** *** GC hooks ([janet_ev_mark], [janet_chanat_mark], [janet_pollable_mark])

    The collector itself (gc.c) is outside this file.  A hook is modelled by
    the list of values it hands to [janet_mark], in call order. *)

Module Marking.
Import RingQueue TimerHeap Ev.

(** [for (int32_t i = lo; i < hi; i++) body(i)]: the marks of the
    iterations, in order. *)
Definition for_range {B : Type} (lo hi : Z) (body : Z -> list B) : list B :=
  flat_map body (seqZ lo (hi - lo)).

(** [janet_chanat_mark_fq(fq)]. *)
Definition janet_chanat_mark_fq (fq : JanetQueue JanetChannelPending) : list Janet :=
  let pending i := nth (Z.to_nat i) (data fq) junk in
  let mark i := [JFiber (pending_fiber (pending i))] in
  if head fq <=? tail fq then
    for_range (head fq) (tail fq) mark
  else
    for_range (head fq) (capacity fq) mark ++ for_range 0 (tail fq) mark.

(** [janet_chanat_mark(p, s)] (it returns 0). *)
Definition janet_chanat_mark (chan : JanetChannel) : list Janet :=
  let items := items chan in
  let data i := nth (Z.to_nat i) (data items) junk in
  janet_chanat_mark_fq (read_pending chan)
  ++ janet_chanat_mark_fq (write_pending chan)
  ++ (if head items <=? tail items then
        for_range (head items) (tail items) (fun i => [data i])
      else
        for_range (head items) (capacity items) (fun i => [data i])
        ++ for_range 0 (tail items) (fun i => [data i])).

(** [janet_ev_mark()], "Mark all pending tasks": the tasks of the run queue,
    then the fibers of the timeouts. *)
Definition janet_ev_mark (vm : VM) (t : TimerQueue) : list Janet :=
  let spawn := janet_vm_spawn vm in
  let tasks i := nth (Z.to_nat i) (data spawn) junk in
  let mark i := [JFiber (task_fiber (tasks i)); task_value (tasks i)] in
  (if head spawn <=? tail spawn then
     for_range (head spawn) (tail spawn) mark
   else
     for_range (head spawn) (capacity spawn) mark ++ for_range 0 (tail spawn) mark)
  ++ flat_map (fun i => [JFiber (to_fiber (janet_vm_tq t !!! i))])
              (seq 0 (janet_vm_tq_count t)).

(** [janet_pollable_mark(pollable)]: the walk over the listener list.  The
    [JANET_ASYNC_EVENT_MARK] call lets the state machine mark what its
    private bytes hold, which is not modelled. *)
Fixpoint pollable_mark_walk (state : list JanetListenerState) : list Janet :=
  match state with
  | [] => []
  | st :: next =>
      match state_fiber st with
      | Some fiber => JFiber fiber :: pollable_mark_walk next
      | None => pollable_mark_walk next
      end
  end.

Definition janet_pollable_mark (pollable : JanetPollable) : list Janet :=
  pollable_mark_walk (pollable_state pollable).

End Marking.

(** *** Timeouts in the loop ([janet_addtimeout], [ev/sleep], [janet_loop1])

    The clock ([ts_now]) and the conversion of seconds to a timestamp
    ([ts_delta], floating point) are inputs: [ts] is the value of
    [ts_delta(ts_now(), sec)], [now] the value of [ts_now()]. *)

Module Timers.
Import RingQueue TimerHeap Ev.

(** [janet_addtimeout(sec)]: "Set timeout for the current root fiber". *)
Definition janet_addtimeout (vm : VM) (t : TimerQueue) (ts : Z) : option TimerQueue :=
  let fiber := janet_vm_root_fiber vm in
  let to := {| when := ts;
               to_fiber := fiber;
               to_sched_id := sched_id (fibers vm fiber);
               is_error := true |} in
  add_timeout t to.

(** [cfun_ev_sleep] ([ev/sleep]).  The result is the timer heap and how
    the function leaves; the state [vm] is only read. *)
Definition cfun_ev_sleep (vm : VM) (t : TimerQueue) (ts : Z) (argv : list Janet)
  : option (TimerQueue * outcome Janet) :=
  match argv with
  | [JNumber _] =>
      let to := {| when := ts;
                   to_fiber := janet_vm_root_fiber vm;
                   to_sched_id := sched_id (fibers vm (janet_vm_root_fiber vm));
                   is_error := false |} in
      t' ← add_timeout t to;
      Some (t', Await)
  | [_] => Some (t, Panicked "bad slot")
  | _ => Some (t, Panicked "arity mismatch")
  end.

(** What [janet_loop1] does with a timeout it has removed from the heap:
    [if (to.fiber->sched_id == to.sched_id) { if (to.is_error)
    janet_cancel(...) else janet_schedule(...) }]. *)
Definition timeout_fire (vm : VM) (to : JanetTimeout) : VM :=
  if sched_id (fibers vm (to_fiber to)) =? to_sched_id to then
    if is_error to then janet_cancel vm (to_fiber to) (JString "timeout")
    else janet_schedule vm (to_fiber to) JNil
  else vm.

(** The first loop of [janet_loop1], "Schedule expired timers":
    [while (peek_timeout(&to) && to.when <= now)].  [fuel] bounds the
    number of iterations. *)
Fixpoint expire_timers (fuel : nat) (now : Z) (vm : VM) (t : TimerQueue)
  : option (VM * TimerQueue) :=
  match fuel with
  | O => None
  | S fuel' =>
      match peek_timeout t with
      | Some to =>
          if when to <=? now then
            t' ← pop_timeout t 0;
            expire_timers fuel' now (timeout_fire vm to) t'
          else Some (vm, t)
      | None => Some (vm, t)
      end
  end.

(** The loop "Drop timeouts that are no longer needed" that [janet_loop1]
    runs before it polls: [while ((has_timeout = peek_timeout(&to)) &&
    to.fiber->sched_id != to.sched_id) pop_timeout(0)].  [w] is [to.when]
    (0 after the [memset]); the result is the heap, [has_timeout] and
    [to.when], the two arguments of [janet_loop1_impl]. *)
Fixpoint drop_stale (fuel : nat) (vm : VM) (t : TimerQueue) (w : Z)
  : option (TimerQueue * bool * Z) :=
  match fuel with
  | O => None
  | S fuel' =>
      match peek_timeout t with
      | Some to =>
          if negb (sched_id (fibers vm (to_fiber to)) =? to_sched_id to) then
            t' ← pop_timeout t 0;
            drop_stale fuel' vm t' (when to)
          else Some (t, true, when to)
      | None => Some (t, false, w)
      end
  end.

(** The second loop of [janet_loop1], "Run scheduled fibers":
    [while (janet_vm_spawn.head != janet_vm_spawn.tail)].  The result is
    the final state and the tasks handed to [run_one], in that order.
    [janet_q_pop] fails only on [head == tail], which the loop test
    excludes. *)
Fixpoint run_scheduled (fuel : nat)
    (janet_continue_signal : VM -> nat -> Janet -> JanetSignal -> VM * JanetSignal)
    (vm : VM) : option (VM * list JanetTask) :=
  match fuel with
  | O => None
  | S fuel' =>
      if negb (head (janet_vm_spawn vm) =? tail (janet_vm_spawn vm)) then
        match janet_q_pop (janet_vm_spawn vm) with
        | Some (task, q) =>
            let vm1 := run_one janet_continue_signal (with_spawn vm q)
                         (task_fiber task) (task_value task) (task_sig task) in
            '(vm', ran) ← run_scheduled fuel' janet_continue_signal vm1;
            Some (vm', task :: ran)
        | None => None
        end
      else Some (vm, [])
  end.

(** The task a timeout puts on the run queue when it fires. *)
Definition timeout_task (to : JanetTimeout) : JanetTask :=
  if is_error to then mkTask (to_fiber to) (JString "timeout") JANET_SIGNAL_ERROR
  else mkTask (to_fiber to) JNil JANET_SIGNAL_OK.

(** A timeout whose fiber has been scheduled since it was set. *)
Definition stale_timeout (vm : VM) (to : JanetTimeout) : Prop :=
  sched_id (fibers vm (to_fiber to)) <> to_sched_id to.

End Timers.

(** *** Closing a pollable ([janet_pollable_deinit]) *)

Module Pollables.
Import RingQueue Ev.

(** The loop of [janet_pollable_deinit]:
    [while (NULL != state) { ...; next_state = state->_next;
    janet_unlisten_impl(state); state = next_state; }].  The argument is
    the chain of listeners from [state] on.  The
    [JANET_ASYNC_EVENT_CLOSE] call belongs to the state machine and works
    on the listener's private bytes, which are not modelled. *)
Fixpoint pollable_deinit_walk (vm : VM) (state : list JanetListenerState)
  : VM * outcome unit :=
  match state with
  | [] => (vm, Return tt)
  | st :: next_state =>
      match janet_unlisten_impl vm st with
      | (vm', Return _) => pollable_deinit_walk vm' next_state
      | (vm', Panicked msg) => (vm', Panicked msg)
      | (vm', Await) => (vm', Await)
      | (vm', Aborted msg) => (vm', Aborted msg)
      end
  end.

Section Deinit.
(** The flag bit of janet.h, whatever its value. *)
Variable JANET_POLL_FLAG_CLOSED : Z.

(** [janet_pollable_deinit(pollable)]. *)
Definition janet_pollable_deinit (vm : VM) (pollable : nat) : VM * outcome unit :=
  let p := pollables vm pollable in
  let vm1 := with_pollables vm
               (<[pollable := {| pollable_flags :=
                                   Z.lor (pollable_flags p) JANET_POLL_FLAG_CLOSED;
                                 pollable_state := pollable_state p;
                                 pollable_mask := pollable_mask p |}]> (pollables vm)) in
  match pollable_deinit_walk vm1 (pollable_state p) with
  | (vm2, Return _) =>
      let p2 := pollables vm2 pollable in
      (with_pollables vm2
         (<[pollable := {| pollable_flags := pollable_flags p2;
                           pollable_state := [];
                           pollable_mask := pollable_mask p2 |}]> (pollables vm2)),
       Return tt)
  | (vm2, Panicked msg) => (vm2, Panicked msg)
  | (vm2, Await) => (vm2, Await)
  | (vm2, Aborted msg) => (vm2, Aborted msg)
  end.

End Deinit.

End Pollables.

(** *** The other library functions of the channel and loop API *)

Module Cfuns.
Import RingQueue Ev.

(** [cfun_channel_full] ([ev/full]); the result is the argument of
    [janet_wrap_boolean]. *)
Definition cfun_channel_full (vm : VM) (argv : list Janet) : outcome bool :=
  match argv with
  | [a0] =>
      match janet_getabstract (Some a0) with
      | None => Panicked "bad slot"
      | Some channel =>
          Return (janet_q_count (items (channels vm channel))
                  >=? limit (channels vm channel))
      end
  | _ => Panicked "arity mismatch"
  end.

(** [cfun_channel_capacity] ([ev/capacity]). *)
Definition cfun_channel_capacity (vm : VM) (argv : list Janet) : outcome Janet :=
  match argv with
  | [a0] =>
      match janet_getabstract (Some a0) with
      | None => Panicked "bad slot"
      | Some channel => Return (JNumber (limit (channels vm channel)))
      end
  | _ => Panicked "arity mismatch"
  end.

(** [cfun_channel_count] ([ev/count]). *)
Definition cfun_channel_count (vm : VM) (argv : list Janet) : outcome Janet :=
  match argv with
  | [a0] =>
      match janet_getabstract (Some a0) with
      | None => Panicked "bad slot"
      | Some channel => Return (JNumber (janet_q_count (items (channels vm channel))))
      end
  | _ => Panicked "arity mismatch"
  end.

(** [cfun_ev_go] ([ev/go]); [janet_getfiber] accepts fibers only. *)
Definition cfun_ev_go (vm : VM) (argv : list Janet) : VM * outcome Janet :=
  match argv with
  | [JFiber fiber] => (janet_schedule vm fiber JNil, Return (JFiber fiber))
  | [JFiber fiber; value] => (janet_schedule vm fiber value, Return (JFiber fiber))
  | [_] | [_; _] => (vm, Panicked "bad slot")
  | _ => (vm, Panicked "arity mismatch")
  end.

(** [cfun_ev_cancel] ([ev/cancel]). *)
Definition cfun_ev_cancel (vm : VM) (argv : list Janet) : VM * outcome Janet :=
  match argv with
  | [JFiber fiber; err] => (janet_cancel vm fiber err, Return (JFiber fiber))
  | [_; _] => (vm, Panicked "bad slot")
  | _ => (vm, Panicked "arity mismatch")
  end.

(** The test that lets a clause of [ev/select] succeed in the first pass. *)
Definition clause_ready (vm : VM) (cl : clause) : bool :=
  match cl with
  | WriteClause chan _ =>
      janet_q_count (items (channels vm chan)) <? limit (channels vm chan)
  | ReadClause chan =>
      negb (head (items (channels vm chan)) =? tail (items (channels vm chan)))
  | BadClause => false
  end.

Section Shuffle.
(** The generator [janet_vm_ev_rng] (util.c) is an external collaborator:
    [janet_rng_u32] hands back a [uint32_t] and the next generator
    state. *)
Context {JanetRNG : Type} (janet_rng_u32 : JanetRNG -> Z * JanetRNG).

(** The loop of [fisher_yates_args]: [for (int32_t i = argc; i > 1; i--)]. *)
Fixpoint fisher_yates_loop (i : nat) (rng : JanetRNG) (argv : list Janet)
  : JanetRNG * list Janet :=
  match i with
  | S i' =>
      if (1 <? i)%nat then
        let '(r, rng') := janet_rng_u32 rng in
        let swap_index := Z.to_nat (r mod Z.of_nat i) in
        let temp := argv !!! swap_index in
        let argv := <[swap_index := argv !!! i']> argv in
        let argv := <[i' := temp]> argv in
        fisher_yates_loop i' rng' argv
      else (rng, argv)
  | O => (rng, argv)
  end.

(** [fisher_yates_args(argc, argv)]. *)
Definition fisher_yates_args (rng : JanetRNG) (argv : list Janet) : JanetRNG * list Janet :=
  fisher_yates_loop (length argv) rng argv.

(** [cfun_channel_rchoice] ([ev/rselect]). *)
Definition cfun_channel_rchoice (rng : JanetRNG) (vm : VM) (argv : list Janet)
  : JanetRNG * option (VM * outcome Janet) :=
  let '(rng', argv') := fisher_yates_args rng argv in
  (rng', cfun_channel_choice vm argv').

End Shuffle.

End Cfuns.

(** *** The reactor built on [poll] (ev.c lines 924-1041)

    The last of the three platform variants.  [poll] itself and the
    dispatch of its results ([janet_loop1_impl]) belong to the operating
    system and to the state machines of the listeners; what is modelled is
    the table of descriptors the variant keeps. *)

Module PollReactor.
Import RingQueue Ev.

(** [struct pollfd]. *)
Record pollfd : Type := mkPollfd {
  fd : Z;
  events : Z;
  revents : Z
}.

Global Instance pollfd_inhabited : Inhabited pollfd := populate (mkPollfd 0 0 0).

(** The globals [janet_vm_fds], [janet_vm_listener_map], [janet_vm_fdcap]
    and [janet_vm_fdcount]; the map holds the addresses of the listeners.
    [state_index] is the field [_index] of the listener at each address. *)
Record PollState : Type := mkPoll {
  janet_vm_fds : list pollfd;
  janet_vm_listener_map : list nat;
  janet_vm_fdcap : nat;
  janet_vm_fdcount : nat;
  state_index : nat -> nat
}.

(** [janet_ev_init] of this variant; [janet_listen_impl] sets [_index] to 0
    in every listener it makes. *)
Definition janet_ev_init : PollState :=
  {| janet_vm_fds := []; janet_vm_listener_map := [];
     janet_vm_fdcap := 0; janet_vm_fdcount := 0; state_index := fun _ => 0%nat |}.

Section Events.
(** The bits of janet.h and poll.h, whatever their values. *)
Variables (JANET_ASYNC_LISTEN_READ JANET_ASYNC_LISTEN_WRITE POLLIN POLLOUT : Z).

(** [make_poll_events(mask)]. *)
Definition make_poll_events (mask : Z) : Z :=
  let events := 0 in
  let events := if has_bits mask JANET_ASYNC_LISTEN_READ
                then Z.lor events POLLIN else events in
  let events := if has_bits mask JANET_ASYNC_LISTEN_WRITE
                then Z.lor events POLLOUT else events in
  events.

(** [janet_push_pollfd(pfd)]. *)
Definition janet_push_pollfd (s : PollState) (pfd : pollfd) : PollState :=
  let s1 :=
    if (janet_vm_fdcap s =? janet_vm_fdcount s)%nat then
      let newcap := if (janet_vm_fdcount s =? 0)%nat then 16%nat
                    else (janet_vm_fdcount s * 2)%nat in
      {| janet_vm_fds := realloc (janet_vm_fds s) (Z.of_nat newcap);
         janet_vm_listener_map := realloc (janet_vm_listener_map s) (Z.of_nat newcap);
         janet_vm_fdcap := newcap;
         janet_vm_fdcount := janet_vm_fdcount s;
         state_index := state_index s |}
    else s in
  {| janet_vm_fds := <[janet_vm_fdcount s1 := pfd]> (janet_vm_fds s1);
     janet_vm_listener_map := janet_vm_listener_map s1;
     janet_vm_fdcap := janet_vm_fdcap s1;
     janet_vm_fdcount := S (janet_vm_fdcount s1);
     state_index := state_index s1 |}.

(** [janet_listen(pollable, behavior, mask, size, user)] of this variant;
    [handle] is [pollable->handle]. *)
Definition janet_listen (vm : VM) (s : PollState) (handle : Z)
    (pollable : nat) (mask : Z) (state : nat)
  : VM * PollState * outcome JanetListenerState :=
  match janet_listen_impl vm pollable mask state with
  | (vm', Return st) =>
      let ev := {| fd := handle;
                   events := make_poll_events
                               (pollable_mask (pollables vm' (state_pollable st)));
                   revents := 0 |} in
      let index := janet_vm_fdcount s in
      let s1 := {| janet_vm_fds := janet_vm_fds s;
                   janet_vm_listener_map := janet_vm_listener_map s;
                   janet_vm_fdcap := janet_vm_fdcap s;
                   janet_vm_fdcount := janet_vm_fdcount s;
                   state_index := <[state_addr st := index]> (state_index s) |} in
      let s2 := janet_push_pollfd s1 ev in
      (vm',
       {| janet_vm_fds := janet_vm_fds s2;
          janet_vm_listener_map := <[index := state_addr st]> (janet_vm_listener_map s2);
          janet_vm_fdcap := janet_vm_fdcap s2;
          janet_vm_fdcount := janet_vm_fdcount s2;
          state_index := state_index s2 |},
       Return st)
  | (vm', Panicked msg) => (vm', s, Panicked msg)
  | (vm', Await) => (vm', s, Await)
  | (vm', Aborted msg) => (vm', s, Aborted msg)
  end.

End Events.

(** [janet_unlisten(state)] of this variant.  It is called on listeners
    that [janet_listen] registered, so that [janet_vm_fdcount] is not 0
    when it is decremented. *)
Definition janet_unlisten (vm : VM) (s : PollState) (state : JanetListenerState)
  : VM * PollState * outcome unit :=
  let index := state_index s (state_addr state) in
  let count := pred (janet_vm_fdcount s) in
  let fds := <[index := janet_vm_fds s !!! count]> (janet_vm_fds s) in
  let replacer := janet_vm_listener_map s !!! count in
  let map := <[index := replacer]> (janet_vm_listener_map s) in
  (* Update pointers in replacer *)
  let idx := <[replacer := index]> (state_index s) in
  (* Destroy state machine and free memory *)
  let '(vm', r) := janet_unlisten_impl vm state in
  (vm',
   {| janet_vm_fds := fds; janet_vm_listener_map := map;
      janet_vm_fdcap := janet_vm_fdcap s; janet_vm_fdcount := count;
      state_index := idx |},
   r).

(** The listeners in the table, and the invariant of the table: the two
    blocks have [janet_vm_fdcap] cells, of which the first
    [janet_vm_fdcount] are in use, and every listener in the table is at the
    index it records. *)
Definition poll_registered (s : PollState) : list nat :=
  take (janet_vm_fdcount s) (janet_vm_listener_map s).

Definition poll_table_ok (s : PollState) : Prop :=
  (janet_vm_fdcount s <= janet_vm_fdcap s)%nat /\
  length (janet_vm_fds s) = janet_vm_fdcap s /\
  length (janet_vm_listener_map s) = janet_vm_fdcap s /\
  forall i, (i < janet_vm_fdcount s)%nat ->
    state_index s (janet_vm_listener_map s !!! i) = i.

End PollReactor.

(* ===================================================================== *)
(** * Properties                                                           *)
(* ===================================================================== *)

Module RingQueueFacts.
Import RingQueue.

Section QueueFacts.
Context {A : Type} `{Inhabited A}.
Implicit Types (q : JanetQueue A) (x : A) (d : list A).

Lemma q_wf_init : q_wf (janet_q_init (A:=A)).
Proof. unfold q_wf, janet_q_init, JANET_MAX_Q_CAPACITY; simpl; lia. Qed.

Lemma janet_q_count_contents q :
  q_wf q -> janet_q_count q = Z.of_nat (length (q_contents q)).
Proof.
  intros (Hh & Ht & Hhc & Htc & Hc & Hl).
  unfold janet_q_count, q_contents.
  destruct (Z.gtb_spec (head q) (tail q)); destruct (Z.leb_spec (head q) (tail q)); try lia.
  - rewrite length_app, !length_take, length_drop. lia.
  - rewrite length_take, length_drop. lia.
Qed.

Lemma janet_q_count_bounds q :
  q_wf q -> 0 <= janet_q_count q < Z.max (capacity q) 1.
Proof.
  intros (Hh & Ht & Hhc & Htc & Hc & Hl). unfold janet_q_count.
  destruct (Z.gtb_spec (head q) (tail q)); lia.
Qed.

Lemma take_drop_head d (n k : nat) x :
  d !! n = Some x -> take (S k) (drop n d) = x :: take k (drop (S n) d).
Proof. intros Hx. by rewrite (drop_S _ _ _ Hx). Qed.

(** [janet_q_pop] on a well-formed ring: it fails exactly on the empty
    queue and otherwise removes the front element. *)
Lemma janet_q_pop_spec q :
  q_wf q ->
  match janet_q_pop q with
  | None => q_contents q = []
  | Some (x, q') => q_contents q = x :: q_contents q' /\ q_wf q'
  end.
Proof.
  intros (Hh & Ht & Hhc & Htc & Hc & Hl).
  unfold janet_q_pop.
  destruct (Z.eqb_spec (head q) (tail q)) as [Heq|Hne].
  { unfold q_contents. rewrite Heq, Z.leb_refl, Z.sub_diag. done. }
  assert (Hlen : (Z.to_nat (head q) < length (data q))%nat) by lia.
  destruct (lookup_lt_is_Some_2 _ _ Hlen) as [x Hx].
  rewrite (nth_lookup_Some _ _ _ _ Hx).
  split; [|unfold q_wf; simpl; destruct (Z.ltb_spec (head q + 1) (capacity q)); lia].
  unfold q_contents; simpl.
  destruct (Z.leb_spec (head q) (tail q)) as [Hle|Hgt].
  - (* one segment *)
    destruct (Z.ltb_spec (head q + 1) (capacity q)); [|lia].
    destruct (Z.leb_spec (head q + 1) (tail q)); [|lia].
    replace (Z.to_nat (tail q - head q)) with (S (Z.to_nat (tail q - (head q + 1)))) by lia.
    replace (Z.to_nat (head q + 1)) with (S (Z.to_nat (head q))) by lia.
    by apply take_drop_head.
  - (* two segments *)
    destruct (Z.ltb_spec (head q + 1) (capacity q)) as [Hlt|Hge].
    + destruct (Z.leb_spec (head q + 1) (tail q)); [lia|].
      replace (Z.to_nat (capacity q - head q))
        with (S (Z.to_nat (capacity q - (head q + 1)))) by lia.
      replace (Z.to_nat (head q + 1)) with (S (Z.to_nat (head q))) by lia.
      by rewrite (take_drop_head _ _ _ _ Hx).
    + destruct (Z.leb_spec 0 (tail q)); [|lia].
      replace (Z.to_nat (capacity q - head q)) with 1%nat by lia.
      rewrite (take_drop_head _ _ 0 _ Hx), take_0. simpl.
      by rewrite Z.sub_0_r.
Qed.

Lemma take_drop_insert_ge d (n h t : nat) x :
  (h + n <= t)%nat -> take n (drop h (<[t:=x]> d)) = take n (drop h d).
Proof. intros. rewrite !take_drop_commute, take_insert_ge by lia. done. Qed.

(** Storing at [tail] appends to the live sequence when a free cell is
    left after the store. *)
Lemma q_store_spec q x :
  q_wf q -> janet_q_count q + 1 < capacity q ->
  q_wf (q_store q x) /\ q_contents (q_store q x) = q_contents q ++ [x].
Proof.
  intros (Hh & Ht & Hhc & Htc & Hc & Hl) Hcnt.
  unfold janet_q_count in Hcnt.
  assert (Hpos : 0 < capacity q) by (destruct (Z.gtb_spec (head q) (tail q)); lia).
  assert (Hx : <[Z.to_nat (tail q) := x]> (data q) !! Z.to_nat (tail q) = Some x)
    by (apply list_lookup_insert_eq; lia).
  split.
  { unfold q_wf, q_store; simpl. rewrite length_insert.
    destruct (Z.ltb_spec (tail q + 1) (capacity q)); lia. }
  unfold q_contents, q_store; simpl.
  destruct (Z.gtb_spec (head q) (tail q)) as [Hgt|Hle].
  - (* two segments before and after *)
    destruct (Z.ltb_spec (tail q + 1) (capacity q)); [|lia].
    destruct (Z.leb_spec (head q) (tail q)); [lia|].
    destruct (Z.leb_spec (head q) (tail q + 1)); [lia|].
    rewrite drop_insert_lt by lia.
    replace (Z.to_nat (tail q + 1)) with (S (Z.to_nat (tail q))) by lia.
    rewrite (take_S_r _ _ _ Hx), take_insert_ge by lia.
    by rewrite app_assoc.
  - destruct (Z.leb_spec (head q) (tail q)); [|lia].
    assert (Hx' : drop (Z.to_nat (head q)) (<[Z.to_nat (tail q) := x]> (data q))
                    !! Z.to_nat (tail q - head q) = Some x).
    { rewrite lookup_drop. replace (Z.to_nat (head q) + Z.to_nat (tail q - head q))%nat
        with (Z.to_nat (tail q)) by lia. done. }
    destruct (Z.ltb_spec (tail q + 1) (capacity q)).
    + destruct (Z.leb_spec (head q) (tail q + 1)); [|lia].
      replace (Z.to_nat (tail q + 1 - head q))
        with (S (Z.to_nat (tail q - head q))) by lia.
      rewrite (take_S_r _ _ _ Hx'), take_drop_insert_ge by lia. done.
    + (* the tail wraps to cell 0 *)
      destruct (Z.leb_spec (head q) 0); [lia|].
      rewrite take_0, app_nil_r.
      replace (Z.to_nat (capacity q - head q))
        with (S (Z.to_nat (tail q - head q))) by lia.
      rewrite (take_S_r _ _ _ Hx'), take_drop_insert_ge by lia. done.
Qed.

Lemma length_realloc d n : (length d <= Z.to_nat n)%nat -> length (realloc d n) = Z.to_nat n.
Proof. intros. unfold realloc. rewrite length_app, length_take, length_replicate. lia. Qed.

Lemma realloc_grow d n :
  (length d <= Z.to_nat n)%nat ->
  realloc d n = d ++ replicate (Z.to_nat n - length d) junk.
Proof. intros. unfold realloc. by rewrite take_ge. Qed.

(** Growing the block keeps the live sequence, also when it wraps: the
    head segment [head..capacity) is moved to the end of the new block. *)
Lemma q_resize_spec q newcap :
  q_wf q -> capacity q < newcap <= JANET_MAX_Q_CAPACITY ->
  q_wf (q_resize q newcap) /\
  q_contents (q_resize q newcap) = q_contents q /\
  janet_q_count (q_resize q newcap) = janet_q_count q /\
  capacity (q_resize q newcap) = newcap.
Proof.
  intros (Hh & Ht & Hhc & Htc & Hc & Hl) Hn.
  unfold q_resize, janet_q_count, q_contents.
  destruct (Z.gtb_spec (head q) (tail q)) as [Hgt|Hle]; simpl.
  - destruct (Z.gtb_spec (capacity q - head q) 0); [|lia].
    destruct (Z.gtb_spec (head q + (newcap - capacity q)) (tail q)); [|lia].
    destruct (Z.leb_spec (head q + (newcap - capacity q)) (tail q)); [lia|].
    destruct (Z.leb_spec (head q) (tail q)); [lia|].
    set (seg := take (Z.to_nat (capacity q - head q))
                  (drop (Z.to_nat (head q)) (realloc (data q) newcap))).
    assert (Hseg : seg = take (Z.to_nat (capacity q - head q))
                           (drop (Z.to_nat (head q)) (data q))).
    { unfold seg. rewrite realloc_grow by lia.
      rewrite !take_drop_commute, take_app_le by lia. done. }
    assert (Hlseg : length seg = Z.to_nat (capacity q - head q)).
    { rewrite Hseg, length_take, length_drop. lia. }
    assert (Hlr := length_realloc (data q) newcap ltac:(lia)).
    unfold memmove. fold seg.
    split; [|split; [|split; [lia|done]]].
    + unfold q_wf; simpl. rewrite !length_app, length_take, length_drop, Hlseg, Hlr. lia.
    + rewrite drop_app_length' by (rewrite length_take; lia).
      rewrite take_app_length' by lia.
      rewrite take_app_le by (rewrite length_take; lia).
      rewrite take_take, Nat.min_l by lia.
      rewrite realloc_grow, take_app_le by lia.
      by rewrite Hseg.
  - destruct (Z.leb_spec (head q) (tail q)); [|lia].
    destruct (Z.gtb_spec (head q) (tail q)); [lia|].
    split; [|split; [|split; [lia|done]]].
    + unfold q_wf; simpl. rewrite length_realloc by lia. lia.
    + rewrite realloc_grow by lia.
      rewrite !take_drop_commute, take_app_le by lia. done.
Qed.

(** [janet_q_push] on a well-formed ring: below the hard cap it appends
    the item to the live sequence (growing the block when it is full);
    at the cap it fails and the queue is left as it was. *)
Lemma janet_q_push_spec q x :
  q_wf q ->
  match janet_q_push q x with
  | None => JANET_MAX_Q_CAPACITY <= janet_q_count q + 1
  | Some q' =>
      janet_q_count q + 1 < JANET_MAX_Q_CAPACITY /\
      q_wf q' /\ q_contents q' = q_contents q ++ [x]
  end.
Proof.
  intros Hwf. unfold janet_q_push.
  pose proof (janet_q_count_bounds q Hwf) as Hb.
  assert (Hc : 0 <= capacity q <= JANET_MAX_Q_CAPACITY) by (destruct Hwf; tauto).
  destruct (Z.geb_spec (janet_q_count q + 1) (capacity q)) as [Hfull|Hroom].
  - destruct (Z.geb_spec (janet_q_count q + 1) JANET_MAX_Q_CAPACITY) as [|Hcap]; [lia|].
    set (newcap := if (janet_q_count q + 2) * 2 >? JANET_MAX_Q_CAPACITY
                   then JANET_MAX_Q_CAPACITY else (janet_q_count q + 2) * 2).
    assert (Hnew : capacity q < newcap <= JANET_MAX_Q_CAPACITY /\
                   janet_q_count q + 1 < newcap).
    { unfold newcap.
      destruct (Z.gtb_spec ((janet_q_count q + 2) * 2) JANET_MAX_Q_CAPACITY); lia. }
    destruct (q_resize_spec q newcap Hwf (proj1 Hnew)) as (Hwf' & Hcont & Hcnt & Hcap').
    destruct (q_store_spec (q_resize q newcap) x Hwf') as [Hwf'' Hc''].
    { rewrite Hcnt, Hcap'. lia. }
    split; [lia|]. split; [done|]. by rewrite Hc'', Hcont.
  - destruct (q_store_spec q x Hwf) as [Hwf' Hc']; [lia|].
    split; [lia|]. done.
Qed.

Lemma q_run_fifo ops : forall q evs q',
  q_wf q -> q_run ops q = (evs, q') ->
  q_wf q' /\ q_contents q ++ pushed evs = popped evs ++ q_contents q'.
Proof.
  induction ops as [|[x|] ops IH]; intros q evs q' Hwf Hrun; simpl in Hrun.
  - inversion Hrun; subst. by rewrite app_nil_r.
  - pose proof (janet_q_push_spec q x Hwf) as Hp.
    destruct (janet_q_push q x) as [q1|].
    + destruct Hp as (_ & Hwf1 & Hc1).
      destruct (q_run ops q1) as [evs1 qf] eqn:E. inversion Hrun; subst.
      destruct (IH _ _ _ Hwf1 E) as [Hwf' Heq]. split; [done|].
      simpl. rewrite <- Heq, Hc1, <- app_assoc. done.
    + destruct (q_run ops q) as [evs1 qf] eqn:E. inversion Hrun; subst.
      exact (IH _ _ _ Hwf E).
  - pose proof (janet_q_pop_spec q Hwf) as Hp.
    destruct (janet_q_pop q) as [[x q1]|].
    + destruct Hp as [Hc1 Hwf1].
      destruct (q_run ops q1) as [evs1 qf] eqn:E. inversion Hrun; subst.
      destruct (IH _ _ _ Hwf1 E) as [Hwf' Heq]. split; [done|].
      simpl. rewrite Hc1. simpl. by rewrite Heq.
    + destruct (q_run ops q) as [evs1 qf] eqn:E. inversion Hrun; subst.
      exact (IH _ _ _ Hwf E).
Qed.

(** What a push does to the block when it finds the ring full and
    wrapped: the block grows, the head segment moves to the end of the new
    block, and cells [0..tail) stay where they are. *)
Lemma janet_q_push_grow_wrapped q x q' :
  q_wf q -> head q > tail q -> janet_q_count q + 1 >= capacity q ->
  janet_q_push q x = Some q' ->
  capacity q < capacity q' /\
  head q' = head q + (capacity q' - capacity q) /\
  take (Z.to_nat (capacity q' - head q')) (drop (Z.to_nat (head q')) (data q'))
    = take (Z.to_nat (capacity q - head q)) (drop (Z.to_nat (head q)) (data q)) /\
  take (Z.to_nat (tail q)) (data q') = take (Z.to_nat (tail q)) (data q) /\
  q_contents q' = q_contents q ++ [x].
Proof.
  intros Hwf Hgt Hfull Hpush.
  pose proof (janet_q_push_spec q x Hwf) as Hp. rewrite Hpush in Hp.
  destruct Hp as (Hcap & Hwf' & Hcont).
  pose proof (janet_q_count_bounds q Hwf) as Hb.
  destruct Hwf as (Hh & Ht & Hhc & Htc & Hc & Hl).
  unfold janet_q_push in Hpush.
  destruct (Z.geb_spec (janet_q_count q + 1) (capacity q)); [|lia].
  destruct (Z.geb_spec (janet_q_count q + 1) JANET_MAX_Q_CAPACITY); [lia|].
  set (newcap := if (janet_q_count q + 2) * 2 >? JANET_MAX_Q_CAPACITY
                 then JANET_MAX_Q_CAPACITY else (janet_q_count q + 2) * 2) in *.
  assert (Hnew : capacity q < newcap <= JANET_MAX_Q_CAPACITY).
  { unfold newcap.
    destruct (Z.gtb_spec ((janet_q_count q + 2) * 2) JANET_MAX_Q_CAPACITY); lia. }
  injection Hpush as Hq'.
  assert (Hcnt : janet_q_count q = tail q + capacity q - head q).
  { unfold janet_q_count. destruct (Z.gtb_spec (head q) (tail q)); lia. }
  assert (Hcapq' : capacity q' = newcap).
  { rewrite <- Hq'. unfold q_store, q_resize.
    destruct (Z.gtb_spec (head q) (tail q)); done. }
  assert (Hheadq' : head q' = head q + (newcap - capacity q)).
  { rewrite <- Hq'. unfold q_store, q_resize.
    destruct (Z.gtb_spec (head q) (tail q)); [done|lia]. }
  rewrite Hcapq'. split; [lia|]. split; [done|].
  assert (Hdata : data q' = <[Z.to_nat (tail q) := x]>
            (memmove (realloc (data q) newcap) (head q + (newcap - capacity q))
                (head q) (capacity q - head q))).
  { rewrite <- Hq'. unfold q_store, q_resize.
    destruct (Z.gtb_spec (head q) (tail q)); [|lia]. simpl.
    destruct (Z.gtb_spec (capacity q - head q) 0); [done|lia]. }
  assert (Hseg : take (Z.to_nat (capacity q - head q))
                   (drop (Z.to_nat (head q)) (realloc (data q) newcap))
                 = take (Z.to_nat (capacity q - head q))
                     (drop (Z.to_nat (head q)) (data q))).
  { rewrite realloc_grow by lia.
    rewrite !take_drop_commute, take_app_le by lia. done. }
  assert (Hlr := length_realloc (data q) newcap ltac:(lia)).
  split; [|split; [|done]].
  - rewrite Hheadq', Hdata. rewrite drop_insert_lt by lia.
    unfold memmove. rewrite drop_app_length' by (rewrite length_take; lia).
    rewrite Hseg.
    rewrite take_app_le by (rewrite length_take, length_drop; lia).
    rewrite take_take. f_equal. lia.
  - rewrite Hdata, take_insert_ge by lia.
    unfold memmove. rewrite take_app_le by (rewrite length_take; lia).
    rewrite take_take, Nat.min_l by lia.
    rewrite realloc_grow, take_app_le by lia. done.
Qed.

(** C9.  A queue that starts empty ([janet_q_init]) and receives any
    sequence of [janet_q_push] / [janet_q_pop] calls is a FIFO: the items of
    the successful pushes are, in order, the items the successful pops
    returned followed by the live cells, and [janet_q_count] is the number
    of successful pushes minus the number of successful pops (a push that
    returns 1 at the hard cap and a pop that returns 1 on the empty queue
    leave the queue as it was).  When the next push finds the ring full and
    wrapped ([head > tail]) the block grows, the head segment is moved to
    the end of the new block, and [head..capacity) followed by [0..tail)
    is still the live sequence, now ending with the new item. *)
Theorem janet_q_fifo (ops : list (q_op A)) :
  let '(evs, q) := q_run ops janet_q_init in
  pushed evs = popped evs ++ q_contents q /\
  janet_q_count q = Z.of_nat (length (pushed evs)) - Z.of_nat (length (popped evs)) /\
  forall x q',
    head q > tail q -> janet_q_count q + 1 >= capacity q ->
    janet_q_push q x = Some q' ->
    capacity q < capacity q' /\
    head q' = head q + (capacity q' - capacity q) /\
    take (Z.to_nat (capacity q' - head q')) (drop (Z.to_nat (head q')) (data q'))
      = take (Z.to_nat (capacity q - head q)) (drop (Z.to_nat (head q)) (data q)) /\
    take (Z.to_nat (tail q)) (data q') = take (Z.to_nat (tail q)) (data q) /\
    q_contents q' = q_contents q ++ [x].
Proof.
  destruct (q_run ops janet_q_init) as [evs q] eqn:E.
  destruct (q_run_fifo ops _ _ _ q_wf_init E) as [Hwf Heq].
  simpl in Heq. split; [done|]. split.
  - rewrite (janet_q_count_contents q Hwf), Heq, length_app. lia.
  - intros x q'. by apply janet_q_push_grow_wrapped.
Qed.

End QueueFacts.

(** Growth of a wrapped ring at work: after three pushes, a pop
    and a fourth push the ring of capacity 4 is full and wrapped
    ([head = 1], [tail = 0]); the fifth push grows it to capacity 10 and
    moves cells 1..3 to 7..9. *)
Lemma janet_q_fifo_witness :
  let q := snd (q_run [Push 10; Push 20; Push 30; Pop; Push 40] janet_q_init) in
  let q' := q_store (q_resize q 10) 50 in
  (head q > tail q /\ janet_q_count q + 1 >= capacity q /\
   janet_q_push q 50 = Some q') /\
  (capacity q < capacity q' /\
   head q' = head q + (capacity q' - capacity q) /\
   take (Z.to_nat (capacity q' - head q')) (drop (Z.to_nat (head q')) (data q'))
     = take (Z.to_nat (capacity q - head q)) (drop (Z.to_nat (head q)) (data q)) /\
   take (Z.to_nat (tail q)) (data q') = take (Z.to_nat (tail q)) (data q) /\
   q_contents q' = q_contents q ++ [50]).
Proof.
  intros q q'.
  assert (Hhyp : head q > tail q /\ janet_q_count q + 1 >= capacity q /\
                 janet_q_push q 50 = Some q').
  { vm_compute. repeat split; discriminate. }
  split; [exact Hhyp|].
  pose proof (janet_q_fifo [Push 10; Push 20; Push 30; Pop; Push 40]) as Hf.
  rewrite (surjective_pairing (q_run _ _)) in Hf.
  destruct Hf as (_ & _ & Hgrow).
  destruct Hhyp as (H1 & H2 & H3).
  exact (Hgrow 50 q' H1 H2 H3).
Defined.

Example janet_q_grow_wrapped_run :
  let q := snd (q_run [Push 10; Push 20; Push 30; Pop; Push 40] janet_q_init) in
  q = mkQ 4 1 0 [10; 20; 30; 40] /\
  janet_q_push q 50 = Some (mkQ 10 7 1 [50; 20; 30; 40; junk; junk; junk; 20; 30; 40]) /\
  fst (q_run [Push 10; Push 20; Push 30; Pop; Push 40; Push 50; Pop; Pop; Pop; Pop; Pop]
         janet_q_init)
  = [Pushed 10; Pushed 20; Pushed 30; Popped 10; Pushed 40; Pushed 50;
     Popped 20; Popped 30; Popped 40; Popped 50; PopFailed].
Proof. vm_compute. repeat split. Qed.

End RingQueueFacts.

Module TimerHeapFacts.
Import TimerHeap.
Local Open Scope nat_scope.

Ltac div_lia := zify; Z.to_euclidean_division_equations; lia.

Implicit Types (a : list JanetTimeout) (t : TimerQueue).

Lemma parent_lt i : 0 < i -> parent i < i.
Proof. unfold parent. intros. div_lia. Qed.

Lemma parent_child i k :
  0 < i -> parent i = k <-> i = k * 2 + 1 \/ i = k * 2 + 1 + 1.
Proof. unfold parent. intros. div_lia. Qed.

Lemma tq_swap_length a i j : length (tq_swap a i j) = length a.
Proof. unfold tq_swap. by rewrite !length_insert. Qed.

Lemma key_swap a i j x :
  i < length a -> j < length a ->
  key (tq_swap a i j) x =
    if decide (x = j) then key a i
    else if decide (x = i) then key a j else key a x.
Proof.
  intros Hi Hj. unfold key, tq_swap.
  destruct (decide (x = j)) as [->|Hxj].
  { by rewrite list_lookup_total_insert_eq by (rewrite length_insert; lia). }
  rewrite list_lookup_total_insert_ne by done.
  destruct (decide (x = i)) as [->|Hxi].
  { by rewrite list_lookup_total_insert_eq by lia. }
  by rewrite list_lookup_total_insert_ne.
Qed.

Lemma tq_swap_take_perm a i j n :
  i < n -> j < n -> n <= length a ->
  take n (tq_swap a i j) ≡ₚ take n a.
Proof.
  intros Hi Hj Hn. unfold tq_swap.
  rewrite !take_insert_lt by lia.
  apply Permutation_insert_swap.
  - rewrite lookup_take_lt by lia. apply list_lookup_lookup_total_lt. lia.
  - rewrite lookup_take_lt by lia. apply list_lookup_lookup_total_lt. lia.
Qed.

(** *** Sifting up *)

Lemma sift_up_S fuel a k :
  sift_up (S fuel) a k =
    if 0 <? k then
      if (key a (parent k) <=? key a k)%Z then Some a
      else sift_up fuel (tq_swap a k (parent k)) (parent k)
    else Some a.
Proof. reflexivity. Qed.

Lemma sift_up_spec fuel : forall a k n,
  k < fuel -> k < n <= length a -> up_inv a n k ->
  exists a', sift_up fuel a k = Some a' /\ length a' = length a /\
             heap_upto a' n /\ take n a' ≡ₚ take n a.
Proof.
  induction fuel as [|fuel IH]; intros a k n Hf Hk [Hne Hch]; [lia|].
  rewrite sift_up_S. destruct (Nat.ltb_spec 0 k) as [Hpos|Hz].
  2:{ exists a. split_and!; try done. intros i Hi. apply Hne; lia. }
  pose proof (parent_lt k Hpos) as Hp.
  destruct (Z.leb_spec (key a (parent k)) (key a k)) as [Hle|Hgt].
  { exists a. split_and!; try done. intros i Hi.
    destruct (decide (i = k)) as [->|]; [done|]. by apply Hne. }
  destruct (IH (tq_swap a k (parent k)) (parent k) n) as (a' & Hs & Hl & Hh & Hperm).
  - lia.
  - rewrite tq_swap_length. lia.
  - split.
    + intros i Hi Hip. rewrite !key_swap by lia.
      pose proof (parent_lt i ltac:(lia)).
      pose proof (Hne i Hi) as Hn1. pose proof (Hch i Hi) as Hc1.
      repeat case_decide; subst; try lia;
        repeat match goal with E : parent i = _ |- _ => rewrite E in * end; lia.
    + intros i Hi Hip Hppos. rewrite !key_swap by lia.
      pose proof (parent_lt (parent k) Hppos).
      pose proof (parent_lt i ltac:(lia)).
      pose proof (Hne (parent k) ltac:(lia)) as Hn0.
      pose proof (Hne i Hi) as Hn1.
      repeat case_decide; subst; try lia;
        repeat match goal with E : parent i = _ |- _ => rewrite E in * end; lia.
  - exists a'. rewrite tq_swap_length in Hl. split_and!; try done.
    rewrite Hperm. apply tq_swap_take_perm; lia.
Qed.

(** *** Sifting down *)

Lemma sift_down_S fuel a n k :
  sift_down (S fuel) a n k =
    if pick a n k =? k then Some a
    else sift_down fuel (tq_swap a k (pick a n k)) n (pick a n k).
Proof. reflexivity. Qed.

Lemma pick_spec a n k :
  (pick a n k = k /\
   forall c, 0 < c < n -> parent c = k -> (key a k <= key a c)%Z) \/
  (k < pick a n k < n /\ parent (pick a n k) = k /\
   (key a (pick a n k) < key a k)%Z /\
   forall c, 0 < c < n -> parent c = k -> (key a (pick a n k) <= key a c)%Z).
Proof.
  unfold pick.
  assert (Hc : forall c, 0 < c -> parent c = k -> c = k * 2 + 1 \/ c = k * 2 + 1 + 1)
    by (intros c ?; by apply parent_child).
  assert (Hl : parent (k * 2 + 1) = k) by (apply parent_child; lia).
  assert (Hr : parent (k * 2 + 1 + 1) = k) by (apply parent_child; lia).
  destruct (Nat.ltb_spec (k * 2 + 1) n);
    destruct (Z.ltb_spec (key a (k * 2 + 1)) (key a k)); simpl;
    destruct (Nat.ltb_spec (k * 2 + 1 + 1) n); simpl;
    try destruct (Z.ltb_spec (key a (k * 2 + 1 + 1)) (key a (k * 2 + 1)));
    try destruct (Z.ltb_spec (key a (k * 2 + 1 + 1)) (key a k));
    first
      [ left; split; [done|]; intros c Hc1 Hc2;
        destruct (Hc c ltac:(lia) Hc2) as [->| ->]; lia
      | right; split_and!; try done; try lia; intros c Hc1 Hc2;
        destruct (Hc c ltac:(lia) Hc2) as [->| ->]; lia ].
Qed.

Lemma sift_down_spec fuel : forall a k n,
  n - k < fuel -> n <= length a -> k < length a -> down_inv a n k ->
  exists a', sift_down fuel a n k = Some a' /\ length a' = length a /\
             heap_upto a' n /\ (k < n -> take n a' ≡ₚ take n a) /\
             (n <= k -> a' = a).
Proof.
  induction fuel as [|fuel IH]; intros a k n Hf Hn Hk [Hne Hch]; [lia|].
  rewrite sift_down_S.
  destruct (pick_spec a n k) as [[Hs Hmin]|(Hs & Hpar & Hlt & Hmin)].
  { rewrite Hs, Nat.eqb_refl. exists a. split_and!; try done.
    intros i Hi. destruct (decide (parent i = k)) as [<-|Hp].
    - by apply Hmin.
    - by apply Hne. }
  set (s := pick a n k) in *. clearbody s.
  destruct (Nat.eqb_spec s k); [lia|].
  destruct (IH (tq_swap a k s) s n) as (a' & Hsd & Hl & Hh & Hperm & _).
  - lia.
  - rewrite tq_swap_length. lia.
  - rewrite tq_swap_length. lia.
  - split.
    + intros i Hi Hip. rewrite !key_swap by lia.
      pose proof (parent_lt i ltac:(lia)).
      pose proof (Hne i Hi) as Hn1. pose proof (Hmin i Hi) as Hm1.
      pose proof (Hch s ltac:(lia) Hpar) as Hc1.
      repeat case_decide; subst; try lia;
        repeat match goal with E : parent i = _ |- _ => rewrite E in * end;
        try lia.
    + intros i Hi Hip Hspos. rewrite !key_swap by lia.
      pose proof (parent_lt i ltac:(lia)).
      pose proof (Hne i Hi) as Hn1.
      repeat case_decide; subst; try lia;
        repeat match goal with E : parent _ = _ |- _ => rewrite E in * end;
        try lia.
  - exists a'. rewrite tq_swap_length in Hl. split_and!; try done; [|lia].
    intros _. rewrite Hperm by lia. apply tq_swap_take_perm; lia.
Qed.

(** *** Both loops leave: the fuel of the model is never used up *)

Lemma sift_up_total fuel : forall a k, k < fuel -> is_Some (sift_up fuel a k).
Proof.
  induction fuel as [|fuel IH]; intros a k Hk; [lia|].
  rewrite sift_up_S. destruct (Nat.ltb_spec 0 k); [|done].
  destruct (_ <=? _)%Z; [done|].
  apply IH. pose proof (parent_lt k). lia.
Qed.

Lemma sift_down_total fuel : forall a n k, n - k < fuel -> is_Some (sift_down fuel a n k).
Proof.
  induction fuel as [|fuel IH]; intros a n k Hk; [lia|].
  rewrite sift_down_S.
  destruct (pick_spec a n k) as [[Hs _]|(Hs & _)].
  - by rewrite Hs, Nat.eqb_refl.
  - destruct (Nat.eqb_spec (pick a n k) k); [done|].
    generalize (tq_swap a k (pick a n k)). intros a'.
    revert Hs. generalize (pick a n k). intros s Hs. apply IH. lia.
Qed.

Lemma is_Some_bind_Some {A B} (x : option A) (f : A -> B) :
  is_Some x -> is_Some (x ≫= fun y => Some (f y)).
Proof. by intros [y ->]. Qed.

Lemma add_timeout_total t to : is_Some (add_timeout t to).
Proof.
  unfold add_timeout.
  destruct (_ <? _); cbv beta iota zeta; apply is_Some_bind_Some, sift_up_total; lia.
Qed.

Lemma pop_timeout_total t index : is_Some (pop_timeout t index).
Proof.
  unfold pop_timeout. destruct (_ <=? _); [done|].
  cbv beta iota zeta. apply is_Some_bind_Some, sift_down_total. lia.
Qed.

(** *** [add_timeout] and [pop_timeout] keep the heap *)

Lemma heap_ok_init : heap_ok tq_init.
Proof. split_and!; simpl; try done. Qed.

Lemma int32_cast_id (n : nat) :
  (Z.of_nat n < 2^31)%Z ->
  Z.to_nat (size_of_int32 (int32_of_size (Z.of_nat n))) = n.
Proof. unfold size_of_int32, int32_of_size. intros. lia. Qed.

Lemma key_insert_ne a i j x : i <> j -> key (<[i := x]> a) j = key a j.
Proof. intros. unfold key. by rewrite list_lookup_total_insert_ne. Qed.

Lemma key_realloc a m i : i < length a -> length a <= m -> key (tq_realloc a m) i = key a i.
Proof.
  intros. unfold key, tq_realloc. rewrite take_ge by lia.
  by rewrite lookup_total_app_l.
Qed.

Lemma add_timeout_spec t to :
  heap_ok t -> (Z.of_nat (janet_vm_tq_count t) + 1 < 2^31)%Z ->
  exists t', add_timeout t to = Some t' /\ heap_ok t' /\
             janet_vm_tq_count t' = S (janet_vm_tq_count t) /\
             tq_live t' ≡ₚ to :: tq_live t.
Proof.
  intros (Hcnt & Hcap & Hheap) Hsmall. unfold add_timeout.
  set (n := janet_vm_tq_count t) in *.
  set (arr := if janet_vm_tq_capacity t <? n + 1
              then (tq_realloc (janet_vm_tq t) (2 * (n + 1)), 2 * (n + 1))
              else (janet_vm_tq t, janet_vm_tq_capacity t)).
  assert (Harr : length arr.1 = arr.2 /\ n + 1 <= length arr.1 /\
                 take n arr.1 = take n (janet_vm_tq t) /\
                 forall i, i < n -> key arr.1 i = key (janet_vm_tq t) i).
  { unfold arr. destruct (Nat.ltb_spec (janet_vm_tq_capacity t) (n + 1)); simpl.
    - unfold tq_realloc at 1 2. rewrite length_app, length_take, length_replicate.
      split_and!; try lia.
      + unfold tq_realloc. rewrite (take_ge (janet_vm_tq t)) by lia.
        by rewrite take_app_le by lia.
      + intros i Hi. apply key_realloc; lia.
    - split_and!; try done; lia. }
  destruct arr as [a1 cap]. simpl in Harr. destruct Harr as (Hl1 & Hn1 & Htk & Hkey).
  rewrite int32_cast_id by lia.
  destruct (sift_up_spec (S n) (<[n := to]> a1) n (n + 1)) as (a' & Hs & Hl & Hh & Hperm).
  - lia.
  - rewrite length_insert. lia.
  - split.
    + intros i Hi Hin. pose proof (parent_lt i ltac:(lia)).
      rewrite !key_insert_ne by lia. rewrite !Hkey by lia.
      apply Hheap. lia.
    + intros i Hi Hp. apply parent_child in Hp; lia.
  - rewrite Hs. simpl. eexists; split; [done|].
    rewrite length_insert in Hl.
    split_and!; simpl; try lia.
    + split_and!; simpl; try done; lia.
    + unfold tq_live; simpl. fold n. rewrite Hperm.
      replace (n + 1) with (S n) by lia.
      rewrite (take_S_r _ _ to) by (apply list_lookup_insert_eq; lia).
      rewrite take_insert_ge, Htk by lia.
      by rewrite Permutation_app_comm.
Qed.

Lemma pop_timeout_empty t : janet_vm_tq_count t = 0 -> pop_timeout t 0 = Some t.
Proof. intros Hz. unfold pop_timeout. by rewrite Hz. Qed.

Lemma pop_timeout_spec t :
  heap_ok t -> 0 < janet_vm_tq_count t ->
  exists t', pop_timeout t 0 = Some t' /\ heap_ok t' /\
             S (janet_vm_tq_count t') = janet_vm_tq_count t /\
             tq_live t ≡ₚ (janet_vm_tq t !!! 0) :: tq_live t'.
Proof.
  intros (Hcnt & Hcap & Hheap) Hpos. unfold pop_timeout.
  destruct (Nat.leb_spec (janet_vm_tq_count t) 0); [lia|].
  set (a := janet_vm_tq t) in *.
  destruct (janet_vm_tq_count t) as [|m] eqn:En; [lia|].
  replace (S m - 1) with m by lia.
  destruct (sift_down_spec (S m) (<[0 := a !!! m]> a) 0 m)
    as (a' & Hs & Hl & Hh & Hperm & Hsame).
  - lia.
  - rewrite length_insert. lia.
  - rewrite length_insert. lia.
  - split; [|lia].
    intros i Hi Hp. pose proof (parent_lt i ltac:(lia)).
    rewrite !key_insert_ne by lia. apply Hheap. lia.
  - rewrite Hs. simpl. eexists; split; [done|].
    rewrite length_insert in Hl.
    split_and!; simpl; try done; try lia.
    { split_and!; simpl; try done; lia. }
    unfold tq_live; simpl. rewrite En. fold a.
    assert (Hm : a !! m = Some (a !!! m)) by (apply list_lookup_lookup_total_lt; lia).
    rewrite (take_S_r _ _ _ Hm).
    destruct m as [|m'].
    + by rewrite !take_0.
    + rewrite Hperm by lia.
      generalize (a !!! S m'). intros y.
      destruct a as [|x a0]; [simpl in Hcnt; lia|]. simpl.
      apply perm_skip. by rewrite <- Permutation_cons_append.
Qed.

(** The root of a heap is a minimum of its live entries. *)
Lemma root_min a n i : heap_upto a n -> i < n -> (key a 0 <= key a i)%Z.
Proof.
  intros Hh. induction (lt_wf i) as [i _ IH]. intros Hi.
  destruct (decide (i = 0)) as [->|]; [lia|].
  pose proof (parent_lt i ltac:(lia)).
  trans (key a (parent i)); [apply IH; lia | apply Hh; lia].
Qed.

Lemma root_min_live t x :
  heap_ok t -> x ∈ tq_live t -> (key (janet_vm_tq t) 0 <= when x)%Z.
Proof.
  intros (Hcnt & Hcap & Hheap) Hx. unfold tq_live in Hx.
  apply list_elem_of_lookup in Hx as [i Hi].
  apply lookup_take_Some in Hi as [Hi Hlt].
  apply list_lookup_total_correct in Hi. subst x.
  by apply (root_min _ _ i Hheap).
Qed.

(** Draining a heap yields its live entries in non-decreasing [when]
    order. *)
Lemma drain_sorted n : forall t,
  heap_ok t ->
  exists l, drain n t = Some l /\ StronglySorted when_le l /\
            l ⊆ tq_live t /\
            (janet_vm_tq_count t <= n -> l ≡ₚ tq_live t).
Proof.
  induction n as [|n IH]; intros t Hok; simpl.
  { exists []. split_and!; try done; [constructor|by intros ? ?%elem_of_nil|].
    intros Hz. unfold tq_live. replace (janet_vm_tq_count t) with 0 by lia.
    by rewrite take_0. }
  unfold peek_timeout.
  destruct (Nat.eqb_spec (janet_vm_tq_count t) 0) as [Hz|Hnz].
  { exists []. split_and!; try done; [constructor|by intros ? ?%elem_of_nil|].
    intros _. unfold tq_live. by rewrite Hz, take_0. }
  destruct (pop_timeout_spec t Hok ltac:(lia)) as (t' & Hpop & Hok' & Hcnt & Hperm).
  destruct (IH t' Hok') as (l & Hd & Hsorted & Hsub & Hall).
  rewrite Hpop. simpl. rewrite Hd. simpl.
  eexists; split; [done|].
  assert (Hsub' : l ⊆ tq_live t).
  { intros x Hx. rewrite Hperm. right. by apply Hsub. }
  split_and!.
  - constructor; [done|]. apply Forall_forall. intros x Hx.
    apply root_min_live; [done|]. by apply Hsub'.
  - intros x [->|Hx]%elem_of_cons; [|by apply Hsub'].
    rewrite Hperm. by left.
  - intros Hle. rewrite Hperm, Hall by lia. done.
Qed.

(** Any sequence of [add_timeout] and [pop_timeout(0)] calls that keeps the
    count inside the range of the [int32_t] cast runs to completion and
    leaves a heap. *)
Lemma tq_run_heap ops : forall t,
  heap_ok t ->
  (Z.of_nat (janet_vm_tq_count t) + Z.of_nat (length ops) < 2^31)%Z ->
  exists t', tq_run ops t = Some t' /\ heap_ok t'.
Proof.
  induction ops as [|[to|] ops IH]; intros t Hok Hsmall; simpl in *.
  - by exists t.
  - destruct (add_timeout_spec t to Hok ltac:(lia)) as (t1 & Ha & Hok1 & Hc1 & _).
    rewrite Ha. simpl. apply IH; [done|lia].
  - destruct (decide (janet_vm_tq_count t = 0)) as [Hz|Hnz].
    + rewrite pop_timeout_empty by done. simpl. apply IH; [done|lia].
    + destruct (pop_timeout_spec t Hok ltac:(lia)) as (t1 & Hp & Hok1 & Hc1 & _).
      rewrite Hp. simpl. apply IH; [done|lia].
Qed.

(** C7 (amended).  Whatever sequence of [add_timeout] and
    [pop_timeout(0)] calls built the heap (fewer than [2^31] of them, the
    range of the [int32_t] cast in [add_timeout]), the calls all return,
    and successive removals of the minimum then return too and yield
    entries of the heap with non-decreasing [when]; when the heap is
    drained completely they are exactly its live entries.  Nothing is
    promised about the order of entries with equal [when]. *)
Theorem timer_heap_order (ops : list tq_op) (n : nat) :
  (Z.of_nat (length ops) < 2^31)%Z ->
  exists t l,
    tq_run ops tq_init = Some t /\
    drain n t = Some l /\
    StronglySorted when_le l /\
    l ⊆ tq_live t /\
    (janet_vm_tq_count t <= n -> l ≡ₚ tq_live t).
Proof.
  intros Hlen.
  destruct (tq_run_heap ops tq_init heap_ok_init) as (t & Hrun & Hok);
    [simpl; lia|].
  destruct (drain_sorted n t Hok) as (l & Hd & Hs & Hsub & Hall).
  by exists t, l.
Qed.

Lemma timer_heap_order_witness :
  let ops := [Add (mkTimeout 30 1 0 false); Add (mkTimeout 10 2 0 true);
              Add (mkTimeout 20 3 0 false); PopMin;
              Add (mkTimeout 5 4 0 false); Add (mkTimeout 20 5 0 true)] in
  (Z.of_nat (length ops) < 2^31)%Z /\
  exists t l,
    tq_run ops tq_init = Some t /\
    drain 9 t = Some l /\
    StronglySorted when_le l /\
    l ⊆ tq_live t /\
    (janet_vm_tq_count t <= 9 -> l ≡ₚ tq_live t).
Proof.
  intros ops.
  assert (Hlen : (Z.of_nat (length ops) < 2^31)%Z) by (vm_compute; reflexivity).
  split; [exact Hlen|].
  exact (timer_heap_order ops 9 Hlen).
Defined.

Example timer_heap_order_run :
  (tq_run [Add (mkTimeout 30 1 0 false); Add (mkTimeout 10 2 0 true);
           Add (mkTimeout 20 3 0 false); PopMin;
           Add (mkTimeout 5 4 0 false); Add (mkTimeout 20 5 0 true)] tq_init
   ≫= drain 9)
  = Some [mkTimeout 5 4 0 false; mkTimeout 20 5 0 true;
          mkTimeout 20 3 0 false; mkTimeout 30 1 0 false].
Proof. vm_compute. reflexivity. Qed.

(** C7 as stated fails on ties.  Three timeouts with the same [when] are
    inserted in the order [a], [b], [c]; the heap array is [a; b; c].  The
    first [pop_timeout(0)] moves the last cell [c] to the root, where it
    stays (its only child [b] is not smaller), so the removals yield [a],
    then [c], then [b]: [c] comes out before [b], which was inserted
    first. *)
Lemma timer_heap_ties_counterexample :
  let a := mkTimeout 5 1 0 false in
  let b := mkTimeout 5 2 0 false in
  let c := mkTimeout 5 3 0 false in
  when a = when b /\ when b = when c /\
  (tq_run [Add a; Add b; Add c] tq_init ≫= drain 3) = Some [a; c; b] /\
  (tq_run [Add a; Add b; Add c] tq_init ≫= drain 3) <> Some [a; b; c].
Proof. vm_compute. split_and!; try reflexivity. discriminate. Qed.

End TimerHeapFacts.

Module SchedulerFacts.
Import RingQueue RingQueueFacts Ev.

(** *** Flag arithmetic *)

Lemma has_bits_true x m : has_bits x m = true <-> Z.land x m <> 0.
Proof. unfold has_bits. destruct (Z.eqb_spec (Z.land x m) 0); naive_solver. Qed.

Lemma has_bits_false x m : has_bits x m = false <-> Z.land x m = 0.
Proof. unfold has_bits. destruct (Z.eqb_spec (Z.land x m) 0); naive_solver. Qed.

Lemma has_bits_set x m : m <> 0 -> has_bits (Z.lor x m) m = true.
Proof.
  intros Hm. apply has_bits_true.
  replace (Z.land (Z.lor x m) m) with m; [done|].
  apply Z.bits_inj'. intros n Hn.
  rewrite Z.land_spec, Z.lor_spec. by destruct (Z.testbit x n), (Z.testbit m n).
Qed.

Lemma has_bits_clear x m : has_bits (Z.land x (Z.lnot m)) m = false.
Proof.
  apply has_bits_false. apply Z.bits_inj'. intros n Hn.
  rewrite !Z.land_spec, Z.lnot_spec, Z.bits_0 by done.
  by destruct (Z.testbit x n), (Z.testbit m n).
Qed.

Lemma scheduled_nonzero : JANET_FIBER_FLAG_SCHEDULED <> 0.
Proof. done. Qed.

Lemma spawner_nonzero : JANET_ASYNC_LISTEN_SPAWNER <> 0.
Proof. done. Qed.

Lemma janet_schedule_signal_noop vm fiber value sig :
  scheduled vm fiber -> janet_schedule_signal vm fiber value sig = vm.
Proof. unfold janet_schedule_signal, scheduled. by intros ->. Qed.

(** A cancellation of a fiber that is on the run queue leaves no trace. *)
Example janet_cancel_after_schedule :
  let vm := janet_cancel (janet_schedule vm_init 1 (JNumber 7)) 1 (JString "late") in
  q_contents (janet_vm_spawn vm) = [mkTask 1 (JNumber 7) JANET_SIGNAL_OK] /\
  sched_id (fibers vm 1) = 1.
Proof. vm_compute. done. Qed.

(** *** The run queue invariant *)

Lemma q_push_ignore_spec {A} `{Inhabited A} (q : JanetQueue A) x :
  q_wf q ->
  q_wf (q_push_ignore q x) /\
  (janet_q_count q + 1 < JANET_MAX_Q_CAPACITY ->
     q_contents (q_push_ignore q x) = q_contents q ++ [x]) /\
  (JANET_MAX_Q_CAPACITY <= janet_q_count q + 1 -> q_push_ignore q x = q).
Proof.
  intros Hwf. unfold q_push_ignore.
  pose proof (janet_q_push_spec q x Hwf) as Hp.
  destruct (janet_q_push q x) as [q'|].
  - destruct Hp as (Hc & Hwf' & Hcont). split_and!; [done|done|lia].
  - split_and!; [done|lia|done].
Qed.

Lemma spawn_inv_ext vm vm' :
  janet_vm_spawn vm' = janet_vm_spawn vm ->
  (forall f, flags (fibers vm' f) = flags (fibers vm f)) ->
  spawn_inv vm -> spawn_inv vm'.
Proof.
  intros Hq Hf (Hwf & Hnd & Hs). unfold spawn_inv, scheduled. rewrite Hq.
  split_and!; try done. intros t Ht. rewrite Hf. by apply Hs.
Qed.

Lemma scheduled_not_queued vm fiber :
  spawn_inv vm -> ~ scheduled vm fiber ->
  fiber ∉ (task_fiber <$> q_contents (janet_vm_spawn vm)).
Proof.
  intros (_ & _ & Hs) Hn [t [-> Ht]]%list_elem_of_fmap. by apply Hn, Hs.
Qed.

Lemma janet_schedule_signal_fresh vm fiber value sig :
  ~ scheduled vm fiber ->
  janet_schedule_signal vm fiber value sig =
    mkVM (<[fiber := mkFiber (Z.lor (flags (fibers vm fiber)) JANET_FIBER_FLAG_SCHEDULED)
                             (wrap32 (sched_id (fibers vm fiber) + 1))
                             (waiting (fibers vm fiber))]> (fibers vm))
         (channels vm) (pollables vm)
         (q_push_ignore (janet_vm_spawn vm) (mkTask fiber value sig))
         (janet_vm_root_fiber vm) (janet_vm_active_listeners vm).
Proof.
  unfold scheduled, janet_schedule_signal. intros Hn.
  by destruct (has_bits _ _).
Qed.

Lemma janet_schedule_signal_sets_flag vm fiber value sig :
  scheduled (janet_schedule_signal vm fiber value sig) fiber.
Proof.
  unfold scheduled, janet_schedule_signal.
  destruct (has_bits (flags (fibers vm fiber)) JANET_FIBER_FLAG_SCHEDULED) eqn:E; [done|].
  cbn [fibers]. rewrite fn_lookup_insert. cbn [flags].
  apply has_bits_set, scheduled_nonzero.
Qed.

Lemma spawn_inv_schedule vm fiber value sig :
  spawn_inv vm -> spawn_inv (janet_schedule_signal vm fiber value sig).
Proof.
  intros Hinv.
  destruct (decide (has_bits (flags (fibers vm fiber)) JANET_FIBER_FLAG_SCHEDULED = true))
    as [Hs|Hn].
  { by rewrite janet_schedule_signal_noop. }
  rewrite janet_schedule_signal_fresh by done.
  pose proof (scheduled_not_queued vm fiber Hinv Hn) as Hnq.
  destruct Hinv as (Hwf & Hnd & Hall).
  destruct (q_push_ignore_spec (janet_vm_spawn vm) (mkTask fiber value sig) Hwf)
    as (Hwf' & Happ & Hsame).
  assert (Hold : forall t, t ∈ q_contents (janet_vm_spawn vm) ->
            has_bits (flags (<[fiber := mkFiber
                (Z.lor (flags (fibers vm fiber)) JANET_FIBER_FLAG_SCHEDULED)
                (wrap32 (sched_id (fibers vm fiber) + 1))
                (waiting (fibers vm fiber))]> (fibers vm) (task_fiber t)))
              JANET_FIBER_FLAG_SCHEDULED = true).
  { intros t Ht. destruct (decide (fiber = task_fiber t)) as [<-|Hne].
    - rewrite fn_lookup_insert. simpl. apply has_bits_set, scheduled_nonzero.
    - rewrite fn_lookup_insert_ne by done. by apply Hall. }
  unfold spawn_inv, scheduled; simpl. split; [done|].
  destruct (Z_lt_le_dec (janet_q_count (janet_vm_spawn vm) + 1) JANET_MAX_Q_CAPACITY)
    as [Hroom|Hfull].
  - rewrite Happ by done. split.
    + rewrite fmap_app. simpl. apply NoDup_app. split_and!; [done| |apply NoDup_singleton].
      intros x Hx ->%list_elem_of_singleton. done.
    + intros t [Ht| ->%list_elem_of_singleton]%elem_of_app; [by apply Hold|].
      simpl. rewrite fn_lookup_insert. simpl. apply has_bits_set, scheduled_nonzero.
  - rewrite Hsame by done. split; [done|]. exact Hold.
Qed.

Lemma spawn_inv_dequeue vm task q :
  spawn_inv vm ->
  janet_q_pop (janet_vm_spawn vm) = Some (task, q) ->
  spawn_inv (run_one_enter (with_spawn vm q) (task_fiber task)) /\
  ~ scheduled (run_one_enter (with_spawn vm q) (task_fiber task)) (task_fiber task).
Proof.
  intros (Hwf & Hnd & Hall) Hpop.
  pose proof (janet_q_pop_spec (janet_vm_spawn vm) Hwf) as Hp. rewrite Hpop in Hp.
  destruct Hp as [Hc Hwf']. rewrite Hc in Hnd, Hall. simpl in Hnd.
  apply NoDup_cons in Hnd as [Hnotin Hnd'].
  unfold spawn_inv, scheduled, run_one_enter; simpl. split.
  - split_and!; try done. intros t Ht.
    destruct (decide (task_fiber task = task_fiber t)) as [Heq|Hne].
    + exfalso. apply Hnotin. rewrite Heq. apply list_elem_of_fmap. eauto.
    + rewrite fn_lookup_insert_ne by done. apply Hall. by right.
  - rewrite fn_lookup_insert. simpl. rewrite has_bits_clear. done.
Qed.

End SchedulerFacts.

Module PollableFacts.
Import RingQueue RingQueueFacts Ev SchedulerFacts.

(** Bitwise reasoning on masks: compare two masks bit by bit, with every
    mask equation of the context read at the same bit. *)
Ltac bitwise :=
  let n := fresh "n" in
  let Hn := fresh "Hn" in
  apply Z.bits_inj'; intros n Hn;
  repeat match goal with
         | H : @eq Z _ _ |- _ =>
             apply (f_equal (fun z => Z.testbit z n)) in H
         end;
  unfold event_bits in *;
  repeat (rewrite ?Z.land_spec, ?Z.lor_spec, ?Z.ldiff_spec, ?Z.bits_0 in *;
          try rewrite Z.lnot_spec in * by done);
  repeat match goal with
         | |- context [Z.testbit ?x n] => destruct (Z.testbit x n)
         | H : context [Z.testbit ?x n] |- _ => destruct (Z.testbit x n)
         end;
  simpl in *; congruence.

Lemma mask_or_app l1 l2 : mask_or (l1 ++ l2) = Z.lor (mask_or l1) (mask_or l2).
Proof.
  induction l1 as [|s l1 IH]; simpl; [done|].
  rewrite IH. by rewrite Z.lor_assoc.
Qed.

Lemma lor_spawner m :
  Z.land (Z.lor m JANET_ASYNC_LISTEN_SPAWNER) JANET_ASYNC_LISTEN_SPAWNER
  = JANET_ASYNC_LISTEN_SPAWNER.
Proof. generalize JANET_ASYNC_LISTEN_SPAWNER. intros sp. bitwise. Qed.

Lemma listen_mask_exact pm mo m :
  event_bits pm = event_bits mo ->
  Z.lor pm (Z.lor m JANET_ASYNC_LISTEN_SPAWNER)
  = Z.lor (Z.lor m JANET_ASYNC_LISTEN_SPAWNER) mo.
Proof. unfold event_bits. generalize JANET_ASYNC_LISTEN_SPAWNER. intros sp H. bitwise. Qed.

Lemma listen_mask_disjoint pm mo m :
  event_bits pm = event_bits mo -> Z.land pm m = 0 ->
  Z.land (event_bits (Z.lor m JANET_ASYNC_LISTEN_SPAWNER)) mo = 0.
Proof. unfold event_bits. generalize JANET_ASYNC_LISTEN_SPAWNER. intros sp H1 H2. bitwise. Qed.

Lemma unlisten_mask pm m mo1 mo2 :
  event_bits pm = event_bits (Z.lor mo1 (Z.lor m mo2)) ->
  Z.land (event_bits m) (Z.lor mo1 mo2) = 0 ->
  Z.land m JANET_ASYNC_LISTEN_SPAWNER = JANET_ASYNC_LISTEN_SPAWNER ->
  Z.land pm (Z.lnot m) = event_bits (Z.lor mo1 mo2).
Proof. unfold event_bits. generalize JANET_ASYNC_LISTEN_SPAWNER. intros sp H1 H2 H3. bitwise. Qed.

Lemma disjoint_drop_middle sp mx ms m1 m2 :
  Z.land (Z.ldiff mx sp) (Z.lor m1 (Z.lor ms m2)) = 0 ->
  Z.land (Z.ldiff mx sp) (Z.lor m1 m2) = 0.
Proof. intros H. bitwise. Qed.

Lemma disjoint_add_front sp mx ms m1 m2 :
  Z.land (Z.ldiff mx sp) (Z.lor m1 (Z.lor ms m2)) = 0 ->
  Z.land (Z.ldiff ms sp) (Z.lor m1 m2) = 0 ->
  Z.land (Z.ldiff ms sp) (Z.lor mx (Z.lor m1 m2)) = 0.
Proof. intros H1 H2. bitwise. Qed.

Lemma masks_disjoint_remove l1 s l2 :
  masks_disjoint (l1 ++ s :: l2) ->
  masks_disjoint (l1 ++ l2) /\
  Z.land (event_bits (state_mask s)) (mask_or (l1 ++ l2)) = 0.
Proof.
  induction l1 as [|x l1 IH]; simpl.
  - intros [H1 H2]. done.
  - intros [H1 H2]. destruct (IH H2) as [IH1 IH2].
    rewrite mask_or_app in *. simpl in H1. unfold event_bits in *.
    split_and!; [|done|].
    + by eapply disjoint_drop_middle.
    + by eapply disjoint_add_front.
Qed.

(** *** Unlinking a listener *)

Lemma unlink_listener_spec l st :
  NoDup (state_addr <$> l) -> st ∈ l ->
  exists l1 l2, l = l1 ++ st :: l2 /\
    unlink_listener (state_addr st) l = Some (l1 ++ l2) /\
    forall s, s ∈ l1 ++ l2 -> state_addr s <> state_addr st.
Proof.
  induction l as [|x l IH]; intros Hnd Hin; [by apply elem_of_nil in Hin|].
  simpl in Hnd. apply NoDup_cons in Hnd as [Hx Hnd].
  apply elem_of_cons in Hin as [->|Hin]; simpl.
  - exists [], l. rewrite Nat.eqb_refl. split_and!; try done.
    intros s Hs Heq. apply Hx. rewrite <- Heq. apply list_elem_of_fmap. eauto.
  - destruct (IH Hnd Hin) as (l1 & l2 & -> & Hun & Hne).
    destruct (Nat.eqb_spec (state_addr x) (state_addr st)) as [Heq|Hneq].
    { exfalso. apply Hx. rewrite Heq. apply list_elem_of_fmap. eauto. }
    exists (x :: l1), l2. rewrite Hun. split_and!; try done.
    intros s [->|Hs]%elem_of_cons; [done|by apply Hne].
Qed.

Lemma poll_inv_ext vm vm' :
  pollables vm' = pollables vm ->
  (forall f, waiting (fibers vm' f) = waiting (fibers vm f)) ->
  poll_inv vm -> poll_inv vm'.
Proof.
  intros Hp Hw (H1 & H2 & H3 & H4 & H5).
  unfold poll_inv, listening. rewrite Hp. split_and!; try done.
  intros f st. rewrite Hw. apply H4.
Qed.

(** What a successful [janet_listen_impl] builds. *)
Lemma janet_listen_impl_ok vm pollable mask state vm' st :
  janet_listen_impl vm pollable mask state = (vm', Return st) ->
  let p := pollables vm pollable in
  let root := janet_vm_root_fiber vm in
  Z.land (pollable_mask p) mask = 0 /\
  waiting (fibers vm root) = None /\
  st = mkState state
         (if has_bits mask JANET_ASYNC_LISTEN_SPAWNER then None else Some root)
         pollable (Z.lor mask JANET_ASYNC_LISTEN_SPAWNER) /\
  pollables vm' = <[pollable := mkPollable (pollable_flags p) (st :: pollable_state p)
                      (Z.lor (pollable_mask p) (state_mask st))]> (pollables vm) /\
  fibers vm' =
    (if has_bits mask JANET_ASYNC_LISTEN_SPAWNER then fibers vm
     else <[root := mkFiber (flags (fibers vm root)) (sched_id (fibers vm root))
                            (Some st)]> (fibers vm)) /\
  janet_vm_spawn vm' = janet_vm_spawn vm /\
  channels vm' = channels vm /\
  janet_vm_active_listeners vm' = wrap64 (janet_vm_active_listeners vm + 1).
Proof.
  unfold janet_listen_impl. intros Heq.
  destruct (has_bits (pollable_mask _) mask) eqn:Hdup; [done|].
  apply has_bits_false in Hdup.
  destruct (bool_decide _) eqn:Hw; [done|].
  apply bool_decide_eq_false in Hw.
  assert (waiting (fibers vm (janet_vm_root_fiber vm)) = None) as Hnone
    by (destruct (waiting _); [by destruct Hw|done]).
  injection Heq as <- <-. simpl. split_and!; done.
Qed.

Lemma poll_inv_listen vm pollable mask state vm' st :
  poll_inv vm ->
  (forall p s, s ∈ pollable_state (pollables vm p) -> state_addr s <> state) ->
  janet_listen_impl vm pollable mask state = (vm', Return st) ->
  poll_inv vm' /\
  pollable_mask (pollables vm' pollable)
    = mask_or (pollable_state (pollables vm' pollable)).
Proof.
  intros (H1 & H2 & H3 & H4 & H5) Hfresh Hl.
  apply janet_listen_impl_ok in Hl
    as (Hdup & Hnone & Hst & Hp & Hf & _ & _ & _).
  assert (Haddr : state_addr st = state) by (by rewrite Hst).
  assert (Hpoll : state_pollable st = pollable) by (by rewrite Hst).
  assert (Hmask : state_mask st = Z.lor mask JANET_ASYNC_LISTEN_SPAWNER)
    by (by rewrite Hst).
  assert (Hin : forall p s, s ∈ pollable_state (pollables vm' p) ->
            (p = pollable /\ s = st) \/ s ∈ pollable_state (pollables vm p)).
  { intros p s. rewrite Hp. destruct (decide (pollable = p)) as [->|Hne].
    - rewrite fn_lookup_insert. simpl. intros [->|?]%elem_of_cons; eauto.
    - rewrite fn_lookup_insert_ne by done. eauto. }
  assert (Hmono : forall p s, s ∈ pollable_state (pollables vm p) ->
            s ∈ pollable_state (pollables vm' p)).
  { intros p s Hs. rewrite Hp. destruct (decide (pollable = p)) as [->|Hne].
    - rewrite fn_lookup_insert. simpl. by right.
    - by rewrite fn_lookup_insert_ne. }
  destruct (H5 pollable) as [Hev Hdis].
  split; [unfold poll_inv; split_and!|].
  - intros p. rewrite Hp. destruct (decide (pollable = p)) as [->|Hne].
    + rewrite fn_lookup_insert. simpl. apply NoDup_cons. split; [|done].
      intros [s [Hs1 Hs2]]%list_elem_of_fmap. apply (Hfresh p s Hs2). congruence.
    + rewrite fn_lookup_insert_ne by done. apply H1.
  - intros p1 p2 s1 s2 Hs1 Hs2 Heq.
    destruct (Hin _ _ Hs1) as [[-> ->]|Hs1'], (Hin _ _ Hs2) as [[-> ->]|Hs2'].
    + done.
    + exfalso. apply (Hfresh _ _ Hs2'). congruence.
    + exfalso. apply (Hfresh _ _ Hs1'). congruence.
    + by eapply H2.
  - intros p s Hs. destruct (Hin _ _ Hs) as [[-> ->]|Hs'].
    + split; [done|]. rewrite Hmask. apply lor_spawner.
    + by apply H3.
  - intros f s. rewrite Hf. unfold listening.
    destruct (has_bits mask JANET_ASYNC_LISTEN_SPAWNER) eqn:Hsp.
    + intros Hw. destruct (H4 f s Hw) as [Hli Hfi]. split; [|done].
      by apply Hmono.
    + destruct (decide (janet_vm_root_fiber vm = f)) as [<-|Hne].
      * rewrite fn_lookup_insert. simpl. intros [= <-]. split.
        -- rewrite Hpoll, Hp, fn_lookup_insert. simpl. by left.
        -- by rewrite Hst.
      * rewrite fn_lookup_insert_ne by done. intros Hw.
        destruct (H4 f s Hw) as [Hli Hfi]. split; [|done]. by apply Hmono.
  - intros p. rewrite Hp. destruct (decide (pollable = p)) as [->|Hne].
    + rewrite fn_lookup_insert. simpl. rewrite Hmask. split_and!.
      * by rewrite (listen_mask_exact _ _ _ Hev).
      * by apply (listen_mask_disjoint (pollable_mask (pollables vm p))).
      * done.
    + rewrite fn_lookup_insert_ne by done. apply H5.
  - rewrite Hp, fn_lookup_insert. simpl. rewrite Hmask.
    by apply listen_mask_exact.
Qed.

Lemma event_bits_idemp m : event_bits (event_bits m) = event_bits m.
Proof. unfold event_bits. generalize JANET_ASYNC_LISTEN_SPAWNER. intros sp. bitwise. Qed.

Lemma event_bits_keeps sp pm m mo :
  Z.land pm (Z.lnot m) = Z.ldiff mo sp ->
  forall ms, Z.land (Z.ldiff ms sp) (Z.lnot mo) = 0 ->
  Z.land (Z.ldiff ms sp) (Z.land pm (Z.lnot m)) = Z.ldiff ms sp.
Proof. intros H1 ms H2. bitwise. Qed.

Lemma mask_or_covers l s :
  s ∈ l -> Z.land (state_mask s) (Z.lnot (mask_or l)) = 0.
Proof.
  induction l as [|x l IH]; [by intros ?%elem_of_nil|].
  intros [->|Hs]%elem_of_cons; simpl.
  - generalize (state_mask x) (mask_or l). intros a b. bitwise.
  - specialize (IH Hs). revert IH.
    generalize (state_mask x) (state_mask s) (mask_or l). intros a b c IH. bitwise.
Qed.

(** [janet_unlisten_impl] on a linked listener: the [janet_assert] holds,
    the listener leaves its pollable's list, the fiber that waits for it
    stops waiting, and the pollable's mask becomes the OR of the masks that
    remain, without the spawner bit. *)
Lemma poll_inv_unlisten vm st :
  poll_inv vm -> listening vm st ->
  exists vm',
    janet_unlisten_impl vm st = (vm', Return tt) /\
    poll_inv vm' /\
    (let p := pollables vm (state_pollable st) in
     let p' := pollables vm' (state_pollable st) in
     pollable_mask p' = event_bits (mask_or (pollable_state p')) /\
     (forall s, s ∈ pollable_state p' <-> s ∈ pollable_state p /\ s <> st)) /\
    (forall f, waiting (fibers vm f) = Some st -> waiting (fibers vm' f) = None) /\
    (forall f, flags (fibers vm' f) = flags (fibers vm f) /\
               sched_id (fibers vm' f) = sched_id (fibers vm f)) /\
    janet_vm_spawn vm' = janet_vm_spawn vm /\
    channels vm' = channels vm.
Proof.
  intros (H1 & H2 & H3 & H4 & H5) Hli. unfold listening in Hli.
  set (p := state_pollable st) in *.
  destruct (unlink_listener_spec _ st (H1 p) Hli) as (l1 & l2 & Hl & Hun & Hne).
  unfold janet_unlisten_impl. fold p. rewrite Hun.
  eexists; split; [done|]. simpl.
  set (fs' := match state_fiber st with
              | Some fiber => _
              | None => fibers vm
              end).
  assert (Hfs : forall f,
    flags (fs' f) = flags (fibers vm f) /\
    sched_id (fs' f) = sched_id (fibers vm f) /\
    (waiting (fs' f) = waiting (fibers vm f) \/ waiting (fs' f) = None) /\
    (waiting (fs' f) = Some st -> False) /\
    (waiting (fibers vm f) = Some st -> waiting (fs' f) = None)).
  { intros f.
    assert (Hown : waiting (fibers vm f) = Some st -> state_fiber st = Some f)
      by (intros Hw; by destruct (H4 f st Hw)).
    unfold fs'. destruct (state_fiber st) as [g|] eqn:Hg.
    2:{ split_and!; try done; [by left| |]; intros Hw'; specialize (Hown Hw');
        congruence. }
    destruct (waiting (fibers vm g)) as [w|] eqn:Hw.
    2:{ split_and!; try done; [by left| |]; intros Hw'; specialize (Hown Hw');
        congruence. }
    destruct (Nat.eqb_spec (state_addr w) (state_addr st)) as [Heq|Hneq].
    - destruct (decide (g = f)) as [->|Hgf].
      + rewrite fn_lookup_insert. simpl. split_and!; try done. by right.
      + rewrite fn_lookup_insert_ne by done.
        split_and!; try done; [by left| |]; intros Hw'; specialize (Hown Hw');
          congruence.
    - split_and!; try done; [by left| |]; intros Hw'; specialize (Hown Hw');
        assert (g = f) as -> by congruence; congruence. }
  clearbody fs'.
  assert (Hin : forall q s,
            s ∈ pollable_state
                  (<[p := mkPollable (pollable_flags (pollables vm p)) (l1 ++ l2)
                       (Z.land (pollable_mask (pollables vm p)) (Z.lnot (state_mask st)))]>
                     (pollables vm) q) <->
            s ∈ pollable_state (pollables vm q) /\ s <> st).
  { intros q s. destruct (decide (p = q)) as [<-|Hpq].
    - rewrite fn_lookup_insert. simpl. rewrite Hl.
      rewrite !elem_of_app, elem_of_cons. split.
      + intros Hs. split; [tauto|]. intros ->.
        apply (Hne st); [by apply elem_of_app|done].
      + intros [[?|[?|?]] Hneq]; [by left|done|by right].
    - rewrite fn_lookup_insert_ne by done. split; [|tauto].
      intros Hs. split; [done|]. intros ->.
      destruct (H3 q st Hs) as [Hq _]. by apply Hpq. }
  destruct (H5 p) as [Hev Hdis]. rewrite Hl in Hev, Hdis.
  apply masks_disjoint_remove in Hdis as [Hdis' Hdst].
  rewrite mask_or_app in Hev. simpl in Hev. rewrite mask_or_app in Hdst.
  destruct (H3 p st Hli) as [_ Hsp].
  pose proof (unlisten_mask _ _ _ _ Hev Hdst Hsp) as Hmask.
  rewrite <- mask_or_app in Hmask.
  split; [unfold poll_inv, listening; simpl; split_and!|split_and!].
  - intros q. destruct (decide (p = q)) as [<-|Hpq].
    + rewrite fn_lookup_insert. simpl. specialize (H1 p). rewrite Hl in H1.
      rewrite fmap_app, fmap_cons in H1. rewrite fmap_app.
      apply NoDup_app in H1 as (Ha & Hb & Hc).
      apply NoDup_cons in Hc as [Hd He].
      apply NoDup_app. split_and!; try done.
      intros x Hx Hx2. apply (Hb x Hx). by right.
    + rewrite fn_lookup_insert_ne by done. apply H1.
  - intros p1 p2 s1 s2 [Hs1 _]%Hin [Hs2 _]%Hin. by eapply H2.
  - intros q s [Hs _]%Hin. by apply H3.
  - intros f s Hw. destruct (Hfs f) as (_ & _ & [Hsame|Hnone] & Hnot & _);
      [|congruence].
    rewrite Hsame in Hw. destruct (H4 f s Hw) as [Hls Hfi]. split; [|done].
    apply Hin. split; [done|]. intros ->. apply Hnot. congruence.
  - intros q. destruct (decide (p = q)) as [<-|Hpq].
    + rewrite fn_lookup_insert. simpl. rewrite Hmask, event_bits_idemp. done.
    + rewrite fn_lookup_insert_ne by done. apply H5.
  - rewrite fn_lookup_insert. simpl. done.
  - intros s. rewrite <- Hin. done.
  - intros f Hw. by apply Hfs.
  - intros f. split; by apply Hfs.
  - done.
  - done.
Qed.

End PollableFacts.

Module ChannelFacts.
Import RingQueue RingQueueFacts Ev SchedulerFacts PollableFacts.

Lemma pop_reader_spec fuel fs : forall q,
  q_wf q -> (length (q_contents q) < fuel)%nat ->
  exists q', pop_reader fuel fs q
               = Some (q', hd_error (skip_stale fs (q_contents q))) /\
             q_wf q' /\
             q_contents q' = tl (skip_stale fs (q_contents q)).
Proof.
  induction fuel as [|fuel IH]; intros q Hwf Hlen; [lia|].
  simpl. pose proof (janet_q_pop_spec q Hwf) as Hp.
  destruct (janet_q_pop q) as [[r q1]|].
  - destruct Hp as [Hc Hwf1]. rewrite Hc in *. simpl in *. fold (is_stale fs r).
    destruct (is_stale fs r).
    + apply IH; [done|lia].
    + exists q1. done.
  - rewrite Hp. exists q. simpl. by rewrite Hp.
Qed.

(** The reader loop of [janet_channel_push] always leaves: the fuel the
    model gives it is enough. *)
Lemma pop_reader_total fs q :
  q_wf q ->
  exists q', pop_reader (S (Z.to_nat (janet_q_count q))) fs q
               = Some (q', hd_error (skip_stale fs (q_contents q))) /\
             q_wf q' /\
             q_contents q' = tl (skip_stale fs (q_contents q)).
Proof.
  intros Hwf. apply pop_reader_spec; [done|].
  rewrite (janet_q_count_contents q Hwf). lia.
Qed.

Lemma skip_stale_length fs l : (length (skip_stale fs l) <= length l)%nat.
Proof. induction l as [|p l IH]; simpl; [lia|]. destruct (is_stale fs p); simpl; lia. Qed.

Lemma janet_schedule_signal_frame vm fiber value sig :
  let vm' := janet_schedule_signal vm fiber value sig in
  channels vm' = channels vm /\ pollables vm' = pollables vm /\
  janet_vm_root_fiber vm' = janet_vm_root_fiber vm /\
  janet_vm_active_listeners vm' = janet_vm_active_listeners vm /\
  (forall g, waiting (fibers vm' g) = waiting (fibers vm g)) /\
  (forall g, g <> fiber -> fibers vm' g = fibers vm g).
Proof.
  unfold janet_schedule_signal. destruct (has_bits _ _); simpl; [done|].
  split_and!; try done.
  - intros g. destruct (decide (fiber = g)) as [->|Hne].
    + by rewrite fn_lookup_insert.
    + by rewrite fn_lookup_insert_ne.
  - intros g Hne. by rewrite fn_lookup_insert_ne.
Qed.

(** The full behaviour of [janet_channel_push] on a channel that satisfies
    [chan_inv]. *)
Lemma janet_channel_push_spec vm channel x is_choice :
  let c := channels vm channel in
  let live := skip_stale (fibers vm) (q_contents (read_pending c)) in
  chan_inv c ->
  exists rp, q_wf rp /\ q_contents rp = tl live /\
    (forall r, hd_error live = Some r ->
       janet_channel_push vm channel x is_choice
       = Some (janet_schedule (put_channel vm channel (with_read_pending c rp))
                 (pending_fiber r) (reader_value channel x r), Return 0)) /\
    (hd_error live = None ->
     JANET_MAX_Q_CAPACITY <= janet_q_count (items c) + 1 ->
       janet_channel_push vm channel x is_choice
       = Some (put_channel vm channel (with_read_pending c rp),
               Panicked "channel overflow: %v")) /\
    (hd_error live = None ->
     janet_q_count (items c) + 1 < JANET_MAX_Q_CAPACITY ->
     exists it, q_wf it /\ q_contents it = q_contents (items c) ++ [x] /\
       janet_q_count it = janet_q_count (items c) + 1 /\
       (janet_q_count it > limit c ->
        exists wp, q_wf wp /\
          q_contents wp = q_contents (write_pending c) ++ [pending_of vm is_choice false] /\
          janet_channel_push vm channel x is_choice
          = Some (put_channel vm channel (mkChannel it rp wp (limit c)), Return 1)) /\
       (janet_q_count it <= limit c ->
          janet_channel_push vm channel x is_choice
          = Some (put_channel vm channel (mkChannel it rp (write_pending c) (limit c)),
                  Return 0))).
Proof.
  intros c live (Hwi & Hwr & Hww & Hlim & Hwc & Hover).
  destruct (pop_reader_total (fibers vm) (read_pending c) Hwr) as (rp & Hpop & Hwrp & Hcrp).
  exists rp. split; [done|]. split; [done|].
  unfold janet_channel_push. fold c. rewrite Hpop. simpl. fold live.
  split_and!.
  - intros r ->. unfold reader_value. by destruct (pending_mode r).
  - intros -> Hfull.
    pose proof (janet_q_push_spec (items c) x Hwi) as Hp.
    destruct (janet_q_push (items c) x); [lia|done].
  - intros -> Hroom.
    pose proof (janet_q_push_spec (items c) x Hwi) as Hp.
    destruct (janet_q_push (items c) x) as [it|]; [|lia].
    destruct Hp as (_ & Hwit & Hcit).
    exists it. split; [done|]. split; [done|].
    assert (Hcnt : janet_q_count it = janet_q_count (items c) + 1).
    { rewrite (janet_q_count_contents it Hwit), (janet_q_count_contents _ Hwi), Hcit.
      rewrite length_app. simpl. lia. }
    split; [done|]. split.
    + intros Hgt. destruct (Z.gtb_spec (janet_q_count it) (limit c)); [|lia].
      destruct (q_push_ignore_spec (write_pending c) (pending_of vm is_choice false) Hww)
        as (Hwwp & Happ & _).
      exists (q_push_ignore (write_pending c) (pending_of vm is_choice false)).
      split; [done|]. split; [|done]. apply Happ. lia.
    + intros Hle. destruct (Z.gtb_spec (janet_q_count it) (limit c)); [lia|]. done.
Qed.

Lemma channels_put vm channel c :
  channels (put_channel vm channel c) channel = c.
Proof. unfold put_channel. simpl. by rewrite fn_lookup_insert. Qed.

Lemma channels_put_ne vm channel c ch :
  channel <> ch -> channels (put_channel vm channel c) ch = channels vm ch.
Proof. intros. unfold put_channel. simpl. by rewrite fn_lookup_insert_ne. Qed.

Lemma channels_schedule vm fiber value :
  channels (janet_schedule vm fiber value) = channels vm.
Proof. apply janet_schedule_signal_frame. Qed.

Ltac crush :=
  repeat (intros; first [lia | done | progress split_and?]).

(** C1 (amended).  On a channel that satisfies the channel invariant, a
    give first pops [read_pending] up to and including the first entry
    whose [sched_id] is its fiber's current one (the entries before it are
    dropped).  If there is such a reader the give returns 0 and [items] and
    [write_pending] are as before; and if that reader's fiber is not
    scheduled already and the run queue is below its hard cap, the fiber is
    scheduled with [x], or with [[:take ch x]] for a [CHOICE_READ] reader:
    its task is appended to the run queue, its flag is set and its
    [sched_id] incremented, and no other fiber changes.  With no such
    reader, if [items] already holds [JANET_MAX_Q_CAPACITY - 1] values the
    give panics with "channel overflow" and [items] is as before; else [x]
    is appended to [items], and the give returns 1 and appends the running
    fiber's Pending to [write_pending] exactly when the new count of
    [items] exceeds [limit], and returns 0 otherwise. *)
Theorem janet_channel_push_give vm channel x is_choice :
  let c := channels vm channel in
  let live := skip_stale (fibers vm) (q_contents (read_pending c)) in
  chan_inv c ->
  q_wf (janet_vm_spawn vm) ->
  exists vm' r,
    janet_channel_push vm channel x is_choice = Some (vm', r) /\
    let c' := channels vm' channel in
    q_contents (read_pending c') = tl live /\
    (forall rd, hd_error live = Some rd ->
       r = Return 0 /\ items c' = items c /\ write_pending c' = write_pending c /\
       (~ scheduled vm (pending_fiber rd) ->
        janet_q_count (janet_vm_spawn vm) + 1 < JANET_MAX_Q_CAPACITY ->
          q_contents (janet_vm_spawn vm')
          = q_contents (janet_vm_spawn vm)
            ++ [mkTask (pending_fiber rd) (reader_value channel x rd) JANET_SIGNAL_OK] /\
          scheduled vm' (pending_fiber rd) /\
          sched_id (fibers vm' (pending_fiber rd))
          = wrap32 (sched_id (fibers vm (pending_fiber rd)) + 1) /\
          (forall g, g <> pending_fiber rd -> fibers vm' g = fibers vm g))) /\
    (hd_error live = None ->
       fibers vm' = fibers vm /\ janet_vm_spawn vm' = janet_vm_spawn vm /\
       (JANET_MAX_Q_CAPACITY <= janet_q_count (items c) + 1 ->
          r = Panicked "channel overflow: %v" /\
          items c' = items c /\ write_pending c' = write_pending c) /\
       (janet_q_count (items c) + 1 < JANET_MAX_Q_CAPACITY ->
          q_contents (items c') = q_contents (items c) ++ [x] /\
          (janet_q_count (items c') > limit c ->
             r = Return 1 /\
             q_contents (write_pending c')
             = q_contents (write_pending c) ++ [pending_of vm is_choice false]) /\
          (janet_q_count (items c') <= limit c ->
             r = Return 0 /\ write_pending c' = write_pending c))).
Proof.
  intros c live Hinv Hwf.
  destruct (janet_channel_push_spec vm channel x is_choice Hinv)
    as (rp & Hwrp & Hcrp & Hreader & Hover & Hpush).
  fold c live in Hcrp, Hreader, Hover, Hpush.
  destruct (hd_error live) as [rd|] eqn:Hhd.
  - eexists _, _. split; [by apply Hreader|]. cbv zeta.
    rewrite channels_schedule, channels_put. simpl.
    split_and!; try done. intros rd' [= <-]. split_and!; try done.
    intros Hns Hroom. unfold janet_schedule.
    assert (Hns' : ~ scheduled (put_channel vm channel (with_read_pending c rp))
                     (pending_fiber rd)) by done.
    rewrite (janet_schedule_signal_fresh _ _ _ _ Hns').
    cbn [janet_vm_spawn fibers put_channel with_channels].
    destruct (q_push_ignore_spec (janet_vm_spawn vm)
                (mkTask (pending_fiber rd) (reader_value channel x rd) JANET_SIGNAL_OK) Hwf)
      as (_ & Happ & _).
    split_and!.
    + by apply Happ.
    + unfold scheduled. cbn [fibers]. rewrite fn_lookup_insert. cbn [flags].
      apply has_bits_set, scheduled_nonzero.
    + by rewrite fn_lookup_insert.
    + intros g Hg. by rewrite fn_lookup_insert_ne.
  - destruct (Z_lt_le_dec (janet_q_count (items c) + 1) JANET_MAX_Q_CAPACITY)
      as [Hroom|Hfull].
    + destruct (Hpush eq_refl Hroom) as (it & Hwit & Hcit & Hcnt & Hblock & Hfree).
      destruct (Z_lt_le_dec (limit c) (janet_q_count it)) as [Hgt|Hle].
      * destruct (Hblock ltac:(lia)) as (wp & Hwwp & Hcwp & Heq).
        eexists _, _. split; [exact Heq|]. cbv zeta. rewrite channels_put. simpl.
        crush.
      * eexists _, _. split; [by apply Hfree|]. cbv zeta. rewrite channels_put. simpl.
        crush.
    + eexists _, _. split; [by apply Hover|]. cbv zeta. rewrite channels_put. simpl.
      crush.
Qed.

(** The full behaviour of [janet_channel_pop]. *)
Lemma janet_channel_pop_spec vm channel is_choice :
  let c := channels vm channel in
  match janet_q_pop (items c) with
  | None =>
      janet_channel_pop vm channel is_choice
      = (put_channel vm channel
           (with_read_pending c
              (q_push_ignore (read_pending c) (pending_of vm is_choice true))),
         (0, None))
  | Some (y, it) =>
      match janet_q_pop (write_pending c) with
      | None =>
          janet_channel_pop vm channel is_choice
          = (put_channel vm channel (with_items c it), (1, Some y))
      | Some (w, wp) =>
          janet_channel_pop vm channel is_choice
          = (janet_schedule
               (put_channel vm channel (with_write_pending (with_items c it) wp))
               (pending_fiber w) (writer_value channel w),
             (1, Some y))
      end
  end.
Proof.
  intros c. unfold janet_channel_pop. fold c.
  destruct (janet_q_pop (items c)) as [[y it]|]; [|done]. simpl.
  destruct (janet_q_pop (write_pending c)) as [[w wp]|]; [|done].
  unfold writer_value. by destruct (pending_mode w).
Qed.

(** What a take does on a channel that satisfies the channel invariant.
    It returns 0 ("blocked") exactly when [items] is empty, and then
    appends the running fiber's Pending to [read_pending], unless
    [read_pending] already holds [JANET_MAX_Q_CAPACITY - 1] entries, in
    which case it is left as it was.  Otherwise the take returns 1 with the
    front item, which it removes, and pops the front entry of
    [write_pending] if there is one, whatever its [sched_id]:
    [janet_schedule] is called on that writer's fiber with the channel
    handle, or with [[:give ch]] for a [CHOICE_WRITE] writer. *)
Theorem janet_channel_pop_take vm channel is_choice :
  let c := channels vm channel in
  chan_inv c ->
  exists vm' ret item,
    janet_channel_pop vm channel is_choice = (vm', (ret, item)) /\
    let c' := channels vm' channel in
    (q_contents (items c) = [] ->
       ret = 0 /\ item = None /\
       items c' = items c /\ write_pending c' = write_pending c /\
       fibers vm' = fibers vm /\ janet_vm_spawn vm' = janet_vm_spawn vm /\
       (janet_q_count (read_pending c) + 1 < JANET_MAX_Q_CAPACITY ->
          q_contents (read_pending c')
          = q_contents (read_pending c) ++ [pending_of vm is_choice true]) /\
       (JANET_MAX_Q_CAPACITY <= janet_q_count (read_pending c) + 1 ->
          read_pending c' = read_pending c)) /\
    (forall y l, q_contents (items c) = y :: l ->
       ret = 1 /\ item = Some y /\
       q_contents (items c') = l /\ read_pending c' = read_pending c /\
       q_contents (write_pending c') = tl (q_contents (write_pending c)) /\
       match q_contents (write_pending c) with
       | [] => fibers vm' = fibers vm /\ janet_vm_spawn vm' = janet_vm_spawn vm
       | w :: _ =>
           vm' = janet_schedule (put_channel vm channel c')
                   (pending_fiber w) (writer_value channel w)
       end).
Proof.
  intros c (Hwi & Hwr & Hww & Hlim & Hwc & Hover).
  pose proof (janet_channel_pop_spec vm channel is_choice) as Hspec.
  cbv zeta in Hspec. fold c in Hspec.
  pose proof (janet_q_pop_spec (items c) Hwi) as Hpi.
  destruct (janet_q_pop (items c)) as [[y it]|].
  - destruct Hpi as [Hci Hwit].
    pose proof (janet_q_pop_spec (write_pending c) Hww) as Hpw.
    destruct (janet_q_pop (write_pending c)) as [[w wp]|].
    + destruct Hpw as [Hcw Hwwp].
      eexists _, _, _. split; [exact Hspec|]. cbv zeta.
      rewrite channels_schedule, channels_put. simpl.
      split; [by rewrite Hci|]. intros y' l Heq. rewrite Hci in Heq.
      injection Heq as <- <-. rewrite Hcw. simpl. split_and!; done.
    + eexists _, _, _. split; [exact Hspec|]. cbv zeta. rewrite channels_put. simpl.
      split; [by rewrite Hci|]. intros y' l Heq. rewrite Hci in Heq.
      injection Heq as <- <-. rewrite Hpw. simpl. split_and!; done.
  - eexists _, _, _. split; [exact Hspec|]. cbv zeta. rewrite channels_put. simpl.
    destruct (q_push_ignore_spec (read_pending c) (pending_of vm is_choice true) Hwr)
      as (Hwrp & Happ & Hsame).
    split; [|by rewrite Hpi]. intros _. split_and!; done.
Qed.

(** *** The invariants along a run *)

Lemma janet_channel_push_step vm channel x is_choice :
  chan_inv (channels vm channel) ->
  exists vm' r, janet_channel_push vm channel x is_choice = Some (vm', r) /\
                channel_step vm channel vm'.
Proof.
  intros Hinv.
  destruct (janet_channel_push_spec vm channel x is_choice Hinv)
    as (rp & Hwrp & Hcrp & Hreader & Hover & Hpush).
  set (c := channels vm channel) in *.
  assert (Hrp : chan_inv (with_read_pending c rp)).
  { destruct Hinv as (? & ? & ? & ? & ? & ?). by split_and!. }
  destruct Hinv as (Hwi & Hwr & Hww & Hlim & Hwc & Hov).
  destruct (hd_error _) as [rd|] eqn:Hhd.
  - eexists _, _. split; [by apply Hreader|].
    exists (with_read_pending c rp). split; [done|]. right. eauto.
  - destruct (Z_lt_le_dec (janet_q_count (items c) + 1) JANET_MAX_Q_CAPACITY)
      as [Hroom|Hfull].
    + destruct (Hpush eq_refl Hroom) as (it & Hwit & Hcit & Hcnt & Hblock & Hfree).
      destruct (Z_lt_le_dec (limit c) (janet_q_count it)) as [Hgt|Hle].
      * destruct (Hblock ltac:(lia)) as (wp & Hwwp & Hcwp & Heq).
        eexists _, _. split; [exact Heq|]. eexists. split; [|by left].
        assert (janet_q_count wp = janet_q_count (write_pending c) + 1).
        { rewrite (janet_q_count_contents wp Hwwp), (janet_q_count_contents _ Hww), Hcwp.
          rewrite length_app. simpl. lia. }
        split_and!; simpl; try done; lia.
      * eexists _, _. split; [by apply Hfree|]. eexists. split; [|by left].
        pose proof (janet_q_count_bounds _ Hww).
        split_and!; simpl; try done; lia.
    + eexists _, _. split; [by apply Hover|]. eexists. split; [|by left]. done.
Qed.

Lemma janet_channel_pop_step vm channel is_choice :
  chan_inv (channels vm channel) ->
  channel_step vm channel (janet_channel_pop vm channel is_choice).1.
Proof.
  intros (Hwi & Hwr & Hww & Hlim & Hwc & Hov).
  pose proof (janet_channel_pop_spec vm channel is_choice) as Hspec.
  cbv zeta in Hspec. set (c := channels vm channel) in *.
  pose proof (janet_q_pop_spec (items c) Hwi) as Hpi.
  pose proof (janet_q_count_contents _ Hwi) as Hni.
  pose proof (janet_q_count_contents _ Hww) as Hnw.
  destruct (janet_q_pop (items c)) as [[y it]|].
  - destruct Hpi as [Hci Hwit].
    pose proof (janet_q_count_contents _ Hwit) as Hnit.
    rewrite Hci in Hni. simpl in Hni.
    pose proof (janet_q_pop_spec (write_pending c) Hww) as Hpw.
    destruct (janet_q_pop (write_pending c)) as [[w wp]|].
    + destruct Hpw as [Hcw Hwwp].
      pose proof (janet_q_count_contents _ Hwwp) as Hnwp.
      rewrite Hcw in Hnw. simpl in Hnw.
      rewrite Hspec. simpl. eexists. split; [|right; eauto].
      split_and!; simpl; try done; lia.
    + rewrite Hpw in Hnw. simpl in Hnw.
      rewrite Hspec. simpl. eexists. split; [|by left].
      split_and!; simpl; try done; lia.
  - rewrite Hspec. simpl. eexists. split; [|by left].
    destruct (q_push_ignore_spec (read_pending c) (pending_of vm is_choice true) Hwr)
      as (Hwrp & _ & _).
    split_and!; simpl; done.
Qed.

Lemma channel_step_inv vm channel vm' :
  vm_inv vm -> channel_step vm channel vm' -> vm_inv vm'.
Proof.
  intros (Hs & Hp & Hc) (c' & Hc' & Hvm').
  assert (Hput : vm_inv (put_channel vm channel c')).
  { split_and!.
    - by apply (spawn_inv_ext vm).
    - by apply (poll_inv_ext vm).
    - intros ch. destruct (decide (channel = ch)) as [<-|Hne].
      + by rewrite channels_put.
      + by rewrite channels_put_ne. }
  destruct Hvm' as [->|(f & v & ->)]; [done|].
  destruct Hput as (Hs' & Hp' & Hc'').
  pose proof (janet_schedule_signal_frame (put_channel vm channel c') f v JANET_SIGNAL_OK)
    as (Hch & Hpo & _ & _ & Hw & _).
  split_and!.
  - by apply spawn_inv_schedule.
  - by apply (poll_inv_ext (put_channel vm channel c')).
  - intros ch. unfold janet_schedule. rewrite Hch. apply Hc''.
Qed.

Lemma cfun_channel_new_inv vm channel argv :
  (forall ch, chan_inv (channels vm ch)) ->
  forall ch, chan_inv (channels (cfun_channel_new vm channel argv).1 ch).
Proof.
  intros Hc ch.
  assert (Hnew : forall l, 0 <= l ->
            chan_inv (channels (put_channel vm channel (janet_chan_init l)) ch)).
  { intros l Hl. destruct (decide (channel = ch)) as [<-|Hne].
    - rewrite channels_put. unfold chan_inv, janet_chan_init; simpl.
      split_and!; try apply q_wf_init; try done. unfold janet_q_count; simpl. lia.
    - by rewrite channels_put_ne. }
  unfold cfun_channel_new.
  repeat case_match; simpl; try apply Hc; try (by apply Hnew).
  apply Hnew.
  match goal with
  | E : _ && _ = true |- _ => apply andb_true_iff in E as [?%Z.leb_le _]
  end.
  done.
Qed.

Lemma cfun_channel_new_frame vm channel argv :
  let vm' := (cfun_channel_new vm channel argv).1 in
  fibers vm' = fibers vm /\ pollables vm' = pollables vm /\
  janet_vm_spawn vm' = janet_vm_spawn vm.
Proof. unfold cfun_channel_new. by repeat case_match. Qed.

Lemma vm_inv_init : vm_inv vm_init.
Proof.
  split_and!.
  - split_and!; simpl; [apply q_wf_init|constructor|].
    intros t Ht. by apply elem_of_nil in Ht.
  - unfold poll_inv, listening; simpl. split_and!; try done.
    + intros ?. constructor.
    + intros ? ? s1 s2 Hs1. by apply elem_of_nil in Hs1.
    + intros ? st Hs. by apply elem_of_nil in Hs.
  - intros ch. unfold chan_inv; simpl.
    split_and!; try apply q_wf_init; done.
Qed.

(** Every observable state satisfies the three invariants. *)
Lemma reachable_inv vm : reachable vm -> vm_inv vm.
Proof.
  induction 1 as [ |vm fiber _ IH|vm fiber value sig _ IH|vm task q vm' _ IH Hpop Hres
                 |vm channel argv vm' r _ IH Hnew|vm channel x c vm' r _ IH Hpush
                 |vm channel c vm' r _ IH Hpop|vm pollable mask state vm' r _ IH Hfresh Hl
                 |vm st vm' _ IH Hli Hun].
  - apply vm_inv_init.
  - destruct IH as (Hs & Hp & Hc). by split_and!.
  - destruct IH as (Hs & Hp & Hc).
    pose proof (janet_schedule_signal_frame vm fiber value sig)
      as (Hch & Hpo & _ & _ & Hw & _).
    split_and!.
    + by apply spawn_inv_schedule.
    + by apply (poll_inv_ext vm).
    + intros ch. rewrite Hch. apply Hc.
  - destruct IH as (Hs & Hp & Hc).
    destruct (spawn_inv_dequeue vm task q Hs Hpop) as [Hs1 _].
    set (vm1 := run_one_enter (with_spawn vm q) (task_fiber task)) in *.
    assert (Hp1 : poll_inv vm1).
    { apply (poll_inv_ext vm); [done| |done].
      intros f. unfold vm1, run_one_enter; simpl.
      destruct (decide (task_fiber task = f)) as [<-|Hne].
      - by rewrite fn_lookup_insert.
      - by rewrite fn_lookup_insert_ne. }
    unfold janet_fiber_did_resume in Hres.
    destruct (waiting (fibers vm1 (task_fiber task))) as [st|] eqn:Hw.
    + destruct Hp1 as (P1 & P2 & P3 & P4 & P5).
      destruct (P4 _ _ Hw) as [Hli _].
      destruct (poll_inv_unlisten vm1 st ltac:(by split_and!) Hli)
        as (vm2 & Hun & Hp2 & _ & _ & Hfl & Hsp & Hch).
      unfold janet_unlisten in Hres. rewrite Hun in Hres. injection Hres as <-.
      split_and!; [|done|].
      * apply (spawn_inv_ext vm1); [done| |done]. intros f. apply Hfl.
      * intros ch. rewrite Hch. apply Hc.
    + injection Hres as <-. split_and!; try done.
  - destruct IH as (Hs & Hp & Hc).
    pose proof (cfun_channel_new_inv vm channel argv Hc) as Hc'.
    pose proof (cfun_channel_new_frame vm channel argv) as (Hf & Hpo & Hsp).
    rewrite Hnew in Hc', Hf, Hpo, Hsp. simpl in Hc', Hf, Hpo, Hsp.
    split_and!; [| |done].
    + apply (spawn_inv_ext vm); [done| |done]. intros f. by rewrite Hf.
    + apply (poll_inv_ext vm); [done| |done]. intros f. by rewrite Hf.
  - destruct (janet_channel_push_step vm channel x c) as (vm2 & r2 & Heq & Hstep).
    { apply IH. }
    rewrite Heq in Hpush. injection Hpush as <- <-.
    by apply (channel_step_inv vm channel).
  - pose proof (janet_channel_pop_step vm channel c ltac:(apply IH)) as Hstep.
    rewrite Hpop in Hstep. by apply (channel_step_inv vm channel).
  - destruct IH as (Hs & Hp & Hc).
    destruct r as [st|m| |m].
    + destruct (poll_inv_listen vm pollable mask state vm' st Hp Hfresh Hl) as [Hp' _].
      apply janet_listen_impl_ok in Hl as (_ & _ & _ & _ & Hf & Hsp & Hch & _).
      split_and!; [|done|by rewrite Hch].
      apply (spawn_inv_ext vm); [done| |done].
      intros f. rewrite Hf. destruct (has_bits mask _); [done|].
      destruct (decide (janet_vm_root_fiber vm = f)) as [<-|Hne].
      * by rewrite fn_lookup_insert.
      * by rewrite fn_lookup_insert_ne.
    + assert (vm' = vm) as ->; [|by split_and!].
      unfold janet_listen_impl in Hl. repeat case_match; by simplify_eq.
    + unfold janet_listen_impl in Hl. repeat case_match; by simplify_eq.
    + unfold janet_listen_impl in Hl. repeat case_match; by simplify_eq.
  - destruct IH as (Hs & Hp & Hc).
    destruct (poll_inv_unlisten vm st Hp Hli) as (vm2 & Hun' & Hp2 & _ & _ & Hfl & Hsp & Hch).
    unfold janet_unlisten in Hun. rewrite Hun' in Hun. injection Hun as <-.
    split_and!; [|done|by rewrite Hch].
    apply (spawn_inv_ext vm); [done| |done]. intros f. apply Hfl.
Qed.

Lemma janet_fiber_did_resume_ok vm fiber :
  poll_inv vm ->
  exists vm', janet_fiber_did_resume vm fiber = (vm', Return tt) /\
    waiting (fibers vm' fiber) = None /\
    (forall st, waiting (fibers vm fiber) = Some st ->
       listening vm st /\ ~ listening vm' st) /\
    (forall f, flags (fibers vm' f) = flags (fibers vm f) /\
               sched_id (fibers vm' f) = sched_id (fibers vm f)).
Proof.
  intros Hp. unfold janet_fiber_did_resume.
  destruct (waiting (fibers vm fiber)) as [st|] eqn:Hw.
  - assert (Hli : listening vm st) by (by apply Hp in Hw as [? _]).
    destruct (poll_inv_unlisten vm st Hp Hli)
      as (vm' & Hun & _ & [_ Hmem] & Hclear & Hfl & _ & _).
    exists vm'. unfold janet_unlisten. split_and!; try done.
    + by apply Hclear.
    + intros st' [= <-]. split; [done|]. unfold listening. rewrite Hmem. by intros [_ ?].
  - exists vm. split_and!; done.
Qed.

Lemma reachable_do_chan vm channel limit : reachable vm -> reachable (do_chan vm channel limit).
Proof.
  intros Hr. unfold do_chan.
  destruct (cfun_channel_new vm channel [JNumber limit]) as [vm' r] eqn:E.
  by eapply reach_chan_new.
Qed.

Lemma reachable_do_give vm fiber channel x : reachable vm -> reachable (do_give vm fiber channel x).
Proof.
  intros Hr. unfold do_give.
  destruct (janet_channel_push _ _ _ _) as [[vm' r]|] eqn:E; [|done].
  eapply reach_give; [|exact E]. by apply reach_root.
Qed.

Lemma reachable_do_take vm fiber channel : reachable vm -> reachable (do_take vm fiber channel).
Proof.
  intros Hr. unfold do_take.
  destruct (janet_channel_pop _ _ _) as [vm' r] eqn:E.
  eapply reach_take; [|exact E]. by apply reach_root.
Qed.

Lemma reachable_do_listen vm fiber pollable mask state :
  reachable vm ->
  (forall p st, st ∈ pollable_state (pollables vm p) -> state_addr st <> state) ->
  reachable (do_listen vm fiber pollable mask state).
Proof.
  intros Hr Hfresh. unfold do_listen.
  destruct (janet_listen_impl _ _ _ _) as [vm' r] eqn:E.
  eapply reach_listen; [| |exact E]; [by apply reach_root|done].
Qed.

Lemma reachable_do_resume vm : reachable vm -> reachable (do_resume vm).
Proof.
  intros Hr. unfold do_resume.
  destruct (janet_q_pop (janet_vm_spawn vm)) as [[task q]|] eqn:E; [|done].
  set (vm0 := with_root_fiber vm (task_fiber task)).
  assert (Hr0 : reachable vm0) by (by apply reach_root).
  pose proof (reachable_inv vm0 Hr0) as (Hs & Hp & _).
  destruct (spawn_inv_dequeue vm0 task q Hs E) as [Hs1 _].
  assert (Hp1 : poll_inv (run_one_enter (with_spawn vm0 q) (task_fiber task))).
  { apply (poll_inv_ext vm0); [done| |done].
    intros f. unfold run_one_enter; simpl.
    destruct (decide (task_fiber task = f)) as [<-|Hne].
    - by rewrite fn_lookup_insert.
    - by rewrite fn_lookup_insert_ne. }
  destruct (janet_fiber_did_resume_ok _ (task_fiber task) Hp1) as (vm' & Heq & _).
  rewrite Heq. simpl. by eapply (reach_resume vm0).
Qed.

(** C6.  At every observable point no fiber has two tasks in the run
    queue and every fiber with a task in it carries [SCHEDULED]:
    [janet_schedule_signal] leaves the state alone when the flag is set,
    and otherwise sets the flag and enqueues one task (or none, when the
    ring is at its hard cap); and once a task is dequeued no other task of
    its fiber is left in the queue, so a fiber is never resumed twice for
    one scheduling. *)
Theorem run_queue_one_task_per_fiber vm :
  reachable vm ->
  NoDup (task_fiber <$> q_contents (janet_vm_spawn vm)) /\
  (forall t, t ∈ q_contents (janet_vm_spawn vm) -> scheduled vm (task_fiber t)) /\
  (forall fiber value sig,
     let vm' := janet_schedule_signal vm fiber value sig in
     (scheduled vm fiber -> vm' = vm) /\
     (~ scheduled vm fiber ->
        scheduled vm' fiber /\
        (fiber ∉ (task_fiber <$> q_contents (janet_vm_spawn vm))) /\
        (q_contents (janet_vm_spawn vm')
           = q_contents (janet_vm_spawn vm) ++ [mkTask fiber value sig] \/
         janet_vm_spawn vm' = janet_vm_spawn vm))) /\
  (forall task q,
     janet_q_pop (janet_vm_spawn vm) = Some (task, q) ->
     task_fiber task ∉ (task_fiber <$> q_contents q)).
Proof.
  intros Hr. pose proof (reachable_inv vm Hr) as (Hs & _ & _).
  pose proof Hs as (Hwf & Hnd & Hall). split_and!; try done.
  - intros fiber value sig vm'. split.
    + by apply janet_schedule_signal_noop.
    + intros Hn. unfold vm'. rewrite janet_schedule_signal_fresh by done. simpl.
      split_and!.
      * unfold scheduled. simpl. rewrite fn_lookup_insert. simpl.
        apply has_bits_set, scheduled_nonzero.
      * by apply scheduled_not_queued.
      * destruct (q_push_ignore_spec (janet_vm_spawn vm) (mkTask fiber value sig) Hwf)
          as (_ & Happ & Hsame).
        destruct (Z_lt_le_dec (janet_q_count (janet_vm_spawn vm) + 1)
                    JANET_MAX_Q_CAPACITY); [left; by apply Happ|right; by apply Hsame].
  - intros task q Hpop.
    pose proof (janet_q_pop_spec _ Hwf) as Hp. rewrite Hpop in Hp.
    destruct Hp as [Hc _]. rewrite Hc in Hnd. simpl in Hnd.
    by apply NoDup_cons in Hnd as [? _].
Qed.

Lemma run_queue_one_task_per_fiber_witness :
  let vm := janet_cancel
              (janet_schedule (janet_schedule vm_init 1 (JNumber 7)) 2 JNil)
              1 (JString "stop") in
  reachable vm /\
  (NoDup (task_fiber <$> q_contents (janet_vm_spawn vm)) /\
   q_contents (janet_vm_spawn vm)
     = [mkTask 1 (JNumber 7) JANET_SIGNAL_OK; mkTask 2 JNil JANET_SIGNAL_OK]).
Proof.
  intros vm.
  assert (Hr : reachable vm) by (repeat apply reach_schedule; apply reach_init).
  split; [exact Hr|].
  split; [exact (proj1 (run_queue_one_task_per_fiber vm Hr))|].
  vm_compute. reflexivity.
Defined.

(** C3 (amended).  At every observable point, for every channel, the
    number of items is at most [limit] plus the number of entries of
    [write_pending] (one parked item per blocked writer): so it is at most
    [limit] when no writer is pending and at most [limit + 1] when at most
    one is. *)
Theorem channel_items_bound vm :
  reachable vm ->
  forall ch,
    let c := channels vm ch in
    janet_q_count (items c) <= limit c + janet_q_count (write_pending c) /\
    (q_contents (write_pending c) = [] -> janet_q_count (items c) <= limit c) /\
    ((length (q_contents (write_pending c)) <= 1)%nat ->
       janet_q_count (items c) <= limit c + 1).
Proof.
  intros Hr ch c. pose proof (reachable_inv vm Hr) as (_ & _ & Hc).
  destruct (Hc ch) as (Hwi & Hwr & Hww & Hlim & Hwc & Hov). fold c in Hww, Hov.
  pose proof (janet_q_count_contents _ Hww) as Hn.
  split_and!; [done| |lia]. intros He. rewrite He in Hn. simpl in Hn. lia.
Qed.

Lemma channel_items_bound_witness :
  let vm := do_take (do_give (do_give (do_chan vm_init 0 1) 1 0 (JNumber 10))
                       1 0 (JNumber 20)) 2 0 in
  reachable vm /\
  (let c := channels vm 0 in
   janet_q_count (items c) <= limit c + janet_q_count (write_pending c) /\
   (q_contents (write_pending c) = [] -> janet_q_count (items c) <= limit c) /\
   ((length (q_contents (write_pending c)) <= 1)%nat ->
      janet_q_count (items c) <= limit c + 1)).
Proof.
  intros vm.
  assert (Hr : reachable vm).
  { apply reachable_do_take, reachable_do_give, reachable_do_give, reachable_do_chan,
      reach_init. }
  split; [exact Hr|]. exact (channel_items_bound vm Hr 0%nat).
Defined.

(** C3 as stated fails.  On a channel with [limit = 0], fiber 1 gives and
    blocks with its item parked in [items]; nothing is left to run (the run
    queue is empty, there is no listener), and [items] holds 1 > 0 values.
    Fiber 2 then gives as well: [items] holds 2 > 0 + 1 values. *)
Lemma channel_items_bound_counterexample :
  let vm1 := do_give (do_chan vm_init 0 0) 1 0 (JNumber 10) in
  let vm2 := do_give vm1 2 0 (JNumber 20) in
  reachable vm2 /\
  limit (channels vm2 0) = 0 /\
  (* quiescent after the first give, with one item over the limit *)
  q_contents (janet_vm_spawn vm1) = [] /\ janet_vm_active_listeners vm1 = 0 /\
  janet_q_count (items (channels vm1 0)) = 1 /\
  (* two blocked writers, two items over the limit *)
  janet_q_count (items (channels vm2 0)) = 2 /\
  q_contents (items (channels vm2 0)) = [JNumber 10; JNumber 20] /\
  ~ (janet_q_count (items (channels vm2 0)) <= limit (channels vm2 0) + 1) /\
  ~ (janet_q_count (items (channels vm1 0)) <= limit (channels vm1 0)).
Proof.
  intros vm1 vm2. split.
  { apply reachable_do_give, reachable_do_give, reachable_do_chan, reach_init. }
  vm_compute. split_and!; try reflexivity; intros H; by apply H.
Qed.

End ChannelFacts.

Module LoopFacts.
Import RingQueue RingQueueFacts Ev SchedulerFacts PollableFacts ChannelFacts.

(** C5 (amended).  At every observable point, for every fiber:
    [run_one] clears [SCHEDULED] and leaves [sched_id] as it is before it
    hands the fiber to the interpreter; the post-resume hook
    [janet_fiber_did_resume] unlistens the [waiting] listener if there is
    one (it leaves its pollable's list and [waiting] becomes [NULL]) and
    leaves [sched_id] as it is; it is [janet_schedule_signal], when it
    enqueues the fiber, that sets [SCHEDULED] and increments [sched_id]
    (modulo [2^32]). *)
Theorem resume_effects vm fiber :
  reachable vm ->
  (forall k value sig,
     run_one k vm fiber value sig = (k (run_one_enter vm fiber) fiber value sig).1) /\
  ~ scheduled (run_one_enter vm fiber) fiber /\
  sched_id (fibers (run_one_enter vm fiber) fiber) = sched_id (fibers vm fiber) /\
  (exists vm',
     janet_fiber_did_resume vm fiber = (vm', Return tt) /\
     waiting (fibers vm' fiber) = None /\
     (forall st, waiting (fibers vm fiber) = Some st ->
        janet_fiber_did_resume vm fiber = janet_unlisten vm st /\
        listening vm st /\ ~ listening vm' st) /\
     sched_id (fibers vm' fiber) = sched_id (fibers vm fiber)) /\
  (forall value sig,
     ~ scheduled vm fiber ->
     let vm' := janet_schedule_signal vm fiber value sig in
     scheduled vm' fiber /\
     sched_id (fibers vm' fiber) = wrap32 (sched_id (fibers vm fiber) + 1)).
Proof.
  intros Hr. pose proof (reachable_inv vm Hr) as (_ & Hp & _).
  split_and!.
  - intros k value sig. unfold run_one. by destruct (k _ _ _ _).
  - unfold scheduled, run_one_enter; simpl. rewrite fn_lookup_insert; simpl.
    by rewrite has_bits_clear.
  - unfold run_one_enter; simpl. by rewrite fn_lookup_insert.
  - destruct (janet_fiber_did_resume_ok vm fiber Hp) as (vm' & Heq & Hnone & Hst & Hfl).
    exists vm'. split_and!; try done; [|apply Hfl].
    intros st Hw. split; [|by apply Hst].
    unfold janet_fiber_did_resume. by rewrite Hw.
  - intros value sig Hn vm'. unfold vm'.
    rewrite janet_schedule_signal_fresh by done.
    unfold scheduled; simpl. rewrite fn_lookup_insert; simpl.
    split; [apply has_bits_set, scheduled_nonzero|done].
Qed.

Lemma resume_effects_witness :
  let vm := do_listen (janet_schedule vm_init 1 (JNumber 7)) 2 0 16 100 in
  reachable vm /\
  (exists vm',
     janet_fiber_did_resume vm 2 = (vm', Return tt) /\
     waiting (fibers vm' 2) = None /\
     (forall st, waiting (fibers vm 2) = Some st ->
        janet_fiber_did_resume vm 2 = janet_unlisten vm st /\
        listening vm st /\ ~ listening vm' st) /\
     sched_id (fibers vm' 2) = sched_id (fibers vm 2)).
Proof.
  intros vm.
  assert (Hr : reachable vm).
  { apply reachable_do_listen; [apply reach_schedule, reach_init|].
    intros p st Hst. by apply elem_of_nil in Hst. }
  split; [exact Hr|].
  exact (proj1 (proj2 (proj2 (proj2 (resume_effects vm 2 Hr))))).
Defined.

(** C5 as stated fails: the increment of [sched_id] does not coincide with
    the resume.  Fiber 1 starts with [sched_id = 0]; [janet_schedule]
    enqueues it and its [sched_id] is 1 at once, while it sits in the run
    queue.  The loop then dequeues the task and resumes the fiber
    ([run_one] up to the interpreter, with the post-resume hook): the flag
    is cleared and [sched_id] is still 1, not 2. *)
Lemma resume_sched_id_counterexample :
  let vm1 := janet_schedule vm_init 1 (JNumber 7) in
  let vm2 := do_resume vm1 in
  sched_id (fibers vm_init 1) = 0 /\
  (* scheduled, not yet resumed: already incremented *)
  sched_id (fibers vm1 1) = 1 /\
  q_contents (janet_vm_spawn vm1) = [mkTask 1 (JNumber 7) JANET_SIGNAL_OK] /\
  scheduled vm1 1 /\
  (* resumed: flag cleared, no increment *)
  q_contents (janet_vm_spawn vm2) = [] /\
  ~ scheduled vm2 1 /\
  sched_id (fibers vm2 1) = sched_id (fibers vm1 1) /\
  sched_id (fibers vm2 1) <> sched_id (fibers vm1 1) + 1 /\
  sched_id (fibers (run_one (fun vm _ _ _ => (vm, JANET_SIGNAL_EVENT)) vm1 1
                      (JNumber 7) JANET_SIGNAL_OK) 1) = 1.
Proof. vm_compute. split_and!; try reflexivity; discriminate. Qed.

(** The event bits of a listener of the list are in the event bits of the
    OR of the list. *)
Lemma event_bits_member l s :
  s ∈ l ->
  Z.land (event_bits (state_mask s)) (event_bits (mask_or l))
  = event_bits (state_mask s).
Proof.
  intros Hs. pose proof (mask_or_covers l s Hs) as Hc. revert Hc.
  unfold event_bits.
  generalize JANET_ASYNC_LISTEN_SPAWNER (state_mask s) (mask_or l).
  intros sp a b Hc. bitwise.
Qed.

Lemma spawner_bit_differs mo :
  Z.land mo JANET_ASYNC_LISTEN_SPAWNER = JANET_ASYNC_LISTEN_SPAWNER ->
  event_bits mo <> mo.
Proof.
  intros Hsp Heq. apply spawner_nonzero. rewrite <- Hsp, <- Heq.
  unfold event_bits. generalize JANET_ASYNC_LISTEN_SPAWNER. intros sp. bitwise.
Qed.

Lemma mask_or_spawner l s :
  s ∈ l ->
  Z.land (state_mask s) JANET_ASYNC_LISTEN_SPAWNER = JANET_ASYNC_LISTEN_SPAWNER ->
  Z.land (mask_or l) JANET_ASYNC_LISTEN_SPAWNER = JANET_ASYNC_LISTEN_SPAWNER.
Proof.
  intros Hs Hsp. pose proof (mask_or_covers l s Hs) as Hc. revert Hc Hsp.
  generalize JANET_ASYNC_LISTEN_SPAWNER (state_mask s) (mask_or l).
  intros sp a b Hc Hsp. bitwise.
Qed.

(** Pollable masks.  At every observable point: after a [janet_listen_impl]
    that returns, the pollable's [_mask] is the bitwise OR of the masks of
    the listeners in its list.  A [janet_unlisten_impl] of a linked listener
    returns, removes that listener only, and leaves [_mask] equal to the OR
    of the masks of the surviving listeners with the
    [JANET_ASYNC_LISTEN_SPAWNER] bit cleared: every other bit contributed
    by a survivor is intact, but the spawner bit, which every listener mask
    carries, is dropped, so [_mask] differs from the OR of the survivors as
    soon as there is one. *)
Theorem pollable_mask_listen_unlisten vm :
  reachable vm ->
  (forall pollable mask state vm' st,
     (forall p s, s ∈ pollable_state (pollables vm p) -> state_addr s <> state) ->
     janet_listen_impl vm pollable mask state = (vm', Return st) ->
     pollable_state (pollables vm' pollable) = st :: pollable_state (pollables vm pollable) /\
     pollable_mask (pollables vm' pollable)
       = mask_or (pollable_state (pollables vm' pollable))) /\
  (forall st,
     listening vm st ->
     exists vm',
       janet_unlisten_impl vm st = (vm', Return tt) /\
       let p := pollables vm (state_pollable st) in
       let p' := pollables vm' (state_pollable st) in
       (forall s, s ∈ pollable_state p' <-> s ∈ pollable_state p /\ s <> st) /\
       pollable_mask p' = event_bits (mask_or (pollable_state p')) /\
       (forall s, s ∈ pollable_state p' ->
          Z.land (event_bits (state_mask s)) (pollable_mask p')
          = event_bits (state_mask s)) /\
       (pollable_state p' <> [] -> pollable_mask p' <> mask_or (pollable_state p'))).
Proof.
  intros Hr. pose proof (reachable_inv vm Hr) as (_ & Hp & _). split.
  - intros pollable mask state vm' st Hfresh Hl.
    destruct (poll_inv_listen vm pollable mask state vm' st Hp Hfresh Hl) as [_ Hm].
    split; [|done].
    apply janet_listen_impl_ok in Hl as (_ & _ & _ & Hpo & _).
    rewrite Hpo, fn_lookup_insert. done.
  - intros st Hli.
    destruct (poll_inv_unlisten vm st Hp Hli)
      as (vm' & Hun & Hp' & [Hm Hmem] & _).
    exists vm'. split; [done|]. cbv zeta. split_and!; try done.
    + intros s Hs. rewrite Hm. by apply event_bits_member.
    + intros Hne. rewrite Hm. apply spawner_bit_differs.
      destruct (pollable_state (pollables vm' (state_pollable st))) as [|s l] eqn:El;
        [done|].
      apply (mask_or_spawner _ s); [by left|].
      destruct Hp' as (_ & _ & P3 & _).
      apply (P3 (state_pollable st) s). rewrite El. by left.
Qed.

Lemma pollable_mask_listen_unlisten_witness :
  let vm := do_listen (do_listen vm_init 1 0 16 100) 2 0 32 101 in
  let st := mkState 100 (Some 1%nat) 0 (Z.lor 16 JANET_ASYNC_LISTEN_SPAWNER) in
  (reachable vm /\ listening vm st) /\
  exists vm',
    janet_unlisten_impl vm st = (vm', Return tt) /\
    let p := pollables vm (state_pollable st) in
    let p' := pollables vm' (state_pollable st) in
    (forall s, s ∈ pollable_state p' <-> s ∈ pollable_state p /\ s <> st) /\
    pollable_mask p' = event_bits (mask_or (pollable_state p')) /\
    (forall s, s ∈ pollable_state p' ->
       Z.land (event_bits (state_mask s)) (pollable_mask p')
       = event_bits (state_mask s)) /\
    (pollable_state p' <> [] -> pollable_mask p' <> mask_or (pollable_state p')).
Proof.
  intros vm st.
  assert (Hr : reachable vm).
  { apply reachable_do_listen; [apply reachable_do_listen; [apply reach_init|]|].
    - intros p s Hs. by apply elem_of_nil in Hs.
    - intros p s. unfold do_listen. simpl.
      unfold insert, fn_insert. destruct (decide (0%nat = p)); simpl.
      + intros ->%list_elem_of_singleton. done.
      + by intros ?%elem_of_nil. }
  assert (Hli : listening vm st).
  { unfold listening. vm_compute. right. left. }
  split; [by split|].
  exact (proj2 (pollable_mask_listen_unlisten vm Hr) st Hli).
Defined.

(** C8, the failing run: an unlisten that leaves a listener behind.
    Fiber 1 listens for mask 16 and fiber 2 for mask 32 on pollable 0; both
    listener masks get the spawner bit ([0x1000]) and the aggregate mask is
    [16 | 32 | 0x1000], the OR of the two.  Unlistening the first listener
    clears [16 | 0x1000] from the aggregate, which is then 32, while the
    only surviving listener has mask [32 | 0x1000 = 4128]. *)
Lemma pollable_mask_unlisten_drops_spawner :
  let vm := do_listen (do_listen vm_init 1 0 16 100) 2 0 32 101 in
  let st1 := mkState 100 (Some 1%nat) 0 (Z.lor 16 JANET_ASYNC_LISTEN_SPAWNER) in
  let st2 := mkState 101 (Some 2%nat) 0 (Z.lor 32 JANET_ASYNC_LISTEN_SPAWNER) in
  let vm' := (janet_unlisten_impl vm st1).1 in
  pollable_state (pollables vm 0) = [st2; st1] /\
  pollable_mask (pollables vm 0) = 4144 /\
  mask_or (pollable_state (pollables vm 0)) = 4144 /\
  (janet_unlisten_impl vm st1).2 = Return tt /\
  pollable_state (pollables vm' 0) = [st2] /\
  pollable_mask (pollables vm' 0) = 32 /\
  mask_or (pollable_state (pollables vm' 0)) = 4128 /\
  pollable_mask (pollables vm' 0) <> mask_or (pollable_state (pollables vm' 0)).
Proof. vm_compute. split_and!; try reflexivity; discriminate. Qed.

(** *** Concrete runs of give and take *)

Lemma janet_channel_push_give_witness :
  let vm := with_root_fiber
              (janet_schedule (do_take (do_take (do_chan vm_init 0 0) 2 0) 3 0) 2 JNil)
              1 in
  (chan_inv (channels vm 0) /\ q_wf (janet_vm_spawn vm)) /\
  exists vm' r,
    janet_channel_push vm 0 (JNumber 42) false = Some (vm', r) /\
    let c := channels vm 0 in
    let c' := channels vm' 0 in
    let live := skip_stale (fibers vm) (q_contents (read_pending c)) in
    q_contents (read_pending c') = tl live /\
    (forall rd, hd_error live = Some rd ->
       r = Return 0 /\ items c' = items c /\ write_pending c' = write_pending c /\
       (~ scheduled vm (pending_fiber rd) ->
        janet_q_count (janet_vm_spawn vm) + 1 < JANET_MAX_Q_CAPACITY ->
          q_contents (janet_vm_spawn vm')
          = q_contents (janet_vm_spawn vm)
            ++ [mkTask (pending_fiber rd) (reader_value 0 (JNumber 42) rd) JANET_SIGNAL_OK] /\
          scheduled vm' (pending_fiber rd) /\
          sched_id (fibers vm' (pending_fiber rd))
          = wrap32 (sched_id (fibers vm (pending_fiber rd)) + 1) /\
          (forall g, g <> pending_fiber rd -> fibers vm' g = fibers vm g))) /\
    (hd_error live = None ->
       fibers vm' = fibers vm /\ janet_vm_spawn vm' = janet_vm_spawn vm /\
       (JANET_MAX_Q_CAPACITY <= janet_q_count (items c) + 1 ->
          r = Panicked "channel overflow: %v" /\
          items c' = items c /\ write_pending c' = write_pending c) /\
       (janet_q_count (items c) + 1 < JANET_MAX_Q_CAPACITY ->
          q_contents (items c') = q_contents (items c) ++ [JNumber 42] /\
          (janet_q_count (items c') > limit c ->
             r = Return 1 /\
             q_contents (write_pending c')
             = q_contents (write_pending c) ++ [pending_of vm false false]) /\
          (janet_q_count (items c') <= limit c ->
             r = Return 0 /\ write_pending c' = write_pending c))).
Proof.
  intros vm.
  assert (Hinv : chan_inv (channels vm 0)).
  { vm_compute. split_and!; first [reflexivity | discriminate]. }
  assert (Hwf : q_wf (janet_vm_spawn vm)).
  { vm_compute. split_and!; first [reflexivity | discriminate]. }
  split; [by split|].
  exact (janet_channel_push_give vm 0 (JNumber 42) false Hinv Hwf).
Defined.

(** Fibers 2 and 3 wait on an empty channel, fiber 2 is rescheduled by
    someone else; a give of 42 by fiber 1 skips the stale entry of fiber 2
    and hands 42 to fiber 3. *)
Example janet_channel_push_skips_stale :
  let vm := with_root_fiber
              (janet_schedule (do_take (do_take (do_chan vm_init 0 0) 2 0) 3 0) 2 JNil)
              1 in
  q_contents (read_pending (channels vm 0))
    = [mkPending 2 0 JANET_CP_MODE_ITEM; mkPending 3 0 JANET_CP_MODE_ITEM] /\
  exists vm',
    janet_channel_push vm 0 (JNumber 42) false = Some (vm', Return 0) /\
    q_contents (read_pending (channels vm' 0)) = [] /\
    q_contents (items (channels vm' 0)) = [] /\
    q_contents (janet_vm_spawn vm')
      = [mkTask 2 JNil JANET_SIGNAL_OK; mkTask 3 (JNumber 42) JANET_SIGNAL_OK].
Proof.
  split; [vm_compute; reflexivity|].
  eexists. split; [vm_compute; reflexivity|]. vm_compute. done.
Qed.

Lemma full_ring_wf {A} `{Inhabited A} (x : A) :
  q_wf (full_ring x) /\ janet_q_count (full_ring x) = JANET_MAX_Q_CAPACITY - 1.
Proof.
  unfold q_wf, full_ring, janet_q_count. cbn [capacity head tail data].
  rewrite length_replicate, Z2Nat.id by done.
  split; [|reflexivity]. split_and!; done.
Qed.

Lemma vm_spawn_full_wf :
  q_wf (janet_vm_spawn vm_spawn_full) /\
  janet_q_count (janet_vm_spawn vm_spawn_full) = JANET_MAX_Q_CAPACITY - 1.
Proof.
  unfold q_wf, vm_spawn_full, janet_q_count. cbn [janet_vm_spawn capacity head tail data].
  rewrite length_fmap, length_seq, Z2Nat.id by done.
  split; [|reflexivity]. split_and!; done.
Qed.

(** C1 as stated fails in three places.  When [items] is at the hard cap
    of the ring and no reader is pending, the give neither appends the value
    nor returns: it panics.  When the live reader is on the run queue
    already (fiber 2 was scheduled and then called [ev/take]), the give
    returns 0 but the reader is not scheduled with the value: 42 reaches
    neither [items] nor the run queue, which still holds the earlier task of
    fiber 2 only.  When the run queue is at its hard cap, the live reader is
    flagged but no task is appended for it. *)
Lemma janet_channel_push_counterexample :
  (chan_inv (channels vm_items_full 0) /\
   q_contents (read_pending (channels vm_items_full 0)) = [] /\
   janet_q_count (items (channels vm_items_full 0)) = 134217726 /\
   exists vm',
     janet_channel_push vm_items_full 0 (JNumber 1) false
     = Some (vm', Panicked "channel overflow: %v") /\
     items (channels vm' 0) = items (channels vm_items_full 0)) /\
  (let vm := with_root_fiber
               (do_take (janet_schedule (do_chan vm_init 0 0) 2 JNil) 2 0) 1 in
   reachable vm /\
   hd_error (skip_stale (fibers vm) (q_contents (read_pending (channels vm 0))))
     = Some (mkPending 2 1 JANET_CP_MODE_ITEM) /\
   scheduled vm 2 /\
   exists vm',
     janet_channel_push vm 0 (JNumber 42) false = Some (vm', Return 0) /\
     q_contents (items (channels vm' 0)) = [] /\
     q_contents (janet_vm_spawn vm') = [mkTask 2 JNil JANET_SIGNAL_OK] /\
     fibers vm' = fibers vm) /\
  (chan_inv (channels vm_spawn_full 0) /\
   hd_error (skip_stale (fibers vm_spawn_full)
               (q_contents (read_pending (channels vm_spawn_full 0))))
     = Some (mkPending 2 0 JANET_CP_MODE_ITEM) /\
   ~ scheduled vm_spawn_full 2 /\
   janet_q_count (janet_vm_spawn vm_spawn_full) = 134217726 /\
   exists vm',
     janet_channel_push vm_spawn_full 0 (JNumber 42) false = Some (vm', Return 0) /\
     scheduled vm' 2 /\
     janet_vm_spawn vm' = janet_vm_spawn vm_spawn_full /\
     items (channels vm' 0) = items (channels vm_spawn_full 0)).
Proof.
  split; [|split].
  - assert (Hc : channels vm_items_full 0
                 = mkChannel (full_ring JNil) janet_q_init janet_q_init (2^31 - 1))
      by reflexivity.
    destruct (full_ring_wf JNil) as [Hwf Hcnt].
    assert (Hinv : chan_inv (channels vm_items_full 0)).
    { rewrite Hc. unfold chan_inv. cbn [items read_pending write_pending limit].
      rewrite Hcnt. split_and!; [exact Hwf|apply q_wf_init|apply q_wf_init|done..]. }
    split; [exact Hinv|]. split; [by rewrite Hc|].
    split; [rewrite Hc; cbn [items]; by rewrite Hcnt|].
    destruct (janet_channel_push_spec vm_items_full 0 (JNumber 1) false Hinv)
      as (rp & _ & _ & _ & Hover & _).
    eexists. split.
    + apply Hover; [by rewrite Hc|]. rewrite Hc. cbn [items]. rewrite Hcnt. done.
    + by rewrite channels_put.
  - intros vm. split.
    { apply reach_root, reachable_do_take, reach_schedule, reachable_do_chan, reach_init. }
    split; [vm_compute; reflexivity|]. split; [vm_compute; reflexivity|].
    eexists. split; [vm_compute; reflexivity|]. vm_compute. done.
  - destruct vm_spawn_full_wf as [Hwf Hcnt].
    assert (Hinv : chan_inv (channels vm_spawn_full 0)).
    { cbn [channels vm_spawn_full]. vm_compute.
      split_and!; first [reflexivity | discriminate]. }
    assert (Hlive : hd_error (skip_stale (fibers vm_spawn_full)
                                (q_contents (read_pending (channels vm_spawn_full 0))))
                    = Some (mkPending 2 0 JANET_CP_MODE_ITEM)).
    { cbn [channels fibers vm_spawn_full read_pending]. reflexivity. }
    assert (Hns : ~ scheduled vm_spawn_full 2).
    { unfold scheduled. cbn [fibers vm_spawn_full]. simpl. done. }
    split; [exact Hinv|]. split; [exact Hlive|]. split; [exact Hns|].
    split; [by rewrite Hcnt|].
    destruct (janet_channel_push_spec vm_spawn_full 0 (JNumber 42) false Hinv)
      as (rp & _ & _ & Hreader & _ & _).
    specialize (Hreader _ Hlive).
    eexists. split; [exact Hreader|].
    split; [apply janet_schedule_signal_sets_flag|].
    unfold janet_schedule. rewrite janet_schedule_signal_fresh by done.
    cbn [janet_vm_spawn channels put_channel with_channels].
    rewrite fn_lookup_insert. cbn [items with_read_pending].
    split; [|done].
    destruct (q_push_ignore_spec (janet_vm_spawn vm_spawn_full)
                (mkTask (pending_fiber (mkPending 2 0 JANET_CP_MODE_ITEM))
                   (reader_value 0 (JNumber 42) (mkPending 2 0 JANET_CP_MODE_ITEM))
                   JANET_SIGNAL_OK) Hwf) as (_ & _ & Hsame).
    apply Hsame. rewrite Hcnt. done.
Qed.

Lemma janet_channel_pop_take_witness :
  let vm := with_root_fiber (do_give (do_give (do_chan vm_init 0 1) 1 0 (JNumber 10))
                               2 0 (JNumber 20)) 3 in
  chan_inv (channels vm 0) /\
  exists vm' ret item,
    janet_channel_pop vm 0 false = (vm', (ret, item)) /\
    let c := channels vm 0 in
    let c' := channels vm' 0 in
    (q_contents (items c) = [] ->
       ret = 0 /\ item = None /\
       items c' = items c /\ write_pending c' = write_pending c /\
       fibers vm' = fibers vm /\ janet_vm_spawn vm' = janet_vm_spawn vm /\
       (janet_q_count (read_pending c) + 1 < JANET_MAX_Q_CAPACITY ->
          q_contents (read_pending c')
          = q_contents (read_pending c) ++ [pending_of vm false true]) /\
       (JANET_MAX_Q_CAPACITY <= janet_q_count (read_pending c) + 1 ->
          read_pending c' = read_pending c)) /\
    (forall y l, q_contents (items c) = y :: l ->
       ret = 1 /\ item = Some y /\
       q_contents (items c') = l /\ read_pending c' = read_pending c /\
       q_contents (write_pending c') = tl (q_contents (write_pending c)) /\
       match q_contents (write_pending c) with
       | [] => fibers vm' = fibers vm /\ janet_vm_spawn vm' = janet_vm_spawn vm
       | w :: _ =>
           vm' = janet_schedule (put_channel vm 0 c')
                   (pending_fiber w) (writer_value 0 w)
       end).
Proof.
  intros vm.
  assert (Hinv : chan_inv (channels vm 0)).
  { vm_compute. split_and!; first [reflexivity | discriminate]. }
  split; [exact Hinv|].
  exact (janet_channel_pop_take vm 0 false Hinv).
Defined.

(** Scenario S2 of the spec with limit 1: the second give blocks; the take
    yields the first value and wakes the blocked writer with the channel. *)
Example janet_channel_pop_wakes_writer :
  let vm := with_root_fiber (do_give (do_give (do_chan vm_init 0 1) 1 0 (JNumber 10))
                               2 0 (JNumber 20)) 3 in
  q_contents (write_pending (channels vm 0)) = [mkPending 2 0 JANET_CP_MODE_ITEM] /\
  (janet_channel_pop vm 0 false).2 = (1, Some (JNumber 10)) /\
  let vm' := (janet_channel_pop vm 0 false).1 in
  q_contents (items (channels vm' 0)) = [JNumber 20] /\
  q_contents (write_pending (channels vm' 0)) = [] /\
  q_contents (janet_vm_spawn vm') = [mkTask 2 (JAbstract 0) JANET_SIGNAL_OK].
Proof. vm_compute. done. Qed.

(** C2, the failing run.  [read_pending] is at the hard cap of the ring:
    the take on the empty channel returns 0 ("blocked") but appends no
    Pending for the taker: [janet_q_push] returned 1 and nobody looks at
    it, where [janet_channel_push] checks the same call on [items] and
    panics. *)
Lemma janet_channel_pop_unregistered :
  chan_inv (channels vm_readers_full 0) /\
  q_contents (items (channels vm_readers_full 0)) = [] /\
  janet_q_count (read_pending (channels vm_readers_full 0)) = 134217726 /\
  exists vm',
    janet_channel_pop (with_root_fiber vm_readers_full 2) 0 false = (vm', (0, None)) /\
    read_pending (channels vm' 0) = read_pending (channels vm_readers_full 0).
Proof.
  assert (Hc : channels vm_readers_full 0
               = mkChannel janet_q_init
                   (full_ring (mkPending 1 0 JANET_CP_MODE_CHOICE_READ)) janet_q_init 0)
    by reflexivity.
  destruct (full_ring_wf (mkPending 1 0 JANET_CP_MODE_CHOICE_READ)) as [Hwf Hcnt].
  split.
  { rewrite Hc. unfold chan_inv. cbn [items read_pending write_pending limit].
    split_and!; [apply q_wf_init|exact Hwf|apply q_wf_init|done..]. }
  split; [by rewrite Hc|].
  split; [rewrite Hc; cbn [read_pending]; by rewrite Hcnt|].
  pose proof (janet_channel_pop_spec (with_root_fiber vm_readers_full 2) 0 false) as Hspec.
  cbv zeta in Hspec. cbn [channels with_root_fiber] in Hspec. rewrite Hc in Hspec.
  cbn [items] in Hspec.
  change (janet_q_pop (janet_q_init (A:=Janet))) with (@None (Janet * JanetQueue Janet))
    in Hspec.
  cbv iota in Hspec.
  eexists. split; [exact Hspec|].
  rewrite channels_put. cbn [read_pending with_read_pending].
  destruct (q_push_ignore_spec (full_ring (mkPending 1 0 JANET_CP_MODE_CHOICE_READ))
              (pending_of (with_root_fiber vm_readers_full 2) false true) Hwf)
    as (_ & _ & Hsame).
  apply Hsame. rewrite Hcnt. done.
Qed.

(** The writer the take pops is on the run queue already: fiber 2 blocked
    in a give on a channel of limit 0 and was then cancelled.  The take of
    fiber 3 yields the item and pops the Pending of fiber 2, but its
    [janet_schedule] with the channel does nothing: fiber 2 stays on the run
    queue with the cancellation only. *)
Example janet_channel_pop_cancelled_writer :
  let vm := with_root_fiber
              (janet_cancel (do_give (do_chan vm_init 0 0) 2 0 (JNumber 20))
                 2 (JString "stop")) 3 in
  q_contents (write_pending (channels vm 0)) = [mkPending 2 0 JANET_CP_MODE_ITEM] /\
  q_contents (janet_vm_spawn vm) = [mkTask 2 (JString "stop") JANET_SIGNAL_ERROR] /\
  (janet_channel_pop vm 0 false).2 = (1, Some (JNumber 20)) /\
  let vm' := (janet_channel_pop vm 0 false).1 in
  q_contents (write_pending (channels vm' 0)) = [] /\
  q_contents (janet_vm_spawn vm') = [mkTask 2 (JString "stop") JANET_SIGNAL_ERROR].
Proof. vm_compute. done. Qed.

(** *** [ev/select] *)

(** The first pass on a single write clause: it is taken exactly when
    [count(items) < limit], and then the give does not block and the call
    returns [[:give ch]]. *)
Lemma choice_check_write vm chan x :
  chan_inv (channels vm chan) ->
  (janet_q_count (items (channels vm chan)) < limit (channels vm chan) ->
   exists vm' r, janet_channel_push vm chan x true = Some (vm', r) /\
     (r = Return 0 \/ r = Panicked "channel overflow: %v") /\
     choice_check vm [JTuple [JAbstract chan; x]]
     = Some (vm', match r with
                  | Return _ => Return (Some (make_write_result chan))
                  | Panicked m => Panicked m
                  | Await => Await
                  | Aborted m => Aborted m
                  end)) /\
  (limit (channels vm chan) <= janet_q_count (items (channels vm chan)) ->
   choice_check vm [JTuple [JAbstract chan; x]] = Some (vm, Return None)).
Proof.
  intros Hinv. split; intros Hlt; simpl.
  - destruct (Z.ltb_spec (janet_q_count (items (channels vm chan)))
                (limit (channels vm chan))); [|lia].
    destruct (janet_channel_push_spec vm chan x true Hinv)
      as (rp & _ & _ & Hreader & Hover & Hpush).
    destruct (hd_error _) as [rd|] eqn:Hhd.
    + rewrite (Hreader rd eq_refl). simpl. eexists _, _. split_and!; eauto.
    + destruct (Z_lt_le_dec (janet_q_count (items (channels vm chan)) + 1)
                  JANET_MAX_Q_CAPACITY) as [Hroom|Hfull].
      * destruct (Hpush eq_refl Hroom) as (it & _ & _ & Hcnt & _ & Hfree).
        rewrite (Hfree ltac:(lia)). simpl. eexists _, _. split_and!; eauto.
      * rewrite (Hover eq_refl Hfull). simpl. eexists _, _. split_and!; eauto.
  - destruct (Z.ltb_spec (janet_q_count (items (channels vm chan)))
                (limit (channels vm chan))); [lia|done].
Qed.

(** C4, the failing run.  Channel 0 has limit 0 and fiber 2 waits on it
    for a value ([ev/take]).  Fiber 1 calls [ev/select] with the single
    write clause [[ch 42]].  The first pass does not take the clause
    ([0 < 0] fails).  The second pass calls [janet_channel_push], which
    finds the live reader, hands it 42 and returns 0; the return value is
    dropped and the call suspends fiber 1.  No Pending of fiber 1 is on the
    channel, and only fiber 2 is in the run queue: the give of the select
    has happened, but nothing is left that would resume fiber 1 with
    [[:give ch]]. *)
Lemma cfun_channel_choice_lost_write :
  let vm := with_root_fiber (do_take (do_chan vm_init 0 0) 2 0) 1 in
  limit (channels vm 0) = 0 /\
  q_contents (read_pending (channels vm 0)) = [mkPending 2 0 JANET_CP_MODE_ITEM] /\
  choice_check vm [JTuple [JAbstract 0; JNumber 42]] = Some (vm, Return None) /\
  exists vm',
    cfun_channel_choice vm [JTuple [JAbstract 0; JNumber 42]] = Some (vm', Await) /\
    q_contents (write_pending (channels vm' 0)) = [] /\
    q_contents (read_pending (channels vm' 0)) = [] /\
    q_contents (items (channels vm' 0)) = [] /\
    q_contents (janet_vm_spawn vm') = [mkTask 2 (JNumber 42) JANET_SIGNAL_OK] /\
    ~ scheduled vm' 1.
Proof.
  split; [vm_compute; reflexivity|]. split; [vm_compute; reflexivity|].
  split; [vm_compute; reflexivity|].
  eexists. split; [vm_compute; reflexivity|].
  vm_compute. split_and!; try reflexivity. discriminate.
Qed.

(** The same slip on the read side: with the clauses [[ch 42]] and [ch] on
    an empty channel of limit 0, the second pass parks 42 and registers
    the write, then the read clause takes 42 back and schedules the caller
    with [[:give ch]]; no [CHOICE_READ] Pending is registered. *)
Example cfun_channel_choice_self_take :
  let vm := with_root_fiber (do_chan vm_init 0 0) 1 in
  exists vm',
    cfun_channel_choice vm [JTuple [JAbstract 0; JNumber 42]; JAbstract 0]
    = Some (vm', Await) /\
    q_contents (read_pending (channels vm' 0)) = [] /\
    q_contents (write_pending (channels vm' 0)) = [] /\
    q_contents (items (channels vm' 0)) = [] /\
    q_contents (janet_vm_spawn vm')
      = [mkTask 1 (make_write_result 0) JANET_SIGNAL_OK].
Proof.
  eexists. split; [vm_compute; reflexivity|]. vm_compute. done.
Qed.

End LoopFacts.

Module MarkingFacts.
Import RingQueue RingQueueFacts TimerHeap TimerHeapFacts Ev SchedulerFacts PollableFacts
       ChannelFacts Marking.

Lemma flat_map_cells {A B : Type} `{Inhabited A} (d : list A) (f : A -> list B) (n : nat) :
  forall lo, 0 <= lo -> (Z.to_nat lo + n <= length d)%nat ->
  flat_map (fun i => f (nth (Z.to_nat i) d junk)) (seqZ lo (Z.of_nat n))
  = flat_map f (take n (drop (Z.to_nat lo) d)).
Proof.
  induction n as [|n IH]; intros lo Hlo Hn; [done|].
  rewrite Nat2Z.inj_succ, seqZ_cons by lia. simpl.
  replace (Z.pred (Z.succ (Z.of_nat n))) with (Z.of_nat n) by lia.
  destruct (lookup_lt_is_Some_2 d (Z.to_nat lo)) as [x Hx]; [lia|].
  rewrite (drop_S _ _ _ Hx). simpl.
  rewrite (nth_lookup_Some _ _ _ _ Hx). f_equal.
  rewrite IH by lia.
  by replace (Z.to_nat (Z.succ lo)) with (S (Z.to_nat lo)) by lia.
Qed.

Lemma for_range_cells {A B : Type} `{Inhabited A} (d : list A) (f : A -> list B) lo hi :
  0 <= lo -> lo <= hi -> hi <= Z.of_nat (length d) ->
  for_range lo hi (fun i => f (nth (Z.to_nat i) d junk))
  = flat_map f (take (Z.to_nat (hi - lo)) (drop (Z.to_nat lo) d)).
Proof.
  intros Hlo Hle Hhi. unfold for_range.
  rewrite <- (Z2Nat.id (hi - lo)) at 1 by lia.
  apply flat_map_cells; lia.
Qed.

(** The two-segment walk over a ring visits the live cells in queue
    order. *)
Lemma ring_walk_contents {A B : Type} `{Inhabited A} (q : JanetQueue A) (f : A -> list B) :
  q_wf q ->
  (if head q <=? tail q then
     for_range (head q) (tail q) (fun i => f (nth (Z.to_nat i) (data q) junk))
   else
     for_range (head q) (capacity q) (fun i => f (nth (Z.to_nat i) (data q) junk))
     ++ for_range 0 (tail q) (fun i => f (nth (Z.to_nat i) (data q) junk)))
  = flat_map f (q_contents q).
Proof.
  intros (Hh & Ht & Hhc & Htc & Hc & Hl). unfold q_contents.
  destruct (Z.leb_spec (head q) (tail q)).
  - apply for_range_cells; lia.
  - rewrite flat_map_app. f_equal.
    + apply for_range_cells; lia.
    + rewrite for_range_cells by lia. by rewrite Z.sub_0_r.
Qed.

Lemma flat_map_singleton {A B} (f : A -> B) (l : list A) :
  flat_map (fun x => [f x]) l = f <$> l.
Proof. induction l as [|x l IH]; [done|]. csimpl. by rewrite IH. Qed.

Lemma janet_chanat_mark_fq_spec fq :
  q_wf fq ->
  janet_chanat_mark_fq fq = (fun p => JFiber (pending_fiber p)) <$> q_contents fq.
Proof.
  intros Hwf. rewrite <- flat_map_singleton.
  rewrite <- (ring_walk_contents fq (fun p => [JFiber (pending_fiber p)]) Hwf).
  reflexivity.
Qed.

(** X23.  The channel hook marks the fiber of every pending reader and writer
    and every queued item, and nothing else. *)
Theorem janet_chanat_mark_live vm ch :
  reachable vm ->
  let c := channels vm ch in
  janet_chanat_mark c
  = ((fun p => JFiber (pending_fiber p)) <$> q_contents (read_pending c))
    ++ ((fun p => JFiber (pending_fiber p)) <$> q_contents (write_pending c))
    ++ q_contents (items c).
Proof.
  intros Hr c. destruct (reachable_inv vm Hr) as (_ & _ & Hch).
  destruct (Hch ch) as (Hi & Hrp & Hwp & _). fold c in Hi, Hrp, Hwp.
  unfold janet_chanat_mark.
  rewrite !janet_chanat_mark_fq_spec by done. do 2 f_equal.
  rewrite <- (list_fmap_id (q_contents (items c))), <- flat_map_singleton.
  rewrite <- (ring_walk_contents (items c) (fun x => [id x]) Hi). reflexivity.
Qed.

Lemma janet_chanat_mark_live_witness :
  let vm := do_take (do_give (do_give (do_chan vm_init 0 0) 1 0 (JNumber 10))
                       2 0 (JNumber 20)) 3 0 in
  reachable vm /\
  janet_chanat_mark (channels vm 0) = [JFiber 2; JNumber 20].
Proof.
  intros vm.
  assert (Hr : reachable vm).
  { apply reachable_do_take, reachable_do_give, reachable_do_give, reachable_do_chan,
      reach_init. }
  split; [exact Hr|].
  rewrite (janet_chanat_mark_live vm 0 Hr). vm_compute. reflexivity.
Defined.

(** X24.  The loop hook marks the fiber and the value of every task of the run
    queue and the fiber of every timeout of the heap. *)
Theorem janet_ev_mark_live vm t :
  reachable vm -> heap_ok t ->
  janet_ev_mark vm t
  = flat_map (fun task => [JFiber (task_fiber task); task_value task])
             (q_contents (janet_vm_spawn vm))
    ++ ((fun to => JFiber (to_fiber to)) <$> tq_live t).
Proof.
  intros Hr (Hcnt & _ & _). destruct (reachable_inv vm Hr) as ((Hwf & _) & _).
  unfold janet_ev_mark. f_equal.
  - exact (ring_walk_contents (janet_vm_spawn vm)
             (fun task => [JFiber (task_fiber task); task_value task]) Hwf).
  - rewrite flat_map_singleton. unfold tq_live.
    apply list_eq. intros i. rewrite !list_lookup_fmap, lookup_take.
    case_decide as Hi.
    + rewrite lookup_seq_lt by done. simpl.
      destruct (lookup_lt_is_Some_2 (janet_vm_tq t) i) as [x Hx]; [lia|].
      rewrite Hx. simpl. by rewrite (list_lookup_total_correct _ _ _ Hx).
    + by rewrite lookup_seq_ge by lia.
Qed.

Lemma janet_ev_mark_live_witness :
  let vm := janet_cancel (janet_schedule vm_init 1 (JNumber 7)) 2 (JString "stop") in
  let t := mkTQ [mkTimeout 10 3 0 false; mkTimeout 30 4 0 true; mkTimeout 0 0 0 false;
                 mkTimeout 0 0 0 false] 2 4 in
  (reachable vm /\ heap_ok t) /\
  janet_ev_mark vm t
  = flat_map (fun task => [JFiber (task_fiber task); task_value task])
             (q_contents (janet_vm_spawn vm))
    ++ ((fun to => JFiber (to_fiber to)) <$> tq_live t).
Proof.
  intros vm t.
  assert (H1 : reachable vm) by apply reach_schedule, reach_schedule, reach_init.
  assert (H2 : heap_ok t).
  { split_and!; [simpl; lia|done|]. intros i Hi.
    assert (i = 1)%nat as -> by (simpl in Hi; lia). vm_compute. discriminate. }
  split; [by split|]. exact (janet_ev_mark_live vm t H1 H2).
Defined.

(** Two tasks are on the run queue and two timeouts in the heap, whose
    block has four cells. *)
Example janet_ev_mark_run :
  let vm := janet_cancel (janet_schedule vm_init 1 (JNumber 7)) 2 (JString "stop") in
  let t := mkTQ [mkTimeout 10 3 0 false; mkTimeout 30 4 0 true; mkTimeout 0 0 0 false;
                 mkTimeout 0 0 0 false] 2 4 in
  janet_ev_mark vm t
  = [JFiber 1; JNumber 7; JFiber 2; JString "stop"; JFiber 3; JFiber 4].
Proof. vm_compute. reflexivity. Qed.

Lemma pollable_mark_walk_elem l st f :
  st ∈ l -> state_fiber st = Some f -> JFiber f ∈ pollable_mark_walk l.
Proof.
  intros Hin Hf. induction l as [|s l IH]; [by apply elem_of_nil in Hin|].
  apply elem_of_cons in Hin as [<-|Hin].
  - simpl. rewrite Hf. by left.
  - simpl. destruct (state_fiber s); [right|]; by apply IH.
Qed.

Lemma pollable_mark_walk_only l x :
  x ∈ pollable_mark_walk l -> exists st f, st ∈ l /\ state_fiber st = Some f /\ x = JFiber f.
Proof.
  induction l as [|s l IH]; simpl; [by intros ?%elem_of_nil|].
  destruct (state_fiber s) as [f|] eqn:Hf.
  - intros [->|Hx]%elem_of_cons.
    + exists s, f. split_and!; [by left|done|done].
    + destruct (IH Hx) as (st & g & ? & ? & ?). exists st, g. split_and!; [by right|done|done].
  - intros Hx. destruct (IH Hx) as (st & g & ? & ? & ?). exists st, g.
    split_and!; [by right|done|done].
Qed.

(** X25.  Every fiber that waits on a listener is marked by [janet_pollable_mark]
    of the pollable the listener belongs to; and that hook marks the fibers
    of the listeners of its pollable only. *)
Theorem janet_pollable_mark_waiting vm :
  reachable vm ->
  (forall f st, waiting (fibers vm f) = Some st ->
     JFiber f ∈ janet_pollable_mark (pollables vm (state_pollable st))) /\
  (forall p x, x ∈ janet_pollable_mark (pollables vm p) ->
     exists st f, st ∈ pollable_state (pollables vm p) /\
                  state_fiber st = Some f /\ x = JFiber f).
Proof.
  intros Hr. destruct (reachable_inv vm Hr) as (_ & (_ & _ & _ & H4 & _) & _). split.
  - intros f st Hw. destruct (H4 f st Hw) as [Hli Hf].
    by apply (pollable_mark_walk_elem _ st).
  - intros p x. apply pollable_mark_walk_only.
Qed.

Lemma janet_pollable_mark_waiting_witness :
  let vm := do_listen (do_listen vm_init 1 0 16 100) 2 0 32 101 in
  reachable vm /\
  (forall f st, waiting (fibers vm f) = Some st ->
     JFiber f ∈ janet_pollable_mark (pollables vm (state_pollable st))) /\
  (forall p x, x ∈ janet_pollable_mark (pollables vm p) ->
     exists st f, st ∈ pollable_state (pollables vm p) /\
                  state_fiber st = Some f /\ x = JFiber f).
Proof.
  intros vm.
  assert (Hr : reachable vm).
  { apply reachable_do_listen; [apply reachable_do_listen; [apply reach_init|]|].
    - intros p st Hst. by apply elem_of_nil in Hst.
    - intros p st Hst. vm_compute in Hst.
      destruct p as [|p]; [|by apply elem_of_nil in Hst].
      apply list_elem_of_singleton in Hst as ->. vm_compute. discriminate. }
  split; [exact Hr|]. exact (janet_pollable_mark_waiting vm Hr).
Defined.
End MarkingFacts.

Module QueueBoundsFacts.
Import RingQueue RingQueueFacts.

Section Bounds.
Context {A : Type} `{Inhabited A}.

Lemma q_run_wf (ops : list (q_op A)) : q_wf (q_run ops janet_q_init).2.
Proof.
  destruct (q_run ops janet_q_init) as [evs q] eqn:E.
  by destruct (q_run_fifo ops janet_q_init evs q q_wf_init E).
Qed.

Lemma q_wf_empty (q : JanetQueue A) :
  q_wf q -> (head q = tail q <-> janet_q_count q = 0).
Proof.
  intros (Hh & Ht & Hhc & Htc & Hc & Hl). unfold janet_q_count.
  destruct (Z.gtb_spec (head q) (tail q)); lia.
Qed.

(** X1.  A queue that starts empty never holds more than
    [JANET_MAX_Q_CAPACITY - 1] items, whatever is pushed and popped:
    [janet_q_push] returns 1 exactly when that many are in the queue, and
    the capacity neither exceeds [JANET_MAX_Q_CAPACITY] nor ever shrinks. *)
Theorem janet_q_capacity_bound (ops : list (q_op A)) :
  let q := (q_run ops janet_q_init).2 in
  0 <= janet_q_count q <= JANET_MAX_Q_CAPACITY - 1 /\
  capacity q <= JANET_MAX_Q_CAPACITY /\
  (forall x, janet_q_push q x = None <-> janet_q_count q = JANET_MAX_Q_CAPACITY - 1) /\
  (forall x q', janet_q_push q x = Some q' ->
     capacity q <= capacity q' /\ janet_q_count q' = janet_q_count q + 1) /\
  (forall x q', janet_q_pop q = Some (x, q') ->
     capacity q' = capacity q /\ janet_q_count q' = janet_q_count q - 1).
Proof.
  intros q. pose proof (q_run_wf ops) as Hwf. fold q in Hwf.
  pose proof (janet_q_count_bounds q Hwf) as Hb.
  pose proof Hwf as (Hh & Ht & Hhc & Htc & Hc & Hl).
  assert (HM : 1 <= JANET_MAX_Q_CAPACITY) by (unfold JANET_MAX_Q_CAPACITY; lia).
  split_and!; try lia.
  - intros x. unfold janet_q_push.
    destruct (Z.geb_spec (janet_q_count q + 1) (capacity q)).
    + destruct (Z.geb_spec (janet_q_count q + 1) JANET_MAX_Q_CAPACITY); split; (done || lia).
    + split; [done|lia].
  - intros x q' Hp. pose proof (janet_q_push_spec q x Hwf) as Hs. rewrite Hp in Hs.
    destruct Hs as (Hroom & Hwf' & Hc').
    split.
    + unfold janet_q_push in Hp.
      destruct (Z.geb_spec (janet_q_count q + 1) (capacity q)).
      * destruct (Z.geb_spec (janet_q_count q + 1) JANET_MAX_Q_CAPACITY); [done|].
        injection Hp as <-. unfold q_store, q_resize.
        destruct (head q >? tail q); cbn [capacity];
          destruct (Z.gtb_spec ((janet_q_count q + 2) * 2) JANET_MAX_Q_CAPACITY); lia.
      * injection Hp as <-. unfold q_store. cbn [capacity]. lia.
    + rewrite (janet_q_count_contents q' Hwf'), Hc', length_app,
        (janet_q_count_contents q Hwf). simpl. lia.
  - intros x q' Hp. pose proof (janet_q_pop_spec q Hwf) as Hs. rewrite Hp in Hs.
    destruct Hs as [Hc' Hwf']. split.
    + unfold janet_q_pop in Hp. destruct (head q =? tail q); [done|].
      by injection Hp as _ <-.
    + rewrite (janet_q_count_contents q' Hwf'), (janet_q_count_contents q Hwf), Hc'.
      simpl. lia.
Qed.

(** X2.  The tests for an empty queue that the file uses agree on every queue
    that started empty: [head == tail] (the loop of [janet_loop1],
    [ev/select]), a count of 0, and [janet_q_pop] returning 1; and they hold
    exactly when every pushed item has been popped. *)
Theorem janet_q_empty_tests (ops : list (q_op A)) :
  let '(evs, q) := q_run ops janet_q_init in
  (head q = tail q <-> janet_q_count q = 0) /\
  (janet_q_pop q = None <-> janet_q_count q = 0) /\
  (janet_q_count q = 0 <-> pushed evs = popped evs).
Proof.
  destruct (q_run ops janet_q_init) as [evs q] eqn:E.
  destruct (q_run_fifo ops janet_q_init evs q q_wf_init E) as [Hwf Hfifo].
  pose proof (q_wf_empty q Hwf) as He.
  split_and!; [done| |].
  - unfold janet_q_pop. destruct (Z.eqb_spec (head q) (tail q)) as [Eq|Ne].
    + split; [intros _; by apply He|done].
    + split; [done|]. intros Hz. by apply He in Hz.
  - rewrite (janet_q_count_contents q Hwf).
    change (q_contents janet_q_init) with (@nil A) in Hfifo. simpl in Hfifo.
    rewrite Hfifo. split.
    + intros Hz. destruct (q_contents q); [by rewrite app_nil_r|simpl in Hz; lia].
    + intros Heq.
      assert (q_contents q = []) as -> by (apply (app_inv_head (popped evs)); by rewrite app_nil_r).
      done.
Qed.

End Bounds.

End QueueBoundsFacts.

Module TimersFacts.
Import RingQueue RingQueueFacts TimerHeap TimerHeapFacts Ev SchedulerFacts PollableFacts
       ChannelFacts Timers.

Lemma peek_timeout_spec t :
  peek_timeout t = if decide (janet_vm_tq_count t = 0%nat) then None
                   else Some (janet_vm_tq t !!! 0%nat).
Proof. unfold peek_timeout. case_decide; destruct (Nat.eqb_spec (janet_vm_tq_count t) 0); done. Qed.

Lemma tq_live_root t :
  heap_ok t -> (0 < janet_vm_tq_count t)%nat -> janet_vm_tq t !!! 0%nat ∈ tq_live t.
Proof.
  intros (Hc & _) Hpos. unfold tq_live.
  destruct (lookup_lt_is_Some_2 (janet_vm_tq t) 0) as [x Hx]; [lia|].
  rewrite (list_lookup_total_correct _ _ _ Hx).
  apply (list_elem_of_lookup_2 _ 0%nat). rewrite lookup_take. by case_decide; [|lia].
Qed.

Lemma tq_live_empty t : janet_vm_tq_count t = 0%nat -> tq_live t = [].
Proof. intros E. unfold tq_live. by rewrite E. Qed.

(** The loop removes the timeouts in heap order until the root is in the
    future. *)
Lemma expire_timers_spec fuel now : forall vm t,
  heap_ok t -> (janet_vm_tq_count t < fuel)%nat ->
  exists t' fired,
    expire_timers fuel now vm t = Some (foldl timeout_fire vm fired, t') /\
    heap_ok t' /\
    tq_live t ≡ₚ fired ++ tq_live t' /\
    Forall (fun to => when to <= now) fired /\
    Forall (fun to => now < when to) (tq_live t').
Proof.
  induction fuel as [|fuel IH]; intros vm t Hok Hlt; [lia|].
  simpl. rewrite peek_timeout_spec. case_decide as Hcnt.
  - exists t, []. split_and!; try done. by rewrite tq_live_empty.
  - destruct (Z.leb_spec (when (janet_vm_tq t !!! 0%nat)) now) as [Hle|Hgt].
    + destruct (pop_timeout_spec t Hok) as (t1 & Hpop & Hok1 & Hc1 & Hperm); [lia|].
      rewrite Hpop. simpl.
      destruct (IH (timeout_fire vm (janet_vm_tq t !!! 0%nat)) t1 Hok1)
        as (t' & fired & Hrun & Hok' & Hperm' & Hf & Hl); [lia|].
      exists t', (janet_vm_tq t !!! 0%nat :: fired). split_and!; try done.
      * rewrite Hperm, Hperm'. done.
      * by constructor.
    + exists t, []. split_and!; try done.
      apply Forall_forall. intros x Hx.
      pose proof (root_min_live t x Hok Hx) as Hmin. unfold key in Hmin. lia.
Qed.

(** *** One timeout *)

Lemma scheduled_dec vm f : {scheduled vm f} + {~ scheduled vm f}.
Proof. unfold scheduled. destruct (has_bits _ _); [by left|by right]. Qed.

Lemma janet_schedule_signal_sets vm f v sig :
  scheduled (janet_schedule_signal vm f v sig) f.
Proof.
  destruct (scheduled_dec vm f) as [Hs|Hs].
  - by rewrite janet_schedule_signal_noop.
  - rewrite janet_schedule_signal_fresh by done. unfold scheduled. simpl.
    rewrite fn_lookup_insert. simpl. apply has_bits_set, scheduled_nonzero.
Qed.

Lemma janet_schedule_signal_mono vm f v sig g :
  scheduled vm g -> scheduled (janet_schedule_signal vm f v sig) g.
Proof.
  intros Hg. destruct (decide (g = f)) as [->|Hne].
  - apply janet_schedule_signal_sets.
  - destruct (janet_schedule_signal_frame vm f v sig) as (_ & _ & _ & _ & _ & Hfr).
    unfold scheduled. by rewrite Hfr.
Qed.

(** The run queue only grows at the back, by at most one task. *)
Lemma janet_schedule_signal_spawn vm f v sig :
  q_wf (janet_vm_spawn vm) ->
  let vm' := janet_schedule_signal vm f v sig in
  q_wf (janet_vm_spawn vm') /\
  (exists suf, q_contents (janet_vm_spawn vm') = q_contents (janet_vm_spawn vm) ++ suf /\
               (length suf <= 1)%nat) /\
  (~ scheduled vm f -> janet_q_count (janet_vm_spawn vm) + 1 < JANET_MAX_Q_CAPACITY ->
   q_contents (janet_vm_spawn vm') = q_contents (janet_vm_spawn vm) ++ [mkTask f v sig]).
Proof.
  intros Hwf vm'. subst vm'.
  destruct (scheduled_dec vm f) as [Hs|Hs].
  - rewrite janet_schedule_signal_noop by done. split_and!; [done| |done].
    exists []. split; [by rewrite app_nil_r|simpl; lia].
  - rewrite janet_schedule_signal_fresh by done. simpl.
    destruct (q_push_ignore_spec (janet_vm_spawn vm) (mkTask f v sig) Hwf)
      as (Hwf' & Hroom & Hfull).
    split_and!; [done| |by intros _ ?; apply Hroom].
    destruct (Z_lt_le_dec (janet_q_count (janet_vm_spawn vm) + 1) JANET_MAX_Q_CAPACITY).
    + exists [mkTask f v sig]. split; [by apply Hroom|simpl; lia].
    + exists []. rewrite Hfull by done. split; [by rewrite app_nil_r|simpl; lia].
Qed.

Lemma timeout_fire_stale vm to : stale_timeout vm to -> timeout_fire vm to = vm.
Proof.
  unfold stale_timeout, timeout_fire. intros Hs.
  by destruct (Z.eqb_spec (sched_id (fibers vm (to_fiber to))) (to_sched_id to)).
Qed.


Lemma timeout_fire_live vm to :
  sched_id (fibers vm (to_fiber to)) = to_sched_id to ->
  scheduled (timeout_fire vm to) (to_fiber to) /\
  (q_wf (janet_vm_spawn vm) -> ~ scheduled vm (to_fiber to) ->
   janet_q_count (janet_vm_spawn vm) + 1 < JANET_MAX_Q_CAPACITY ->
   q_contents (janet_vm_spawn (timeout_fire vm to))
   = q_contents (janet_vm_spawn vm) ++ [timeout_task to]).
Proof.
  intros Hid. unfold timeout_fire, timeout_task, janet_cancel, janet_schedule.
  rewrite Hid, Z.eqb_refl. destruct (is_error to).
  - split; [apply janet_schedule_signal_sets|]. intros Hwf Hs Hroom.
    by apply janet_schedule_signal_spawn.
  - split; [apply janet_schedule_signal_sets|]. intros Hwf Hs Hroom.
    by apply janet_schedule_signal_spawn.
Qed.

Lemma timeout_fire_mono vm to g :
  scheduled vm g -> scheduled (timeout_fire vm to) g.
Proof.
  intros Hg. unfold timeout_fire, janet_cancel, janet_schedule.
  repeat case_match; try done; by apply janet_schedule_signal_mono.
Qed.

Lemma timeout_fire_other vm to g :
  g <> to_fiber to -> fibers (timeout_fire vm to) g = fibers vm g.
Proof.
  intros Hg. unfold timeout_fire, janet_cancel, janet_schedule.
  repeat case_match; try done; by apply janet_schedule_signal_frame.
Qed.

(** *** A sequence of timeouts *)

Lemma fold_fire_mono l : forall vm g,
  scheduled vm g -> scheduled (foldl timeout_fire vm l) g.
Proof.
  induction l as [|to l IH]; intros vm g Hg; [done|]. simpl.
  by apply IH, timeout_fire_mono.
Qed.


Lemma fold_fire_other l f : forall vm,
  (forall to, to ∈ l -> to_fiber to <> f) ->
  fibers (foldl timeout_fire vm l) f = fibers vm f.
Proof.
  induction l as [|to l IH]; intros vm Hl; [done|]. simpl.
  rewrite IH by (intros; apply Hl; by right).
  apply timeout_fire_other. intros ->. by eapply Hl; [left|].
Qed.

(** Whoever owns a timeout of the sequence that is not stale at the start
    is scheduled at the end. *)
Lemma fold_fire_scheduled l : forall vm to,
  to ∈ l ->
  scheduled vm (to_fiber to) \/ sched_id (fibers vm (to_fiber to)) = to_sched_id to ->
  scheduled (foldl timeout_fire vm l) (to_fiber to).
Proof.
  induction l as [|x l IH]; intros vm to Hin HP; [by apply elem_of_nil in Hin|].
  simpl. apply elem_of_cons in Hin as [->|Hin].
  - apply fold_fire_mono. destruct HP as [Hs|Hid].
    + by apply timeout_fire_mono.
    + by apply timeout_fire_live.
  - apply IH; [done|].
    destruct HP as [Hs|Hid].
    + left. by apply timeout_fire_mono.
    + destruct (decide (to_fiber x = to_fiber to)) as [E|Hne].
      * destruct (Z.eq_dec (sched_id (fibers vm (to_fiber x))) (to_sched_id x)) as [Ex|Nx].
        -- left. rewrite <- E. by apply timeout_fire_live.
        -- right. by rewrite timeout_fire_stale.
      * right. by rewrite timeout_fire_other.
Qed.


Lemma filter_none {A} (P : A -> Prop) `{forall x, Decision (P x)} (l : list A) :
  Forall (fun x => ~ P x) l -> filter P l = [].
Proof.
  induction 1 as [|x l Hx _ IH]; [done|]. by rewrite filter_cons_False.
Qed.

Lemma filter_all {A} (P : A -> Prop) `{forall x, Decision (P x)} (l : list A) :
  Forall P l -> filter P l = l.
Proof.
  induction 1 as [|x l Hx _ IH]; [done|]. rewrite filter_cons_True by done. by rewrite IH.
Qed.


Lemma fold_fire_all_stale l : forall vm,
  Forall (stale_timeout vm) l -> foldl timeout_fire vm l = vm.
Proof.
  induction l as [|to l IH]; intros vm Hl; [done|].
  apply Forall_cons in Hl as [Hto Hl]. simpl.
  rewrite timeout_fire_stale by done. by apply IH.
Qed.


(** X4.  [janet_loop1], "Schedule expired timers": the loop ends; it removes
    exactly the timeouts that are due, every fiber that owns a due timeout
    which is not stale is scheduled when the loop ends, and stale timeouts
    are dropped without any effect. *)
Theorem janet_loop1_expire_timers now vm t :
  heap_ok t ->
  exists vm' t',
    expire_timers (S (janet_vm_tq_count t)) now vm t = Some (vm', t') /\
    heap_ok t' /\
    tq_live t' ≡ₚ filter (fun to => now < when to) (tq_live t) /\
    (forall to, to ∈ tq_live t -> when to <= now ->
       sched_id (fibers vm (to_fiber to)) = to_sched_id to ->
       scheduled vm' (to_fiber to)) /\
    (forall g, scheduled vm g -> scheduled vm' g) /\
    ((forall to, to ∈ tq_live t -> when to <= now -> stale_timeout vm to) -> vm' = vm).
Proof.
  intros Hok.
  destruct (expire_timers_spec (S (janet_vm_tq_count t)) now vm t Hok)
    as (t' & fired & Hrun & Hok' & Hperm & Hf & Hl); [lia|].
  exists (foldl timeout_fire vm fired), t'.
  assert (Hin : forall to, to ∈ tq_live t -> when to <= now -> to ∈ fired).
  { intros to Hto Hle. rewrite Hperm in Hto. apply elem_of_app in Hto as [?|Hto]; [done|].
    rewrite Forall_forall in Hl. specialize (Hl _ Hto). lia. }
  split_and!; try done.
  - rewrite Hperm, filter_app, filter_none, filter_all; [done|done|].
    eapply Forall_impl; [exact Hf|]. simpl. lia.
  - intros to Hto Hle Hid. apply fold_fire_scheduled; [by apply Hin|by right].
  - intros g. apply fold_fire_mono.
  - intros Hst. apply fold_fire_all_stale, Forall_forall. intros to Hto.
    rewrite Forall_forall in Hf. apply Hst; [|by apply Hf].
    rewrite Hperm. apply elem_of_app. by left.
Qed.

Lemma janet_loop1_expire_timers_witness :
  let t := mkTQ [mkTimeout 10 1 0 false; mkTimeout 30 2 0 true; mkTimeout 20 3 7 true] 3 3 in
  let vm := vm_init in
  let now := 25 in
  heap_ok t /\
  exists vm' t',
    expire_timers (S (janet_vm_tq_count t)) now vm t = Some (vm', t') /\
    heap_ok t' /\
    tq_live t' ≡ₚ filter (fun to => now < when to) (tq_live t) /\
    (forall to, to ∈ tq_live t -> when to <= now ->
       sched_id (fibers vm (to_fiber to)) = to_sched_id to ->
       scheduled vm' (to_fiber to)) /\
    (forall g, scheduled vm g -> scheduled vm' g) /\
    ((forall to, to ∈ tq_live t -> when to <= now -> stale_timeout vm to) -> vm' = vm).
Proof.
  intros t vm now.
  assert (Hok : heap_ok t).
  { split_and!; [simpl; lia|done|]. intros i Hi.
    assert (i = 1 \/ i = 2)%nat as [-> | ->] by (simpl in Hi; lia); vm_compute; discriminate. }
  split; [exact Hok|]. exact (janet_loop1_expire_timers now vm t Hok).
Defined.

(** Three timeouts, due at 10, 30 and 20; the one due at 20 is stale.  At
    time 25 the loop removes the first and the third, schedules fiber 1
    with [nil] and leaves fiber 3 alone. *)
Example janet_loop1_expire_timers_run :
  let t := mkTQ [mkTimeout 10 1 0 false; mkTimeout 30 2 0 true; mkTimeout 20 3 7 true] 3 3 in
  exists vm' t',
    expire_timers 4 25 vm_init t = Some (vm', t') /\
    tq_live t' = [mkTimeout 30 2 0 true] /\
    q_contents (janet_vm_spawn vm') = [mkTask 1 JNil JANET_SIGNAL_OK] /\
    sched_id (fibers vm' 3) = 0.
Proof. eexists _, _. split; [reflexivity|]. vm_compute. done. Qed.

(** *** Sleeping and timing out *)





(** Fiber 4 sleeps until 50 while fiber 5 is on the run queue; at time 60
    the timer loop appends the task that resumes fiber 4 with [nil]. *)
Example cfun_ev_sleep_run :
  let vm := janet_schedule (with_root_fiber vm_init 4) 5 (JNumber 1) in
  exists t1 vm' t',
    cfun_ev_sleep vm tq_init 50 [JNumber 1] = Some (t1, Await) /\
    expire_timers 2 60 vm t1 = Some (vm', t') /\
    janet_vm_tq_count t' = 0%nat /\
    q_contents (janet_vm_spawn vm')
    = [mkTask 5 (JNumber 1) JANET_SIGNAL_OK; mkTask 4 JNil JANET_SIGNAL_OK].
Proof. eexists _, _, _. split; [reflexivity|]. split; [reflexivity|]. vm_compute. done. Qed.



(** *** Timeouts that lose the race *)

Lemma wrap32_succ_ne s : 0 <= s < 2^32 -> wrap32 (s + 1) <> s.
Proof.
  intros Hs. unfold wrap32.
  destruct (decide (s + 1 < 2^32)).
  - rewrite Z.mod_small by lia. lia.
  - replace (s + 1) with (2^32) by lia. rewrite Z.mod_same by lia. lia.
Qed.

(** X7.  A timeout of [janet_addtimeout] or [ev/sleep] carries the [sched_id]
    its fiber has at that moment.  As soon as the fiber is scheduled by
    anything else the timeout is stale: when the loop removes it from the
    heap, before or after the fiber has run, nothing happens. *)
Theorem timeout_disarmed_by_schedule vm t ts n v sig :
  heap_ok t -> (Z.of_nat (janet_vm_tq_count t) + 1 < 2^31) ->
  ~ scheduled vm (janet_vm_root_fiber vm) ->
  0 <= sched_id (fibers vm (janet_vm_root_fiber vm)) < 2^32 ->
  let f := janet_vm_root_fiber vm in
  let vm1 := janet_schedule_signal vm f v sig in
  let vm2 := run_one_enter vm1 f in
  (exists t1 to,
     janet_addtimeout vm t ts = Some t1 /\ to ∈ tq_live t1 /\
     to_fiber to = f /\ is_error to = true /\
     timeout_fire vm1 to = vm1 /\ timeout_fire vm2 to = vm2) /\
  (exists t1 to,
     cfun_ev_sleep vm t ts [JNumber n] = Some (t1, Await) /\ to ∈ tq_live t1 /\
     to_fiber to = f /\ is_error to = false /\
     timeout_fire vm1 to = vm1 /\ timeout_fire vm2 to = vm2).
Proof.
  intros Hok Hcnt Hns Hrange f vm1 vm2.
  assert (Hst : forall e, let to := mkTimeout ts f (sched_id (fibers vm f)) e in
            timeout_fire vm1 to = vm1 /\ timeout_fire vm2 to = vm2).
  { intros e to.
    assert (H1 : sched_id (fibers vm1 f) = wrap32 (sched_id (fibers vm f) + 1)).
    { subst vm1. rewrite janet_schedule_signal_fresh by done. simpl.
      by rewrite fn_lookup_insert. }
    assert (H2 : sched_id (fibers vm2 f) = sched_id (fibers vm1 f)).
    { subst vm2. unfold run_one_enter, with_fibers. simpl. by rewrite fn_lookup_insert. }
    pose proof (wrap32_succ_ne _ Hrange) as Hne.
    fold f in Hne. subst to.
    split; apply timeout_fire_stale; unfold stale_timeout; cbn [to_fiber to_sched_id];
      congruence. }
  split.
  - destruct (add_timeout_spec t (mkTimeout ts f (sched_id (fibers vm f)) true) Hok Hcnt)
      as (t1 & Hadd & _ & _ & Hperm).
    exists t1, (mkTimeout ts f (sched_id (fibers vm f)) true).
    split_and!; try done; [by rewrite Hperm; left|apply Hst..].
  - destruct (add_timeout_spec t (mkTimeout ts f (sched_id (fibers vm f)) false) Hok Hcnt)
      as (t1 & Hadd & _ & _ & Hperm).
    exists t1, (mkTimeout ts f (sched_id (fibers vm f)) false).
    split_and!; try done; [|by rewrite Hperm; left|apply Hst..].
    unfold cfun_ev_sleep. fold f. by rewrite Hadd.
Qed.

Lemma timeout_disarmed_by_schedule_witness :
  let vm := with_root_fiber vm_init 4 in
  let t := tq_init in
  let ts := 50 in
  let n := 1 in
  let v := JNumber 9 in
  let sig := JANET_SIGNAL_OK in
  (heap_ok t /\ (Z.of_nat (janet_vm_tq_count t) + 1 < 2^31) /\
   ~ scheduled vm (janet_vm_root_fiber vm) /\
   0 <= sched_id (fibers vm (janet_vm_root_fiber vm)) < 2^32) /\
  let f := janet_vm_root_fiber vm in
  let vm1 := janet_schedule_signal vm f v sig in
  let vm2 := run_one_enter vm1 f in
  (exists t1 to,
     janet_addtimeout vm t ts = Some t1 /\ to ∈ tq_live t1 /\
     to_fiber to = f /\ is_error to = true /\
     timeout_fire vm1 to = vm1 /\ timeout_fire vm2 to = vm2) /\
  (exists t1 to,
     cfun_ev_sleep vm t ts [JNumber n] = Some (t1, Await) /\ to ∈ tq_live t1 /\
     to_fiber to = f /\ is_error to = false /\
     timeout_fire vm1 to = vm1 /\ timeout_fire vm2 to = vm2).
Proof.
  intros vm t ts n v sig.
  assert (H1 : heap_ok t) by apply heap_ok_init.
  assert (H2 : Z.of_nat (janet_vm_tq_count t) + 1 < 2^31) by (vm_compute; reflexivity).
  assert (H3 : ~ scheduled vm (janet_vm_root_fiber vm)) by (vm_compute; discriminate).
  assert (H4 : 0 <= sched_id (fibers vm (janet_vm_root_fiber vm)) < 2^32)
    by (vm_compute; split; [discriminate|reflexivity]).
  split; [by split_and!|].
  exact (timeout_disarmed_by_schedule vm t ts n v sig H1 H2 H3 H4).
Defined.

(** *** The timeout handed to the poll *)

Lemma drop_stale_spec fuel vm : forall t w,
  heap_ok t -> (janet_vm_tq_count t < fuel)%nat ->
  exists t' has w' dropped,
    drop_stale fuel vm t w = Some (t', has, w') /\
    heap_ok t' /\
    tq_live t ≡ₚ dropped ++ tq_live t' /\
    Forall (stale_timeout vm) dropped /\
    (if has
     then exists to, peek_timeout t' = Some to /\ w' = when to /\
                     ~ stale_timeout vm to /\ to ∈ tq_live t' /\
                     forall x, x ∈ tq_live t' -> when to <= when x
     else janet_vm_tq_count t' = 0%nat).
Proof.
  induction fuel as [|fuel IH]; intros t w Hok Hlt; [lia|].
  simpl. rewrite peek_timeout_spec. case_decide as Hcnt.
  - exists t, false, w, []. split_and!; done.
  - set (to := janet_vm_tq t !!! 0%nat).
    destruct (Z.eqb_spec (sched_id (fibers vm (to_fiber to))) (to_sched_id to)) as [E|N]; simpl.
    + exists t, true, (when to), []. split_and!; try done.
      exists to. rewrite peek_timeout_spec. case_decide; [done|].
      split_and!; try done.
      * unfold stale_timeout. by intros ?.
      * apply tq_live_root; [done|lia].
      * intros x Hx. apply (root_min_live t x Hok Hx).
    + destruct (pop_timeout_spec t Hok) as (t1 & Hpop & Hok1 & Hc1 & Hperm); [lia|].
      rewrite Hpop. simpl.
      destruct (IH t1 (when to) Hok1) as (t' & has & w' & dropped & Hrun & Hok' & Hperm' & Hd & Hres);
        [lia|].
      exists t', has, w', (to :: dropped). split_and!; try done.
      * rewrite Hperm, Hperm'. done.
      * by constructor.
Qed.

(** X8.  [janet_loop1], "Drop timeouts that are no longer needed": the loop
    ends and only removes stale timeouts.  If it reports a timeout, that is
    the root of the heap, it is not stale and no timeout left in the heap
    is due earlier; if it reports none, the heap is empty. *)
Theorem janet_loop1_poll_timeout vm t :
  heap_ok t ->
  exists t' has w dropped,
    drop_stale (S (janet_vm_tq_count t)) vm t 0 = Some (t', has, w) /\
    heap_ok t' /\
    tq_live t ≡ₚ dropped ++ tq_live t' /\
    Forall (stale_timeout vm) dropped /\
    (has = true ->
       exists to, peek_timeout t' = Some to /\ w = when to /\
                  sched_id (fibers vm (to_fiber to)) = to_sched_id to /\
                  forall x, x ∈ tq_live t' -> w <= when x) /\
    (has = false -> tq_live t' = []).
Proof.
  intros Hok.
  destruct (drop_stale_spec (S (janet_vm_tq_count t)) vm t 0 Hok)
    as (t' & has & w & dropped & Hrun & Hok' & Hperm & Hd & Hres); [lia|].
  exists t', has, w, dropped. split_and!; try done.
  - intros ->. destruct Hres as (to & Hp & -> & Hns & _ & Hmin).
    exists to. split_and!; try done.
    unfold stale_timeout in Hns. by destruct (Z.eq_dec (sched_id (fibers vm (to_fiber to)))
                                                (to_sched_id to)).
  - intros ->. by apply tq_live_empty.
Qed.

Lemma janet_loop1_poll_timeout_witness :
  let t := mkTQ [mkTimeout 10 1 3 false; mkTimeout 30 2 0 true; mkTimeout 20 3 0 true] 3 3 in
  let vm := vm_init in
  heap_ok t /\
  exists t' has w dropped,
    drop_stale (S (janet_vm_tq_count t)) vm t 0 = Some (t', has, w) /\
    heap_ok t' /\
    tq_live t ≡ₚ dropped ++ tq_live t' /\
    Forall (stale_timeout vm) dropped /\
    (has = true ->
       exists to, peek_timeout t' = Some to /\ w = when to /\
                  sched_id (fibers vm (to_fiber to)) = to_sched_id to /\
                  forall x, x ∈ tq_live t' -> w <= when x) /\
    (has = false -> tq_live t' = []).
Proof.
  intros t vm.
  assert (Hok : heap_ok t).
  { split_and!; [simpl; lia|done|]. intros i Hi.
    assert (i = 1 \/ i = 2)%nat as [-> | ->] by (simpl in Hi; lia); vm_compute; discriminate. }
  split; [exact Hok|]. exact (janet_loop1_poll_timeout vm t Hok).
Defined.

(** The root (due at 10) is stale and is dropped; the poll gets the
    timeout due at 20. *)
Example janet_loop1_poll_timeout_run :
  let t := mkTQ [mkTimeout 10 1 3 false; mkTimeout 30 2 0 true; mkTimeout 20 3 0 true] 3 3 in
  exists t', drop_stale 4 vm_init t 0 = Some (t', true, 20) /\
             tq_live t' = [mkTimeout 20 3 0 true; mkTimeout 30 2 0 true].
Proof. eexists. split; reflexivity. Qed.

(** *** Heap sort *)

Lemma tq_run_adds tos : forall t,
  heap_ok t ->
  (Z.of_nat (janet_vm_tq_count t) + Z.of_nat (length tos) < 2^31) ->
  exists t', tq_run (Add <$> tos) t = Some t' /\ heap_ok t' /\
             janet_vm_tq_count t' = (janet_vm_tq_count t + length tos)%nat /\
             tq_live t' ≡ₚ tos ++ tq_live t.
Proof.
  induction tos as [|to tos IH]; intros t Hok Hlen.
  - exists t. split_and!; try done; simpl; lia.
  - simpl in Hlen. destruct (add_timeout_spec t to Hok) as (t1 & Hadd & Hok1 & Hc1 & Hperm); [lia|].
    destruct (IH t1 Hok1) as (t' & Hrun & Hok' & Hc' & Hperm'); [lia|].
    exists t'. csimpl. rewrite Hadd. simpl. split_and!; try done.
    + rewrite Hc', Hc1. simpl. lia.
    + rewrite Hperm', Hperm. by rewrite Permutation_middle.
Qed.

(** X3.  Timeouts put into the empty heap with [add_timeout] come out again,
    each exactly once and earliest first, when the root is removed
    ([peek_timeout], [pop_timeout(0)]) as often as timeouts were added. *)
Theorem timer_heap_round_trip (tos : list JanetTimeout) :
  (Z.of_nat (length tos) < 2^31) ->
  exists t l,
    tq_run (Add <$> tos) tq_init = Some t /\
    janet_vm_tq_count t = length tos /\
    drain (length tos) t = Some l /\
    l ≡ₚ tos /\
    StronglySorted when_le l.
Proof.
  intros Hlen.
  destruct (tq_run_adds tos tq_init heap_ok_init) as (t & Hrun & Hok & Hc & Hperm);
    [simpl; lia|].
  destruct (drain_sorted (length tos) t Hok) as (l & Hd & Hs & _ & Hall).
  exists t, l. simpl in Hc. split_and!; try done.
  rewrite Hall by lia. rewrite Hperm. simpl. by rewrite app_nil_r.
Qed.

Lemma timer_heap_round_trip_witness :
  let tos := [mkTimeout 30 1 0 false; mkTimeout 10 2 0 true; mkTimeout 20 3 0 false;
              mkTimeout 10 4 0 false] in
  (Z.of_nat (length tos) < 2^31) /\
  exists t l,
    tq_run (Add <$> tos) tq_init = Some t /\
    janet_vm_tq_count t = length tos /\
    drain (length tos) t = Some l /\
    l ≡ₚ tos /\
    StronglySorted when_le l.
Proof.
  intros tos.
  assert (H : Z.of_nat (length tos) < 2^31) by (vm_compute; reflexivity).
  split; [exact H|]. exact (timer_heap_round_trip tos H).
Defined.


(** *** Running the scheduled fibers *)

Lemma run_scheduled_quiet fuel k : forall vm,
  (forall vm f v sig, janet_vm_spawn (k vm f v sig).1 = janet_vm_spawn vm) ->
  q_wf (janet_vm_spawn vm) ->
  (length (q_contents (janet_vm_spawn vm)) < fuel)%nat ->
  exists vm',
    run_scheduled fuel k vm = Some (vm', q_contents (janet_vm_spawn vm)) /\
    q_contents (janet_vm_spawn vm') = [] /\
    head (janet_vm_spawn vm') = tail (janet_vm_spawn vm').
Proof.
  induction fuel as [|fuel IH]; intros vm Hk Hwf Hlen; [lia|].
  cbn [run_scheduled]. unfold janet_q_pop.
  pose proof (janet_q_pop_spec _ Hwf) as Hp. unfold janet_q_pop in Hp.
  destruct (Z.eqb_spec (head (janet_vm_spawn vm)) (tail (janet_vm_spawn vm))) as [E|N].
  - cbn [negb]. exists vm. by rewrite Hp.
  - cbn [negb]. destruct Hp as [Hc Hwf'].
    set (q := mkQ _ _ _ _) in *. set (task := nth _ _ _) in *.
    set (vm1 := run_one k (with_spawn vm q) (task_fiber task) (task_value task)
                  (task_sig task)).
    assert (Hq1 : janet_vm_spawn vm1 = q).
    { unfold vm1, run_one.
      destruct (k (run_one_enter (with_spawn vm q) (task_fiber task)) (task_fiber task)
                  (task_value task) (task_sig task)) as [vm2 sg] eqn:Ek.
      change vm2 with (vm2, sg).1. rewrite <- Ek. by rewrite Hk. }
    destruct (IH vm1 Hk) as (vm' & Hrun & Hemp & Hht).
    + by rewrite Hq1.
    + rewrite Hq1. rewrite Hc in Hlen. simpl in Hlen. lia.
    + exists vm'. fold vm1. rewrite Hrun, Hq1, Hc. done.
Qed.

(** X28.  [janet_loop1], "Run scheduled fibers": when the fibers it resumes
    schedule nothing, the loop hands the tasks of the run queue to
    [run_one] in the order in which they were scheduled, each once, and ends
    with the run queue empty. *)
Theorem janet_loop1_run_fifo k vm :
  reachable vm ->
  (forall vm f v sig, janet_vm_spawn (k vm f v sig).1 = janet_vm_spawn vm) ->
  exists vm',
    run_scheduled (S (length (q_contents (janet_vm_spawn vm)))) k vm
    = Some (vm', q_contents (janet_vm_spawn vm)) /\
    q_contents (janet_vm_spawn vm') = [] /\
    head (janet_vm_spawn vm') = tail (janet_vm_spawn vm') /\
    forall f1 v1 f2 v2,
      ~ scheduled vm f1 -> ~ scheduled vm f2 -> f1 <> f2 ->
      janet_q_count (janet_vm_spawn vm) + 2 < JANET_MAX_Q_CAPACITY ->
      let vm2 := janet_cancel (janet_schedule vm f1 v1) f2 v2 in
      exists vm2',
        run_scheduled (S (length (q_contents (janet_vm_spawn vm2)))) k vm2
        = Some (vm2', q_contents (janet_vm_spawn vm)
                      ++ [mkTask f1 v1 JANET_SIGNAL_OK; mkTask f2 v2 JANET_SIGNAL_ERROR]).
Proof.
  intros Hr Hk. destruct (reachable_inv vm Hr) as ((Hwf & _) & _).
  destruct (run_scheduled_quiet (S (length (q_contents (janet_vm_spawn vm)))) k vm Hk Hwf)
    as (vm' & Hrun & Hemp & Hht); [lia|].
  exists vm'. split_and!; try done.
  intros f1 v1 f2 v2 Hn1 Hn2 Hne Hroom vm2.
  unfold janet_cancel, janet_schedule in vm2.
  set (vm1 := janet_schedule_signal vm f1 v1 JANET_SIGNAL_OK) in *.
  destruct (janet_schedule_signal_spawn vm f1 v1 JANET_SIGNAL_OK Hwf) as (Hwf1 & _ & Hc1).
  specialize (Hc1 Hn1 ltac:(lia)). fold vm1 in Hwf1, Hc1.
  destruct (janet_schedule_signal_spawn vm1 f2 v2 JANET_SIGNAL_ERROR Hwf1)
    as (Hwf2 & _ & Hc2).
  assert (Hn2' : ~ scheduled vm1 f2).
  { unfold scheduled, vm1.
    destruct (janet_schedule_signal_frame vm f1 v1 JANET_SIGNAL_OK) as (_ & _ & _ & _ & _ & Hfr).
    by rewrite Hfr. }
  specialize (Hc2 Hn2').
  rewrite (janet_q_count_contents _ Hwf1), Hc1, length_app in Hc2.
  rewrite (janet_q_count_contents _ Hwf) in Hroom. specialize (Hc2 ltac:(simpl; lia)).
  fold vm2 in Hwf2, Hc2.
  destruct (run_scheduled_quiet (S (length (q_contents (janet_vm_spawn vm2)))) k vm2 Hk Hwf2)
    as (vm2' & Hrun2 & _); [lia|].
  exists vm2'. rewrite Hrun2, Hc2, <- app_assoc. done.
Qed.

Lemma janet_loop1_run_fifo_witness :
  let k := fun (vm : VM) (f : nat) (v : Janet) (sig : JanetSignal) => (vm, JANET_SIGNAL_EVENT) in
  let vm := janet_schedule vm_init 1 (JNumber 7) in
  (reachable vm /\
   (forall vm f v sig, janet_vm_spawn (k vm f v sig).1 = janet_vm_spawn vm)) /\
  exists vm',
    run_scheduled (S (length (q_contents (janet_vm_spawn vm)))) k vm
    = Some (vm', q_contents (janet_vm_spawn vm)) /\
    q_contents (janet_vm_spawn vm') = [] /\
    head (janet_vm_spawn vm') = tail (janet_vm_spawn vm') /\
    forall f1 v1 f2 v2,
      ~ scheduled vm f1 -> ~ scheduled vm f2 -> f1 <> f2 ->
      janet_q_count (janet_vm_spawn vm) + 2 < JANET_MAX_Q_CAPACITY ->
      let vm2 := janet_cancel (janet_schedule vm f1 v1) f2 v2 in
      exists vm2',
        run_scheduled (S (length (q_contents (janet_vm_spawn vm2)))) k vm2
        = Some (vm2', q_contents (janet_vm_spawn vm)
                      ++ [mkTask f1 v1 JANET_SIGNAL_OK; mkTask f2 v2 JANET_SIGNAL_ERROR]).
Proof.
  intros k vm.
  assert (H1 : reachable vm) by apply reach_schedule, reach_init.
  assert (H2 : forall vm f v sig, janet_vm_spawn (k vm f v sig).1 = janet_vm_spawn vm)
    by reflexivity.
  split; [by split|]. exact (janet_loop1_run_fifo k vm H1 H2).
Defined.

(** Three fibers are scheduled in the order 1, 2, 3 and run in that
    order. *)
Example janet_loop1_run_fifo_run :
  let k := fun (vm : VM) (f : nat) (v : Janet) (sig : JanetSignal) => (vm, JANET_SIGNAL_EVENT) in
  let vm := janet_schedule (janet_cancel (janet_schedule vm_init 1 (JNumber 7)) 2 JNil)
              3 (JNumber 9) in
  (run_scheduled 4 k vm ≫= fun r => Some r.2)
  = Some [mkTask 1 (JNumber 7) JANET_SIGNAL_OK; mkTask 2 JNil JANET_SIGNAL_ERROR;
          mkTask 3 (JNumber 9) JANET_SIGNAL_OK].
Proof. vm_compute. reflexivity. Qed.
End TimersFacts.

Module PollablesFacts.
Import RingQueue RingQueueFacts Ev SchedulerFacts PollableFacts ChannelFacts Pollables.

(** [poll_inv] reads the listener lists, the masks and the [waiting]
    fields only. *)
Lemma poll_inv_same vm vm' :
  (forall p, pollable_state (pollables vm' p) = pollable_state (pollables vm p)) ->
  (forall p, pollable_mask (pollables vm' p) = pollable_mask (pollables vm p)) ->
  (forall f, waiting (fibers vm' f) = waiting (fibers vm f)) ->
  poll_inv vm -> poll_inv vm'.
Proof.
  intros Hs Hm Hw (H1 & H2 & H3 & H4 & H5). unfold poll_inv, listening in *.
  split_and!.
  - intros p. rewrite Hs. apply H1.
  - intros p1 p2 s1 s2. rewrite !Hs. apply H2.
  - intros p st. rewrite Hs. apply H3.
  - intros f st. rewrite Hw, Hs. apply H4.
  - intros p. rewrite Hs, Hm. apply H5.
Qed.

Lemma janet_unlisten_impl_frame vm st vm' :
  janet_unlisten_impl vm st = (vm', Return tt) ->
  (forall q, q <> state_pollable st -> pollables vm' q = pollables vm q) /\
  pollable_flags (pollables vm' (state_pollable st))
    = pollable_flags (pollables vm (state_pollable st)) /\
  janet_vm_active_listeners vm' = wrap64 (janet_vm_active_listeners vm - 1) /\
  janet_vm_root_fiber vm' = janet_vm_root_fiber vm /\
  (forall g, waiting (fibers vm' g) = waiting (fibers vm g) \/
             (waiting (fibers vm' g) = None /\
              exists w, waiting (fibers vm g) = Some w /\ state_addr w = state_addr st)).
Proof.
  unfold janet_unlisten_impl.
  destruct (unlink_listener _ _) as [l'|]; [|done]. intros [= <-]. simpl.
  split_and!; try done.
  - intros q Hq. by rewrite fn_lookup_insert_ne.
  - by rewrite fn_lookup_insert.
  - intros g. destruct (state_fiber st) as [fiber|]; [|by left].
    destruct (waiting (fibers vm fiber)) as [w|] eqn:Hw; [|by left].
    destruct (Nat.eqb_spec (state_addr w) (state_addr st)) as [E|N]; [|by left].
    destruct (decide (fiber = g)) as [<-|Hne].
    + right. rewrite fn_lookup_insert. simpl. split; [done|]. by exists w.
    + left. by rewrite fn_lookup_insert_ne.
Qed.

Lemma wrap64_sub_sub n k : wrap64 (wrap64 (n - 1) - k) = wrap64 (n - (1 + k)).
Proof.
  unfold wrap64. rewrite Zminus_mod_idemp_l. f_equal. lia.
Qed.

Lemma pollable_deinit_walk_spec p l : forall vm,
  poll_inv vm -> NoDup l ->
  (forall s, s ∈ l -> s ∈ pollable_state (pollables vm p)) ->
  exists vm',
    pollable_deinit_walk vm l = (vm', Return tt) /\
    poll_inv vm' /\
    (forall s, s ∈ pollable_state (pollables vm' p)
               <-> s ∈ pollable_state (pollables vm p) /\ s ∉ l) /\
    (l <> [] -> pollable_mask (pollables vm' p)
                = event_bits (mask_or (pollable_state (pollables vm' p)))) /\
    (l = [] -> vm' = vm) /\
    (forall q, q <> p -> pollables vm' q = pollables vm q) /\
    pollable_flags (pollables vm' p) = pollable_flags (pollables vm p) /\
    wrap64 (janet_vm_active_listeners vm')
      = wrap64 (janet_vm_active_listeners vm - Z.of_nat (length l)) /\
    (forall g, waiting (fibers vm' g) = waiting (fibers vm g) \/
               (waiting (fibers vm' g) = None /\
                exists w, waiting (fibers vm g) = Some w /\ w ∈ l)) /\
    (forall g st, st ∈ l -> waiting (fibers vm g) = Some st ->
                  waiting (fibers vm' g) = None) /\
    (forall f, flags (fibers vm' f) = flags (fibers vm f) /\
               sched_id (fibers vm' f) = sched_id (fibers vm f)) /\
    janet_vm_spawn vm' = janet_vm_spawn vm /\
    channels vm' = channels vm /\
    janet_vm_root_fiber vm' = janet_vm_root_fiber vm.
Proof.
  induction l as [|st l IH]; intros vm Hinv Hnd Hsub.
  - exists vm. simpl. split_and!; try done.
    + intros s. split; [|tauto]. intros Hs. split; [done|]. by intros ?%elem_of_nil.
    + by rewrite Z.sub_0_r.
    + intros g. by left.
    + intros g st ?%elem_of_nil. done.
  - apply NoDup_cons in Hnd as [Hnotin Hnd].
    assert (Hst : st ∈ pollable_state (pollables vm p)) by (apply Hsub; by left).
    assert (Hp : state_pollable st = p).
    { destruct Hinv as (_ & _ & H3 & _). by destruct (H3 p st Hst). }
    assert (Hli : listening vm st) by (unfold listening; by rewrite Hp).
    destruct (poll_inv_unlisten vm st Hinv Hli)
      as (vm1 & Hun & Hinv1 & (Hmask1 & Hin1) & Hw1 & Hfl1 & Hsp1 & Hch1).
    rewrite Hp in Hmask1, Hin1.
    destruct (janet_unlisten_impl_frame vm st vm1 Hun) as (Hfr & Hflags & Hact & Hroot & Hwait).
    rewrite Hp in Hfr, Hflags.
    destruct (IH vm1 Hinv1 Hnd) as (vm' & Hwalk & Hinv' & Hin' & Hmask' & Hnil' & Hfr'
                                    & Hflags' & Hact' & Hwait' & Hw' & Hfl' & Hsp' & Hch' & Hroot').
    { intros s Hs. apply Hin1. split; [apply Hsub; by right|]. by intros ->. }
    exists vm'. simpl. rewrite Hun. split_and!; try done.
    + intros s. rewrite Hin', Hin1, not_elem_of_cons. tauto.
    + intros _. destruct l as [|s' l'].
      * rewrite (Hnil' eq_refl). exact Hmask1.
      * by apply Hmask'.
    + intros q Hq. rewrite Hfr', Hfr; done.
    + congruence.
    + rewrite Hact', Hact, wrap64_sub_sub. f_equal. simpl length. lia.
    + intros g. destruct (Hwait' g) as [He|(Hn & w & Hw & Hwin)].
      * destruct (Hwait g) as [He1|(Hn1 & w & Hw & Hwa)].
        -- left. congruence.
        -- right. split; [congruence|]. exists w. split; [done|].
           assert (w = st) as ->; [|by left].
           destruct Hinv as (_ & H2 & _ & H4 & _).
           destruct (H4 g w Hw) as [Hlw _]. by apply (H2 _ _ _ _ Hlw Hli).
      * destruct (Hwait g) as [He1|(Hn1 & w1 & Hw1' & _)]; [|congruence].
        right. split; [done|]. exists w. split; [congruence|by right].
    + intros g s Hs Hg. apply elem_of_cons in Hs as [->|Hs].
      * destruct (Hwait' g) as [He|(Hn & _)]; [|done]. rewrite He. by apply Hw1.
      * destruct (Hwait g) as [He1|(Hn1 & w1 & Hw1' & Ha)].
        -- apply (Hw' g s Hs). congruence.
        -- destruct (Hwait' g) as [He|(Hn & _)]; [congruence|done].
    + intros f. destruct (Hfl' f), (Hfl1 f). split; congruence.
    + congruence.
    + congruence.
    + congruence.
Qed.

Section DeinitFacts.
Variable JANET_POLL_FLAG_CLOSED : Z.

(** X9.  [janet_pollable_deinit] never trips the assertion of
    [janet_unlisten_impl]: it marks the pollable closed, unlinks every
    listener of the pollable and of no other, gives up one active listener
    per unlinked listener, and no fiber is left waiting on a listener of the
    pollable.  If there was a listener, the aggregate mask ends at 0. *)
Theorem janet_pollable_deinit_closes vm pollable :
  reachable vm ->
  let p := pollables vm pollable in
  exists vm',
    janet_pollable_deinit JANET_POLL_FLAG_CLOSED vm pollable = (vm', Return tt) /\
    pollable_state (pollables vm' pollable) = [] /\
    pollable_flags (pollables vm' pollable)
      = Z.lor (pollable_flags p) JANET_POLL_FLAG_CLOSED /\
    (pollable_state p <> [] -> pollable_mask (pollables vm' pollable) = 0) /\
    (pollable_state p = [] -> pollable_mask (pollables vm' pollable) = pollable_mask p) /\
    (forall q, q <> pollable -> pollables vm' q = pollables vm q) /\
    wrap64 (janet_vm_active_listeners vm')
      = wrap64 (janet_vm_active_listeners vm - Z.of_nat (length (pollable_state p))) /\
    (forall f st, waiting (fibers vm f) = Some st ->
       waiting (fibers vm' f)
       = if decide (state_pollable st = pollable) then None else Some st) /\
    (forall f, waiting (fibers vm f) = None -> waiting (fibers vm' f) = None) /\
    (forall f, flags (fibers vm' f) = flags (fibers vm f) /\
               sched_id (fibers vm' f) = sched_id (fibers vm f)) /\
    janet_vm_spawn vm' = janet_vm_spawn vm /\
    channels vm' = channels vm /\
    poll_inv vm'.
Proof.
  intros Hr p. destruct (reachable_inv vm Hr) as (_ & Hinv & _).
  unfold janet_pollable_deinit. fold p.
  set (vm1 := with_pollables vm _).
  assert (Hl1 : forall q, pollable_state (pollables vm1 q) = pollable_state (pollables vm q)).
  { intros q. subst vm1. simpl. destruct (decide (pollable = q)) as [<-|Hq].
    - by rewrite fn_lookup_insert.
    - by rewrite fn_lookup_insert_ne. }
  assert (Hm1 : forall q, pollable_mask (pollables vm1 q) = pollable_mask (pollables vm q)).
  { intros q. subst vm1. simpl. destruct (decide (pollable = q)) as [<-|Hq].
    - by rewrite fn_lookup_insert.
    - by rewrite fn_lookup_insert_ne. }
  assert (Hinv1 : poll_inv vm1) by (apply (poll_inv_same vm); done).
  assert (Hnd : NoDup (pollable_state p)).
  { destruct Hinv as (H1 & _). apply (NoDup_fmap_1 state_addr), H1. }
  destruct (pollable_deinit_walk_spec pollable (pollable_state p) vm1 Hinv1 Hnd)
    as (vm2 & Hwalk & Hinv2 & Hin2 & Hmask2 & Hnil2 & Hfr2 & Hflags2 & Hact2 & Hwait2
        & Hw2 & Hfl2 & Hsp2 & Hch2 & Hroot2).
  { intros s Hs. by rewrite Hl1. }
  rewrite Hwalk.
  assert (Hempty : pollable_state (pollables vm2 pollable) = []).
  { apply elem_of_nil_inv. intros s Hs. apply Hin2 in Hs as [Hs Hn].
    rewrite Hl1 in Hs. done. }
  eexists. split; [reflexivity|]. simpl.
  rewrite !fn_lookup_insert. simpl.
  split_and!; try done.
  - rewrite Hflags2. subst vm1. simpl. by rewrite fn_lookup_insert.
  - intros Hne. rewrite Hmask2 by done. rewrite Hempty. done.
  - intros He. rewrite (Hnil2 He). apply Hm1.
  - intros q Hq. rewrite fn_lookup_insert_ne by done. rewrite Hfr2 by done.
    subst vm1. simpl. by rewrite fn_lookup_insert_ne.
  - intros f st Hw.
    destruct Hinv as (_ & _ & H3 & H4 & _). destruct (H4 f st Hw) as [Hli _].
    case_decide as Hp.
    + apply (Hw2 f st); [|done]. unfold listening in Hli. by rewrite Hp in Hli.
    + destruct (Hwait2 f) as [He|(_ & w & Hw' & Hwin)]; [by rewrite He|].
      exfalso. apply Hp. assert (w = st) as -> by (subst vm1; simpl in Hw'; congruence).
      by destruct (H3 pollable st Hwin).
  - intros f Hn. destruct (Hwait2 f) as [He|(? & _)]; [|done].
    rewrite He. subst vm1. done.
  - eapply (poll_inv_same vm2); try done.
    intros q. simpl. destruct (decide (pollable = q)) as [<-|Hq].
    + by rewrite fn_lookup_insert.
    + by rewrite fn_lookup_insert_ne.
    + intros q. simpl. destruct (decide (pollable = q)) as [<-|Hq].
      * by rewrite fn_lookup_insert.
      * by rewrite fn_lookup_insert_ne.
Qed.

End DeinitFacts.

Lemma janet_pollable_deinit_closes_witness :
  let vm := do_listen (do_listen vm_init 1 0 16 100) 2 0 32 101 in
  let pollable := 0%nat in
  reachable vm /\
  let p := pollables vm pollable in
  exists vm',
    janet_pollable_deinit 1 vm pollable = (vm', Return tt) /\
    pollable_state (pollables vm' pollable) = [] /\
    pollable_flags (pollables vm' pollable)
      = Z.lor (pollable_flags p) 1 /\
    (pollable_state p <> [] -> pollable_mask (pollables vm' pollable) = 0) /\
    (pollable_state p = [] -> pollable_mask (pollables vm' pollable) = pollable_mask p) /\
    (forall q, q <> pollable -> pollables vm' q = pollables vm q) /\
    wrap64 (janet_vm_active_listeners vm')
      = wrap64 (janet_vm_active_listeners vm - Z.of_nat (length (pollable_state p))) /\
    (forall f st, waiting (fibers vm f) = Some st ->
       waiting (fibers vm' f)
       = if decide (state_pollable st = pollable) then None else Some st) /\
    (forall f, waiting (fibers vm f) = None -> waiting (fibers vm' f) = None) /\
    (forall f, flags (fibers vm' f) = flags (fibers vm f) /\
               sched_id (fibers vm' f) = sched_id (fibers vm f)) /\
    janet_vm_spawn vm' = janet_vm_spawn vm /\
    channels vm' = channels vm /\
    poll_inv vm'.
Proof.
  intros vm pollable.
  assert (Hr : reachable vm).
  { apply reachable_do_listen; [apply reachable_do_listen; [apply reach_init|]|].
    - intros p st Hst. by apply elem_of_nil in Hst.
    - intros p st Hst. vm_compute in Hst.
      destruct p as [|p]; [|by apply elem_of_nil in Hst].
      apply list_elem_of_singleton in Hst as ->. vm_compute. discriminate. }
  split; [exact Hr|]. exact (janet_pollable_deinit_closes 1 vm pollable Hr).
Defined.

(** Two fibers wait on pollable 0; closing it unlinks both listeners and
    leaves no fiber waiting. *)
Example janet_pollable_deinit_run :
  let vm := do_listen (do_listen vm_init 1 0 16 100) 2 0 32 101 in
  let vm' := (janet_pollable_deinit 1 vm 0).1 in
  janet_vm_active_listeners vm = 2 /\
  (janet_pollable_deinit 1 vm 0).2 = Return tt /\
  pollables vm' 0 = mkPollable 1 [] 0 /\
  janet_vm_active_listeners vm' = 0 /\
  waiting (fibers vm' 1) = None /\ waiting (fibers vm' 2) = None.
Proof. vm_compute. done. Qed.

(** *** Listening and unlistening *)

Lemma listen_unlisten_mask pm m :
  Z.land pm m = 0 ->
  Z.land (Z.lor pm (Z.lor m JANET_ASYNC_LISTEN_SPAWNER))
         (Z.lnot (Z.lor m JANET_ASYNC_LISTEN_SPAWNER))
  = event_bits pm.
Proof. intros Hd. bitwise. Qed.

Lemma wrap64_roundtrip n : 0 <= n < 2^64 -> wrap64 (wrap64 (n + 1) - 1) = n.
Proof.
  intros Hn. unfold wrap64. rewrite Zminus_mod_idemp_l.
  replace (n + 1 - 1) with n by lia. by apply Z.mod_small.
Qed.

(** X10.  A listener that [janet_listen_impl] has just installed is removed again
    by [janet_unlisten_impl]: the listener list, the fibers and the count of
    active listeners are as they were before the two calls, and so is the
    aggregate mask except that its [JANET_ASYNC_LISTEN_SPAWNER] bit is
    cleared. *)
Theorem janet_listen_unlisten_round_trip vm pollable mask state vm1 st :
  janet_listen_impl vm pollable mask state = (vm1, Return st) ->
  0 <= janet_vm_active_listeners vm < 2^64 ->
  exists vm2,
    janet_unlisten_impl vm1 st = (vm2, Return tt) /\
    pollable_state (pollables vm2 pollable) = pollable_state (pollables vm pollable) /\
    pollable_flags (pollables vm2 pollable) = pollable_flags (pollables vm pollable) /\
    pollable_mask (pollables vm2 pollable)
      = event_bits (pollable_mask (pollables vm pollable)) /\
    (forall q, q <> pollable -> pollables vm2 q = pollables vm q) /\
    (forall f, fibers vm2 f = fibers vm f) /\
    janet_vm_active_listeners vm2 = janet_vm_active_listeners vm /\
    janet_vm_spawn vm2 = janet_vm_spawn vm /\
    channels vm2 = channels vm.
Proof.
  intros Hl Hn.
  destruct (janet_listen_impl_ok _ _ _ _ _ _ Hl)
    as (Hd & Hw & Hst & Hp & Hf & Hsp & Hch & Hact).
  assert (Hpo : state_pollable st = pollable) by (by rewrite Hst).
  assert (Hma : state_mask st = Z.lor mask JANET_ASYNC_LISTEN_SPAWNER) by (by rewrite Hst).
  assert (Had : state_addr st = state) by (by rewrite Hst).
  unfold janet_unlisten_impl. rewrite Hpo, Hp, fn_lookup_insert. simpl.
  rewrite Nat.eqb_refl. eexists. split; [reflexivity|]. simpl.
  rewrite !fn_lookup_insert. simpl.
  split_and!; try done.
  - rewrite Hma. by apply listen_unlisten_mask.
  - intros q Hq. by rewrite !fn_lookup_insert_ne.
  - intros f. rewrite Hf.
    destruct (has_bits mask JANET_ASYNC_LISTEN_SPAWNER) eqn:Hs.
    + by rewrite Hst.
    + rewrite Hst. simpl. rewrite fn_lookup_insert. simpl. rewrite Nat.eqb_refl.
      destruct (decide (janet_vm_root_fiber vm = f)) as [<-|Hne].
      * rewrite fn_lookup_insert.
        destruct (fibers vm (janet_vm_root_fiber vm)) as [fl sid w]. simpl in *. by subst.
      * by rewrite !fn_lookup_insert_ne.
  - rewrite Hact. by apply wrap64_roundtrip.
Qed.

Lemma janet_listen_unlisten_round_trip_witness :
  let vm := do_listen vm_init 1 0 16 100 in
  let vm0 := with_root_fiber vm 2 in
  let st := mkState 101 (Some 2%nat) 0 (Z.lor 32 JANET_ASYNC_LISTEN_SPAWNER) in
  let vm1 := (janet_listen_impl vm0 0 32 101).1 in
  (janet_listen_impl vm0 0 32 101 = (vm1, Return st) /\
   0 <= janet_vm_active_listeners vm0 < 2^64) /\
  exists vm2,
    janet_unlisten_impl vm1 st = (vm2, Return tt) /\
    pollable_state (pollables vm2 0) = pollable_state (pollables vm0 0) /\
    pollable_flags (pollables vm2 0) = pollable_flags (pollables vm0 0) /\
    pollable_mask (pollables vm2 0) = event_bits (pollable_mask (pollables vm0 0)) /\
    (forall q, q <> 0%nat -> pollables vm2 q = pollables vm0 q) /\
    (forall f, fibers vm2 f = fibers vm0 f) /\
    janet_vm_active_listeners vm2 = janet_vm_active_listeners vm0 /\
    janet_vm_spawn vm2 = janet_vm_spawn vm0 /\
    channels vm2 = channels vm0.
Proof.
  intros vm vm0 st vm1.
  assert (H1 : janet_listen_impl vm0 0 32 101 = (vm1, Return st)) by reflexivity.
  assert (H2 : 0 <= janet_vm_active_listeners vm0 < 2^64)
    by (vm_compute; split; [discriminate|reflexivity]).
  split; [by split|].
  exact (janet_listen_unlisten_round_trip vm0 0 32 101 vm1 st H1 H2).
Defined.

(** With fiber 1 already listening for event 16 on pollable 0, fiber 2
    listens for event 32 and unlistens: the list is as before, the mask has
    lost the spawner bit that the listener of fiber 1 still carries. *)
Example janet_listen_unlisten_run :
  let vm0 := with_root_fiber (do_listen vm_init 1 0 16 100) 2 in
  let vm1 := (janet_listen_impl vm0 0 32 101).1 in
  let st := mkState 101 (Some 2%nat) 0 (Z.lor 32 JANET_ASYNC_LISTEN_SPAWNER) in
  let vm2 := (janet_unlisten_impl vm1 st).1 in
  pollable_mask (pollables vm0 0) = 4112 /\
  pollable_mask (pollables vm1 0) = 4144 /\
  pollable_mask (pollables vm2 0) = 16 /\
  pollable_state (pollables vm2 0) = pollable_state (pollables vm0 0).
Proof. vm_compute. done. Qed.

(** X11.  After a successful [janet_listen_impl], the next call on the
    same pollable whose mask shares a bit with the first mask or has the
    [JANET_ASYNC_LISTEN_SPAWNER] bit panics with "cannot listen for
    duplicate event on pollable"; and the next call by the fiber that now
    waits panics (with that message or with "current fiber is already
    waiting for event").  At every later observable point at which the
    listener is still linked into the pollable, a call on the pollable
    whose mask shares a bit other than [JANET_ASYNC_LISTEN_SPAWNER] with the
    first mask panics with the first message (the spawner bit of [_mask]
    may have been cleared by a [janet_unlisten_impl] in between).  A call
    that panics changes nothing. *)
Theorem janet_listen_impl_exclusive vm pollable mask state vm1 st :
  janet_listen_impl vm pollable mask state = (vm1, Return st) ->
  (forall vm2 mask2 state2,
     reachable vm2 ->
     st ∈ pollable_state (pollables vm2 pollable) ->
     Z.land mask2 (event_bits mask) <> 0 ->
     janet_listen_impl vm2 pollable mask2 state2
     = (vm2, Panicked "cannot listen for duplicate event on pollable")) /\
  (forall mask2 state2,
     Z.land mask2 (Z.lor mask JANET_ASYNC_LISTEN_SPAWNER) <> 0 ->
     forall root2,
       janet_listen_impl (with_root_fiber vm1 root2) pollable mask2 state2
       = (with_root_fiber vm1 root2,
          Panicked "cannot listen for duplicate event on pollable")) /\
  (has_bits mask JANET_ASYNC_LISTEN_SPAWNER = false ->
   forall pollable2 mask2 state2,
     exists msg,
       janet_listen_impl vm1 pollable2 mask2 state2 = (vm1, Panicked msg) /\
       (msg = "cannot listen for duplicate event on pollable" \/
        msg = "current fiber is already waiting for event")).
Proof.
  intros Hl.
  destruct (janet_listen_impl_ok _ _ _ _ _ _ Hl)
    as (Hd & Hw & Hst & Hp & Hf & Hsp & Hch & Hact).
  assert (Hma : state_mask st = Z.lor mask JANET_ASYNC_LISTEN_SPAWNER) by (by rewrite Hst).
  assert (Hroot : janet_vm_root_fiber vm1 = janet_vm_root_fiber vm).
  { unfold janet_listen_impl in Hl. repeat case_match; try done;
      by injection Hl as <- _. }
  split_and!.
  - intros vm2 mask2 state2 Hr Hin Hshare.
    destruct (reachable_inv vm2 Hr) as (_ & (_ & _ & _ & _ & Hmask) & _).
    destruct (Hmask pollable) as [Hev _].
    pose proof (mask_or_covers _ _ Hin) as Hcov. rewrite Hma in Hcov.
    unfold janet_listen_impl.
    assert (Hb : has_bits (pollable_mask (pollables vm2 pollable)) mask2 = true).
    { apply has_bits_true. intros Hz. apply Hshare. revert Hev Hcov Hz.
      unfold event_bits.
      generalize JANET_ASYNC_LISTEN_SPAWNER (pollable_mask (pollables vm2 pollable))
                 (mask_or (pollable_state (pollables vm2 pollable))).
      intros sp pm mo Hev Hcov Hz. bitwise. }
    by rewrite Hb.
  - intros mask2 state2 Hshare root2. unfold janet_listen_impl.
    cbn [pollables with_root_fiber]. rewrite Hp, fn_lookup_insert. cbn [pollable_mask].
    rewrite Hma.
    assert (Hb : has_bits (Z.lor (pollable_mask (pollables vm pollable))
                             (Z.lor mask JANET_ASYNC_LISTEN_SPAWNER)) mask2 = true).
    { apply has_bits_true. intros Hz. apply Hshare. clear -Hz. bitwise. }
    by rewrite Hb.
  - intros Hns pollable2 mask2 state2. unfold janet_listen_impl.
    destruct (has_bits (pollable_mask (pollables vm1 pollable2)) mask2);
      [eexists; split; [reflexivity|by left]|].
    rewrite Hroot, Hf, Hns, fn_lookup_insert. cbn [waiting].
    rewrite bool_decide_eq_true_2 by done.
    eexists; split; [reflexivity|by right].
Qed.

Lemma janet_listen_impl_exclusive_witness :
  let vm := with_root_fiber vm_init 1 in
  let st := mkState 100 (Some 1%nat) 0 (Z.lor 16 JANET_ASYNC_LISTEN_SPAWNER) in
  let vm1 := (janet_listen_impl vm 0 16 100).1 in
  janet_listen_impl vm 0 16 100 = (vm1, Return st) /\
  (forall vm2 mask2 state2,
     reachable vm2 ->
     st ∈ pollable_state (pollables vm2 0) ->
     Z.land mask2 (event_bits 16) <> 0 ->
     janet_listen_impl vm2 0 mask2 state2
     = (vm2, Panicked "cannot listen for duplicate event on pollable")) /\
  (forall mask2 state2,
     Z.land mask2 (Z.lor 16 JANET_ASYNC_LISTEN_SPAWNER) <> 0 ->
     forall root2,
       janet_listen_impl (with_root_fiber vm1 root2) 0 mask2 state2
       = (with_root_fiber vm1 root2,
          Panicked "cannot listen for duplicate event on pollable")) /\
  (has_bits 16 JANET_ASYNC_LISTEN_SPAWNER = false ->
   forall pollable2 mask2 state2,
     exists msg,
       janet_listen_impl vm1 pollable2 mask2 state2 = (vm1, Panicked msg) /\
       (msg = "cannot listen for duplicate event on pollable" \/
        msg = "current fiber is already waiting for event")).
Proof.
  intros vm st vm1.
  assert (H1 : janet_listen_impl vm 0 16 100 = (vm1, Return st)) by reflexivity.
  split; [exact H1|]. exact (janet_listen_impl_exclusive vm 0 16 100 vm1 st H1).
Defined.

(** Why the later calls are refused on the event bits only: fiber 1
    listens for 16 and fiber 2 for 32 on pollable 0, the listener of fiber 2
    is removed again, which clears the spawner bit of [_mask]; a call with
    the spawner mask by fiber 3 then returns a listener although the
    listener of fiber 1 is still linked, and a call for 16 still panics. *)
Example janet_listen_impl_spawner_after_unlisten :
  let vmA := (janet_listen_impl (with_root_fiber vm_init 1) 0 16 100).1 in
  let stA := mkState 100 (Some 1%nat) 0 (Z.lor 16 JANET_ASYNC_LISTEN_SPAWNER) in
  let vmB := (janet_listen_impl (with_root_fiber vmA 2) 0 32 101).1 in
  let stB := mkState 101 (Some 2%nat) 0 (Z.lor 32 JANET_ASYNC_LISTEN_SPAWNER) in
  let vm := with_root_fiber (janet_unlisten_impl vmB stB).1 3 in
  (janet_listen_impl (with_root_fiber vmA 2) 0 32 101).2 = Return stB /\
  (janet_unlisten_impl vmB stB).2 = Return tt /\
  pollable_state (pollables vm 0) = [stA] /\
  pollable_mask (pollables vm 0) = 16 /\
  (janet_listen_impl vm 0 JANET_ASYNC_LISTEN_SPAWNER 102).2
    = Return (mkState 102 None 0 JANET_ASYNC_LISTEN_SPAWNER) /\
  (janet_listen_impl vm 0 16 102).2
    = Panicked "cannot listen for duplicate event on pollable".
Proof. vm_compute. split_and!; reflexivity. Qed.
End PollablesFacts.

Module CfunsFacts.
Import RingQueue RingQueueFacts Ev SchedulerFacts PollableFacts ChannelFacts LoopFacts
       Timers TimersFacts Cfuns.

Lemma q_contents_nil_count {A} `{Inhabited A} (q : JanetQueue A) :
  q_wf q -> (q_contents q = [] <-> janet_q_count q = 0).
Proof.
  intros Hwf. rewrite (janet_q_count_contents q Hwf).
  destruct (q_contents q); simpl; split; (done || lia).
Qed.

Lemma janet_q_pop_cons {A} `{Inhabited A} (q : JanetQueue A) y l :
  q_wf q -> q_contents q = y :: l ->
  exists q', janet_q_pop q = Some (y, q') /\ q_wf q' /\ q_contents q' = l.
Proof.
  intros Hwf Hc. pose proof (janet_q_pop_spec q Hwf) as Hp.
  destruct (janet_q_pop q) as [[z q']|]; [|congruence].
  destruct Hp as [Hp Hwf']. rewrite Hc in Hp. injection Hp as -> ->. by exists q'.
Qed.

Lemma janet_q_pop_nil {A} `{Inhabited A} (q : JanetQueue A) :
  q_wf q -> q_contents q = [] -> janet_q_pop q = None.
Proof.
  intros Hwf Hc. pose proof (janet_q_pop_spec q Hwf) as Hp.
  destruct (janet_q_pop q) as [[z q']|]; [|done]. destruct Hp. congruence.
Qed.

Lemma MAX_big : 2 < JANET_MAX_Q_CAPACITY.
Proof. unfold JANET_MAX_Q_CAPACITY. lia. Qed.

(** X12.  A value given to an empty channel that nobody is waiting on is what
    the next take yields, and the channel is empty again.  With a positive
    limit neither of the two blocks and nobody is scheduled.  On a channel
    of limit 0 the giver blocks, no other fiber changes, and the take
    schedules the giver with the channel: its task is appended to the run
    queue, provided the giver is not scheduled already and the run queue is
    well formed and below its hard cap. *)
Theorem channel_give_then_take vm ch x a b :
  let c := channels vm ch in
  chan_inv c ->
  q_contents (items c) = [] ->
  skip_stale (fibers vm) (q_contents (read_pending c)) = [] ->
  exists vm1 r vm2,
    janet_channel_push (with_root_fiber vm a) ch x false = Some (vm1, Return r) /\
    (limit c = 0 -> r = 1) /\ (0 < limit c -> r = 0) /\
    janet_channel_pop (with_root_fiber vm1 b) ch false = (vm2, (1, Some x)) /\
    q_contents (items (channels vm2 ch)) = [] /\
    q_contents (read_pending (channels vm2 ch)) = [] /\
    q_contents (write_pending (channels vm2 ch)) = [] /\
    (0 < limit c ->
       fibers vm2 = fibers vm /\ janet_vm_spawn vm2 = janet_vm_spawn vm) /\
    (limit c = 0 ->
       forall g, g <> a -> fibers vm2 g = fibers vm g) /\
    (limit c = 0 -> q_wf (janet_vm_spawn vm) -> ~ scheduled vm a ->
       janet_q_count (janet_vm_spawn vm) + 1 < JANET_MAX_Q_CAPACITY ->
       q_contents (janet_vm_spawn vm2)
       = q_contents (janet_vm_spawn vm) ++ [mkTask a (JAbstract ch) JANET_SIGNAL_OK]).
Proof.
  intros c Hinv Hit Hlive.
  destruct Hinv as (Hwi & Hwr & Hww & Hlim & Hwc & Hic).
  assert (Hcnt : janet_q_count (items c) = 0) by (by apply q_contents_nil_count).
  assert (Hwp : q_contents (write_pending c) = []).
  { apply q_contents_nil_count; [done|]. pose proof (janet_q_count_bounds _ Hww). lia. }
  pose proof MAX_big as HM.
  pose proof (janet_channel_push_spec (with_root_fiber vm a) ch x false) as Hs.
  cbv zeta in Hs. cbn [channels fibers with_root_fiber] in Hs. fold c in Hs.
  destruct Hs as (rp & Hrpwf & Hrp & _ & _ & Hpush); [by split_and!|].
  rewrite Hlive in Hrp, Hpush. simpl in Hrp.
  destruct Hpush as (it & Hitwf & Hitc & Hitn & Hblock & Hfree); [done|lia|].
  rewrite Hit in Hitc. simpl in Hitc.
  destruct (janet_q_pop_cons it x [] Hitwf Hitc) as (it' & Hpop & Hwf' & Hc').
  destruct (decide (limit c = 0)) as [Hz|Hnz].
  - destruct Hblock as (wp & Hwpwf & Hwpc & Hp); [lia|].
    rewrite Hwp in Hwpc. simpl in Hwpc.
    destruct (janet_q_pop_cons wp _ [] Hwpwf Hwpc) as (wp' & Hpopw & Hwfw' & Hcw').
    pose proof (janet_channel_pop_spec
                  (with_root_fiber
                     (put_channel (with_root_fiber vm a) ch (mkChannel it rp wp (limit c))) b)
                  ch false) as Hq.
    cbv zeta in Hq. cbn [channels with_root_fiber] in Hq.
    change (channels (put_channel (with_root_fiber vm a) ch (mkChannel it rp wp (limit c))) ch)
      with ((<[ch := mkChannel it rp wp (limit c)]> (channels vm)) ch) in Hq.
    rewrite fn_lookup_insert in Hq. cbn [items write_pending] in Hq.
    rewrite Hpop in Hq. cbn [with_items write_pending] in Hq. rewrite Hpopw in Hq.
    eexists _, 1, _. split; [exact Hp|]. split; [done|]. split; [lia|].
    split; [exact Hq|].
    rewrite channels_schedule, channels_put. cbn [items read_pending write_pending
      with_write_pending with_items].
    split_and!; try done; try lia.
    + intros _ g Hg.
      destruct (janet_schedule_signal_frame
                  (put_channel
                     (with_root_fiber
                        (put_channel (with_root_fiber vm a) ch (mkChannel it rp wp (limit c))) b)
                     ch (mkChannel it' rp wp' (limit c)))
                  a (JAbstract ch) JANET_SIGNAL_OK) as (_ & _ & _ & _ & _ & Hfr).
      unfold janet_schedule, writer_value. cbn [pending_of pending_mode pending_fiber
        janet_vm_root_fiber with_root_fiber]. by rewrite Hfr.
    + intros _ Hq0 Hns Hroom.
      unfold writer_value. cbn [pending_of pending_mode pending_fiber
        janet_vm_root_fiber with_root_fiber].
      by apply (janet_schedule_signal_spawn
                  (put_channel
                     (with_root_fiber
                        (put_channel (with_root_fiber vm a) ch (mkChannel it rp wp (limit c))) b)
                     ch (mkChannel it' rp wp' (limit c)))
                  a (JAbstract ch) JANET_SIGNAL_OK).
  - specialize (Hfree ltac:(lia)).
    pose proof (janet_channel_pop_spec
                  (with_root_fiber
                     (put_channel (with_root_fiber vm a) ch
                        (mkChannel it rp (write_pending c) (limit c))) b)
                  ch false) as Hq.
    cbv zeta in Hq. cbn [channels with_root_fiber] in Hq.
    change (channels (put_channel (with_root_fiber vm a) ch
                        (mkChannel it rp (write_pending c) (limit c))) ch)
      with ((<[ch := mkChannel it rp (write_pending c) (limit c)]> (channels vm)) ch) in Hq.
    rewrite fn_lookup_insert in Hq. cbn [items write_pending] in Hq.
    rewrite Hpop in Hq. cbn [with_items write_pending] in Hq.
    rewrite (janet_q_pop_nil _ Hww Hwp) in Hq.
    eexists _, 0, _. split; [exact Hfree|]. split; [lia|]. split; [done|].
    split; [exact Hq|].
    rewrite channels_put. cbn [items read_pending write_pending].
    split_and!; try done; try lia.
Qed.

Lemma channel_give_then_take_witness :
  let vm := do_chan vm_init 0 0 in
  let ch := 0%nat in
  let x := JNumber 42 in
  let a := 1%nat in
  let b := 2%nat in
  let c := channels vm ch in
  (chan_inv c /\ q_contents (items c) = [] /\
   skip_stale (fibers vm) (q_contents (read_pending c)) = []) /\
  exists vm1 r vm2,
    janet_channel_push (with_root_fiber vm a) ch x false = Some (vm1, Return r) /\
    (limit c = 0 -> r = 1) /\ (0 < limit c -> r = 0) /\
    janet_channel_pop (with_root_fiber vm1 b) ch false = (vm2, (1, Some x)) /\
    q_contents (items (channels vm2 ch)) = [] /\
    q_contents (read_pending (channels vm2 ch)) = [] /\
    q_contents (write_pending (channels vm2 ch)) = [] /\
    (0 < limit c ->
       fibers vm2 = fibers vm /\ janet_vm_spawn vm2 = janet_vm_spawn vm) /\
    (limit c = 0 ->
       forall g, g <> a -> fibers vm2 g = fibers vm g) /\
    (limit c = 0 -> q_wf (janet_vm_spawn vm) -> ~ scheduled vm a ->
       janet_q_count (janet_vm_spawn vm) + 1 < JANET_MAX_Q_CAPACITY ->
       q_contents (janet_vm_spawn vm2)
       = q_contents (janet_vm_spawn vm) ++ [mkTask a (JAbstract ch) JANET_SIGNAL_OK]).
Proof.
  intros vm ch x a b c.
  assert (H1 : chan_inv c) by (vm_compute; split_and!; first [reflexivity | discriminate]).
  assert (H2 : q_contents (items c) = []) by reflexivity.
  assert (H3 : skip_stale (fibers vm) (q_contents (read_pending c)) = []) by reflexivity.
  split; [by split_and!|].
  exact (channel_give_then_take vm ch x a b H1 H2 H3).
Defined.

(** X13.  A take on an empty channel registers the taker; the next give
    does not block, removes the registration, leaves [items] empty and
    changes no fiber but the taker.  It hands its value to the taker by
    scheduling it: the task is appended to the run queue, provided the taker
    is not scheduled already and the run queue is well formed and below its
    hard cap. *)
Theorem channel_take_then_give vm ch x a b :
  let c := channels vm ch in
  chan_inv c ->
  q_contents (items c) = [] ->
  q_contents (read_pending c) = [] ->
  exists vm1 vm2,
    janet_channel_pop (with_root_fiber vm b) ch false = (vm1, (0, None)) /\
    q_contents (read_pending (channels vm1 ch))
      = [mkPending b (sched_id (fibers vm b)) JANET_CP_MODE_ITEM] /\
    fibers vm1 = fibers vm /\ janet_vm_spawn vm1 = janet_vm_spawn vm /\
    janet_channel_push (with_root_fiber vm1 a) ch x false = Some (vm2, Return 0) /\
    q_contents (items (channels vm2 ch)) = [] /\
    q_contents (read_pending (channels vm2 ch)) = [] /\
    write_pending (channels vm2 ch) = write_pending c /\
    (forall g, g <> b -> fibers vm2 g = fibers vm g) /\
    (q_wf (janet_vm_spawn vm) -> ~ scheduled vm b ->
       janet_q_count (janet_vm_spawn vm) + 1 < JANET_MAX_Q_CAPACITY ->
       q_contents (janet_vm_spawn vm2)
       = q_contents (janet_vm_spawn vm) ++ [mkTask b x JANET_SIGNAL_OK]).
Proof.
  intros c Hinv Hit Hrp.
  destruct Hinv as (Hwi & Hwr & Hww & Hlim & Hwc & Hic).
  pose proof MAX_big as HM.
  assert (Hrc : janet_q_count (read_pending c) = 0) by (by apply q_contents_nil_count).
  set (pd := mkPending b (sched_id (fibers vm b)) JANET_CP_MODE_ITEM).
  destruct (q_push_ignore_spec (read_pending c) pd Hwr) as (Hwr1 & Hc1 & _).
  specialize (Hc1 ltac:(lia)). rewrite Hrp in Hc1. simpl in Hc1.
  pose proof (janet_channel_pop_spec (with_root_fiber vm b) ch false) as Hq.
  cbv zeta in Hq. cbn [channels with_root_fiber] in Hq. fold c in Hq.
  rewrite (janet_q_pop_nil _ Hwi Hit) in Hq.
  change (pending_of (with_root_fiber vm b) false true) with pd in Hq.
  set (c1 := with_read_pending c (q_push_ignore (read_pending c) pd)) in *.
  set (vm1 := put_channel (with_root_fiber vm b) ch c1) in *.
  pose proof (janet_channel_push_spec (with_root_fiber vm1 a) ch x false) as Hs.
  cbv zeta in Hs. cbn [channels fibers with_root_fiber] in Hs.
  change (channels vm1 ch) with ((<[ch := c1]> (channels vm)) ch) in Hs.
  rewrite fn_lookup_insert in Hs.
  change (fibers vm1) with (fibers vm) in Hs.
  cbn [c1 read_pending with_read_pending] in Hs. rewrite Hc1 in Hs.
  assert (Hlive : skip_stale (fibers vm) [pd] = [pd]).
  { simpl. unfold is_stale. simpl. by rewrite Z.eqb_refl. }
  rewrite Hlive in Hs.
  destruct Hs as (rp & Hrpwf & Hrpc & Hpush & _).
  { unfold chan_inv, c1. cbn [items read_pending write_pending limit with_read_pending].
    by split_and!. }
  specialize (Hpush pd eq_refl). simpl in Hrpc.
  change (reader_value ch x pd) with x in Hpush.
  change (pending_fiber pd) with b in Hpush.
  exists vm1, (janet_schedule
                 (put_channel (with_root_fiber vm1 a) ch
                    (with_read_pending c1 rp)) b x).
  split; [exact Hq|]. split.
  { unfold vm1. by rewrite channels_put. }
  split; [done|]. split; [done|]. split; [exact Hpush|].
  rewrite channels_schedule, channels_put.
  cbn [items read_pending write_pending with_read_pending c1].
  split_and!; try done.
  - intros g Hg.
    destruct (janet_schedule_signal_frame
                (put_channel (with_root_fiber vm1 a) ch (with_read_pending c1 rp))
                b x JANET_SIGNAL_OK) as (_ & _ & _ & _ & _ & Hfr).
    unfold janet_schedule. by rewrite Hfr.
  - intros Hq0 Hns Hroom.
    by apply (janet_schedule_signal_spawn
                (put_channel (with_root_fiber vm1 a) ch (with_read_pending c1 rp))
                b x JANET_SIGNAL_OK).
Qed.

Lemma channel_take_then_give_witness :
  let vm := do_chan vm_init 0 3 in
  let ch := 0%nat in
  let x := JNumber 42 in
  let a := 1%nat in
  let b := 2%nat in
  let c := channels vm ch in
  (chan_inv c /\ q_contents (items c) = [] /\ q_contents (read_pending c) = []) /\
  exists vm1 vm2,
    janet_channel_pop (with_root_fiber vm b) ch false = (vm1, (0, None)) /\
    q_contents (read_pending (channels vm1 ch))
      = [mkPending b (sched_id (fibers vm b)) JANET_CP_MODE_ITEM] /\
    fibers vm1 = fibers vm /\ janet_vm_spawn vm1 = janet_vm_spawn vm /\
    janet_channel_push (with_root_fiber vm1 a) ch x false = Some (vm2, Return 0) /\
    q_contents (items (channels vm2 ch)) = [] /\
    q_contents (read_pending (channels vm2 ch)) = [] /\
    write_pending (channels vm2 ch) = write_pending c /\
    (forall g, g <> b -> fibers vm2 g = fibers vm g) /\
    (q_wf (janet_vm_spawn vm) -> ~ scheduled vm b ->
       janet_q_count (janet_vm_spawn vm) + 1 < JANET_MAX_Q_CAPACITY ->
       q_contents (janet_vm_spawn vm2)
       = q_contents (janet_vm_spawn vm) ++ [mkTask b x JANET_SIGNAL_OK]).
Proof.
  intros vm ch x a b c.
  assert (H1 : chan_inv c) by (vm_compute; split_and!; first [reflexivity | discriminate]).
  assert (H2 : q_contents (items c) = []) by reflexivity.
  assert (H3 : q_contents (read_pending c) = []) by reflexivity.
  split; [by split_and!|].
  exact (channel_take_then_give vm ch x a b H1 H2 H3).
Defined.

(** *** [ev/take] *)

Lemma cfun_channel_pop_unfold vm ch :
  cfun_channel_pop vm [JAbstract ch]
  = match janet_channel_pop vm ch false with
    | (vm', (0, _)) => (vm', Await)
    | (vm', (_, Some item)) => (janet_schedule vm' (janet_vm_root_fiber vm') item, Await)
    | (vm', (_, None)) => (vm', Await)
    end.
Proof. reflexivity. Qed.

(** What [janet_channel_pop] does to the run queue and to the fibers when
    an item is available. *)
Lemma janet_channel_pop_item vm ch y l :
  vm_inv vm -> q_contents (items (channels vm ch)) = y :: l ->
  exists vm1,
    janet_channel_pop vm ch false = (vm1, (1, Some y)) /\
    q_contents (items (channels vm1 ch)) = l /\
    janet_vm_root_fiber vm1 = janet_vm_root_fiber vm /\
    q_wf (janet_vm_spawn vm1) /\
    (exists woken, q_contents (janet_vm_spawn vm1) = q_contents (janet_vm_spawn vm) ++ woken /\
                   (length woken <= 1)%nat) /\
    (forall g, (forall w, hd_error (q_contents (write_pending (channels vm ch))) = Some w ->
                          pending_fiber w <> g) ->
               fibers vm1 g = fibers vm g) /\
    (q_contents (write_pending (channels vm ch)) = [] ->
       fibers vm1 = fibers vm /\ janet_vm_spawn vm1 = janet_vm_spawn vm).
Proof.
  intros ((Hsw & _) & _ & Hch) Hit.
  destruct (Hch ch) as (Hwi & Hwr & Hww & Hlim & Hwc & Hic).
  destruct (janet_q_pop_cons _ y l Hwi Hit) as (it & Hpop & Hwfit & Hcit).
  pose proof (janet_channel_pop_spec vm ch false) as Hq. cbv zeta in Hq.
  rewrite Hpop in Hq.
  destruct (q_contents (write_pending (channels vm ch))) as [|w ws] eqn:Hwp.
  - rewrite (janet_q_pop_nil _ Hww Hwp) in Hq.
    eexists. split; [exact Hq|]. rewrite channels_put. cbn [items with_items].
    split_and!; try done. exists []. split; [by rewrite app_nil_r|simpl; lia].
  - destruct (janet_q_pop_cons _ w ws Hww Hwp) as (wp & Hpopw & Hwfw & Hcw).
    rewrite Hpopw in Hq.
    eexists. split; [exact Hq|]. rewrite channels_schedule, channels_put.
    cbn [items with_items with_write_pending].
    set (vm0 := put_channel vm ch _).
    destruct (janet_schedule_signal_frame vm0 (pending_fiber w) (writer_value ch w)
                JANET_SIGNAL_OK) as (_ & _ & Hroot & _ & _ & Hfr).
    destruct (janet_schedule_signal_spawn vm0 (pending_fiber w) (writer_value ch w)
                JANET_SIGNAL_OK Hsw) as (Hwf1 & Hsuf & _).
    split_and!; try done.
    intros g Hg. unfold janet_schedule. rewrite Hfr; [done|].
    intros ->. by apply (Hg w).
Qed.



(** Fiber 3 takes from a channel of limit 1 that holds 10 and 20, with
    fiber 2 blocked as a writer: fiber 2 is woken with the channel, then
    fiber 3 is queued with the item 10. *)
Example cfun_channel_pop_run :
  let vm := with_root_fiber (do_give (do_give (do_chan vm_init 0 1) 1 0 (JNumber 10))
                               2 0 (JNumber 20)) 3 in
  let vm' := (cfun_channel_pop vm [JAbstract 0]).1 in
  (cfun_channel_pop vm [JAbstract 0]).2 = Await /\
  q_contents (items (channels vm' 0)) = [JNumber 20] /\
  q_contents (janet_vm_spawn vm')
  = [mkTask 2 (JAbstract 0) JANET_SIGNAL_OK; mkTask 3 (JNumber 10) JANET_SIGNAL_OK].
Proof. vm_compute. done. Qed.

(** X15.  When the caller of [ev/take] is itself on the run queue already, the
    item is removed from the channel and handed to nobody: the
    [janet_schedule] of the caller is without effect. *)
Theorem cfun_channel_pop_caller_scheduled vm ch y l :
  reachable vm ->
  let c := channels vm ch in
  q_contents (items c) = y :: l ->
  q_contents (write_pending c) = [] ->
  scheduled vm (janet_vm_root_fiber vm) ->
  exists vm',
    cfun_channel_pop vm [JAbstract ch] = (vm', Await) /\
    q_contents (items (channels vm' ch)) = l /\
    janet_vm_spawn vm' = janet_vm_spawn vm /\
    fibers vm' = fibers vm.
Proof.
  intros Hr c Hit Hwp Hs. pose proof (reachable_inv vm Hr) as Hinv.
  destruct (janet_channel_pop_item vm ch y l Hinv Hit)
    as (vm1 & Hq & Hit1 & Hroot & Hwf1 & _ & _ & Hsame).
  destruct (Hsame Hwp) as [Hf Hsp].
  rewrite cfun_channel_pop_unfold, Hq.
  assert (Hs1 : scheduled vm1 (janet_vm_root_fiber vm1)).
  { unfold scheduled. by rewrite Hroot, Hf. }
  eexists. split; [reflexivity|].
  unfold janet_schedule. rewrite (janet_schedule_signal_noop _ _ _ _ Hs1). done.
Qed.

Lemma cfun_channel_pop_caller_scheduled_witness :
  let vm := with_root_fiber
              (janet_schedule (do_give (do_chan vm_init 0 1) 1 0 (JNumber 10)) 3 (JNumber 0))
              3 in
  let ch := 0%nat in
  let y := JNumber 10 in
  let l := @nil Janet in
  (reachable vm /\
   q_contents (items (channels vm ch)) = y :: l /\
   q_contents (write_pending (channels vm ch)) = [] /\
   scheduled vm (janet_vm_root_fiber vm)) /\
  exists vm',
    cfun_channel_pop vm [JAbstract ch] = (vm', Await) /\
    q_contents (items (channels vm' ch)) = l /\
    janet_vm_spawn vm' = janet_vm_spawn vm /\
    fibers vm' = fibers vm.
Proof.
  intros vm ch y l.
  assert (H1 : reachable vm).
  { apply reach_root, reach_schedule, reachable_do_give, reachable_do_chan, reach_init. }
  assert (H2 : q_contents (items (channels vm ch)) = y :: l) by reflexivity.
  assert (H3 : q_contents (write_pending (channels vm ch)) = []) by reflexivity.
  assert (H4 : scheduled vm (janet_vm_root_fiber vm)) by reflexivity.
  split; [by split_and!|].
  exact (cfun_channel_pop_caller_scheduled vm ch y l H1 H2 H3 H4).
Defined.

(** *** [ev/full], [ev/capacity], [ev/count], [ev/chan] *)

Lemma cfun_channel_push_unfold vm ch x :
  cfun_channel_push vm [JAbstract ch; x]
  = janet_channel_push vm ch x false ≫= fun '(vm', r) =>
      match r with
      | Return 0 => Some (vm', Return (JAbstract ch))
      | Return _ => Some (vm', Await)
      | Panicked m => Some (vm', Panicked m)
      | Await => Some (vm', Await)
      | Aborted m => Some (vm', Aborted m)
      end.
Proof. reflexivity. Qed.

(** X16.  [ev/full] tells whether an [ev/give] would suspend its caller: with no
    live reader pending, [ev/give] suspends exactly when [ev/full] is true
    and returns the channel otherwise; with a live reader pending it
    returns the channel whatever [ev/full] says. *)
Theorem cfun_channel_full_give vm ch x :
  let c := channels vm ch in
  let live := skip_stale (fibers vm) (q_contents (read_pending c)) in
  chan_inv c ->
  cfun_channel_full vm [JAbstract ch] = Return (janet_q_count (items c) >=? limit c) /\
  (forall rd, hd_error live = Some rd ->
     exists vm', cfun_channel_push vm [JAbstract ch; x]
                 = Some (vm', Return (JAbstract ch))) /\
  (hd_error live = None ->
   janet_q_count (items c) + 1 < JANET_MAX_Q_CAPACITY ->
     exists vm', cfun_channel_push vm [JAbstract ch; x]
                 = Some (vm', if janet_q_count (items c) >=? limit c
                              then Await else Return (JAbstract ch))).
Proof.
  intros c live Hinv. split; [reflexivity|].
  pose proof (janet_channel_push_spec vm ch x false) as Hs. cbv zeta in Hs.
  fold c in Hs. fold live in Hs.
  destruct (Hs Hinv) as (rp & _ & _ & Hrd & _ & Hnone). split.
  - intros rd Hrd'. rewrite cfun_channel_push_unfold, (Hrd rd Hrd'). by eexists.
  - intros Hl Hroom. destruct (Hnone Hl Hroom) as (it & _ & _ & Hn & Hblock & Hfree).
    rewrite cfun_channel_push_unfold.
    destruct (Z.geb_spec (janet_q_count (items c)) (limit c)).
    + destruct Hblock as (wp & _ & _ & ->); [lia|]. by eexists.
    + rewrite Hfree by lia. by eexists.
Qed.

Lemma cfun_channel_full_give_witness :
  let vm := do_give (do_chan vm_init 0 1) 1 0 (JNumber 10) in
  let ch := 0%nat in
  let x := JNumber 20 in
  let c := channels vm ch in
  let live := skip_stale (fibers vm) (q_contents (read_pending c)) in
  chan_inv c /\
  (cfun_channel_full vm [JAbstract ch] = Return (janet_q_count (items c) >=? limit c) /\
   (forall rd, hd_error live = Some rd ->
      exists vm', cfun_channel_push vm [JAbstract ch; x]
                  = Some (vm', Return (JAbstract ch))) /\
   (hd_error live = None ->
    janet_q_count (items c) + 1 < JANET_MAX_Q_CAPACITY ->
      exists vm', cfun_channel_push vm [JAbstract ch; x]
                  = Some (vm', if janet_q_count (items c) >=? limit c
                               then Await else Return (JAbstract ch)))).
Proof.
  intros vm ch x c live.
  assert (H1 : chan_inv c) by (vm_compute; split_and!; first [reflexivity | discriminate]).
  split; [exact H1|]. exact (cfun_channel_full_give vm ch x H1).
Defined.

(** A channel of limit 1 that holds one item is full, and [ev/give]
    suspends; the same channel when empty is not full, and [ev/give]
    returns the channel. *)
Example cfun_channel_full_run :
  let vm0 := do_chan vm_init 0 1 in
  let vm1 := do_give vm0 1 0 (JNumber 10) in
  cfun_channel_full vm0 [JAbstract 0] = Return false /\
  (cfun_channel_push vm0 [JAbstract 0; JNumber 10] ≫= fun r => Some r.2)
    = Some (Return (JAbstract 0)) /\
  cfun_channel_full vm1 [JAbstract 0] = Return true /\
  (cfun_channel_push vm1 [JAbstract 0; JNumber 20] ≫= fun r => Some r.2) = Some Await.
Proof. vm_compute. done. Qed.

(** X17.  What [ev/chan] creates is what the three observers report: the
    capacity is the argument (0 when there is none), the count is 0 and the
    channel is full exactly when the capacity is 0; no other channel is
    touched. *)
Theorem cfun_channel_new_observers vm channel n :
  (0 <= n <= 2^31 - 1 ->
   exists vm',
     cfun_channel_new vm channel [JNumber n] = (vm', Return (JAbstract channel)) /\
     cfun_channel_capacity vm' [JAbstract channel] = Return (JNumber n) /\
     cfun_channel_count vm' [JAbstract channel] = Return (JNumber 0) /\
     cfun_channel_full vm' [JAbstract channel] = Return (n =? 0) /\
     (forall ch, ch <> channel -> channels vm' ch = channels vm ch)) /\
  (exists vm',
     cfun_channel_new vm channel [] = (vm', Return (JAbstract channel)) /\
     cfun_channel_capacity vm' [JAbstract channel] = Return (JNumber 0) /\
     cfun_channel_count vm' [JAbstract channel] = Return (JNumber 0) /\
     cfun_channel_full vm' [JAbstract channel] = Return true /\
     (forall ch, ch <> channel -> channels vm' ch = channels vm ch)).
Proof.
  split_and!.
  - intros Hn. unfold cfun_channel_new.
    destruct (Z.leb_spec 0 n); [|lia]. destruct (Z.leb_spec n (2^31 - 1)); [|lia].
    cbn [andb]. eexists. split; [reflexivity|].
    unfold cfun_channel_capacity, cfun_channel_count, cfun_channel_full.
    cbn [janet_getabstract channels with_channels]. rewrite !fn_lookup_insert.
    cbn [limit items janet_chan_init].
    split_and!; try done.
    + do 2 f_equal. destruct (Z.geb_spec (janet_q_count (janet_q_init (A:=Janet))) n) as [Hg|Hg];
        destruct (Z.eqb_spec n 0); try done; unfold janet_q_count, janet_q_init in Hg;
        simpl in Hg; lia.
    + intros ch Hch. by rewrite fn_lookup_insert_ne.
  - unfold cfun_channel_new. eexists. split; [reflexivity|].
    unfold cfun_channel_capacity, cfun_channel_count, cfun_channel_full.
    cbn [janet_getabstract channels with_channels]. rewrite !fn_lookup_insert.
    split_and!; try done. intros ch Hch. by rewrite fn_lookup_insert_ne.
Qed.

Lemma cfun_channel_new_observers_witness :
  let vm := vm_init in
  let channel := 7%nat in
  let n := 3 in
  (0 <= n <= 2^31 - 1) /\
  exists vm',
    cfun_channel_new vm channel [JNumber n] = (vm', Return (JAbstract channel)) /\
    cfun_channel_capacity vm' [JAbstract channel] = Return (JNumber n) /\
    cfun_channel_count vm' [JAbstract channel] = Return (JNumber 0) /\
    cfun_channel_full vm' [JAbstract channel] = Return (n =? 0) /\
    (forall ch, ch <> channel -> channels vm' ch = channels vm ch).
Proof.
  intros vm channel n.
  assert (H : 0 <= n <= 2^31 - 1) by (vm_compute; split; discriminate).
  split; [exact H|]. exact (proj1 (cfun_channel_new_observers vm channel n) H).
Defined.

(** *** [ev/go] and [ev/cancel] *)

(** X18.  [ev/go] puts one task for the fiber at the back of the run queue, with
    [JANET_SIGNAL_OK] and the given value, [nil] when there is none;
    [ev/cancel] does the same with [JANET_SIGNAL_ERROR].  Both return the
    fiber.  Once the fiber is on the run queue, a further [ev/go] or
    [ev/cancel] changes nothing and still returns the fiber. *)
Theorem cfun_ev_go_cancel vm fiber v e :
  reachable vm -> ~ scheduled vm fiber ->
  janet_q_count (janet_vm_spawn vm) + 1 < JANET_MAX_Q_CAPACITY ->
  cfun_ev_go vm [JFiber fiber] = cfun_ev_go vm [JFiber fiber; JNil] /\
  (exists vm1,
     cfun_ev_go vm [JFiber fiber; v] = (vm1, Return (JFiber fiber)) /\
     q_contents (janet_vm_spawn vm1)
       = q_contents (janet_vm_spawn vm) ++ [mkTask fiber v JANET_SIGNAL_OK] /\
     cfun_ev_cancel vm1 [JFiber fiber; e] = (vm1, Return (JFiber fiber)) /\
     cfun_ev_go vm1 [JFiber fiber; e] = (vm1, Return (JFiber fiber))) /\
  (exists vm2,
     cfun_ev_cancel vm [JFiber fiber; e] = (vm2, Return (JFiber fiber)) /\
     q_contents (janet_vm_spawn vm2)
       = q_contents (janet_vm_spawn vm) ++ [mkTask fiber e JANET_SIGNAL_ERROR] /\
     cfun_ev_go vm2 [JFiber fiber; v] = (vm2, Return (JFiber fiber)) /\
     cfun_ev_cancel vm2 [JFiber fiber; v] = (vm2, Return (JFiber fiber))).
Proof.
  intros Hr Hns Hroom. destruct (reachable_inv vm Hr) as ((Hwf & _) & _).
  split; [reflexivity|]. split.
  - exists (janet_schedule vm fiber v). split; [reflexivity|].
    pose proof (janet_schedule_signal_sets vm fiber v JANET_SIGNAL_OK) as Hs.
    split; [by apply (janet_schedule_signal_spawn vm fiber v JANET_SIGNAL_OK)|].
    unfold cfun_ev_cancel, cfun_ev_go, janet_cancel, janet_schedule.
    by rewrite !(janet_schedule_signal_noop _ _ _ _ Hs).
  - exists (janet_cancel vm fiber e). split; [reflexivity|].
    pose proof (janet_schedule_signal_sets vm fiber e JANET_SIGNAL_ERROR) as Hs.
    split; [by apply (janet_schedule_signal_spawn vm fiber e JANET_SIGNAL_ERROR)|].
    unfold cfun_ev_cancel, cfun_ev_go, janet_cancel, janet_schedule.
    by rewrite !(janet_schedule_signal_noop _ _ _ _ Hs).
Qed.

Lemma cfun_ev_go_cancel_witness :
  let vm := janet_schedule vm_init 1 (JNumber 7) in
  let fiber := 2%nat in
  let v := JNumber 5 in
  let e := JString "stop" in
  (reachable vm /\ ~ scheduled vm fiber /\
   janet_q_count (janet_vm_spawn vm) + 1 < JANET_MAX_Q_CAPACITY) /\
  (cfun_ev_go vm [JFiber fiber] = cfun_ev_go vm [JFiber fiber; JNil] /\
   (exists vm1,
      cfun_ev_go vm [JFiber fiber; v] = (vm1, Return (JFiber fiber)) /\
      q_contents (janet_vm_spawn vm1)
        = q_contents (janet_vm_spawn vm) ++ [mkTask fiber v JANET_SIGNAL_OK] /\
      cfun_ev_cancel vm1 [JFiber fiber; e] = (vm1, Return (JFiber fiber)) /\
      cfun_ev_go vm1 [JFiber fiber; e] = (vm1, Return (JFiber fiber))) /\
   (exists vm2,
      cfun_ev_cancel vm [JFiber fiber; e] = (vm2, Return (JFiber fiber)) /\
      q_contents (janet_vm_spawn vm2)
        = q_contents (janet_vm_spawn vm) ++ [mkTask fiber e JANET_SIGNAL_ERROR] /\
      cfun_ev_go vm2 [JFiber fiber; v] = (vm2, Return (JFiber fiber)) /\
      cfun_ev_cancel vm2 [JFiber fiber; v] = (vm2, Return (JFiber fiber)))).
Proof.
  intros vm fiber v e.
  assert (H1 : reachable vm) by apply reach_schedule, reach_init.
  assert (H2 : ~ scheduled vm fiber) by (vm_compute; discriminate).
  assert (H3 : janet_q_count (janet_vm_spawn vm) + 1 < JANET_MAX_Q_CAPACITY)
    by (vm_compute; reflexivity).
  split; [by split_and!|]. exact (cfun_ev_go_cancel vm fiber v e H1 H2 H3).
Defined.

(** *** [ev/select] *)

Lemma q_empty_head_tail {A} `{Inhabited A} (q : JanetQueue A) :
  q_wf q -> (head q = tail q <-> janet_q_count q = 0).
Proof.
  intros (Hh & Ht & Hhc & Htc & Hc & Hl). unfold janet_q_count.
  destruct (Z.gtb_spec (head q) (tail q)); lia.
Qed.

(** Clauses that are not ready are passed over by the first loop without
    any effect. *)
Lemma choice_check_skip vm pre rest :
  Forall (fun a => clause_of a <> BadClause /\ clause_ready vm (clause_of a) = false) pre ->
  choice_check vm (pre ++ rest) = choice_check vm rest.
Proof.
  induction 1 as [|a pre [Hbad Hnr] _ IH]; [done|].
  simpl. destruct (clause_of a) as [chan x|chan|]; [| |done].
  - simpl in Hnr. by rewrite Hnr.
  - simpl in Hnr. by rewrite Hnr.
Qed.

Lemma cfun_channel_choice_cons vm a argv :
  cfun_channel_choice vm (a :: argv)
  = choice_check vm (a :: argv) ≫= fun '(vm1, r1) =>
      match r1 with
      | Return (Some r) => Some (vm1, Return r)
      | Panicked m => Some (vm1, Panicked m)
      | Await => Some (vm1, Await)
      | Aborted m => Some (vm1, Aborted m)
      | Return None =>
          choice_wait vm1 (a :: argv) ≫= fun '(vm2, r2) =>
          match r2 with
          | Return _ => Some (vm2, Await)
          | Panicked m => Some (vm2, Panicked m)
          | Await => Some (vm2, Await)
          | Aborted m => Some (vm2, Aborted m)
          end
      end.
Proof. reflexivity. Qed.

Lemma cfun_channel_choice_app vm pre arg post :
  cfun_channel_choice vm (pre ++ arg :: post)
  = choice_check vm (pre ++ arg :: post) ≫= fun '(vm1, r1) =>
      match r1 with
      | Return (Some r) => Some (vm1, Return r)
      | Panicked m => Some (vm1, Panicked m)
      | Await => Some (vm1, Await)
      | Aborted m => Some (vm1, Aborted m)
      | Return None =>
          choice_wait vm1 (pre ++ arg :: post) ≫= fun '(vm2, r2) =>
          match r2 with
          | Return _ => Some (vm2, Await)
          | Panicked m => Some (vm2, Panicked m)
          | Await => Some (vm2, Await)
          | Aborted m => Some (vm2, Aborted m)
          end
      end.
Proof. destruct pre; apply cfun_channel_choice_cons. Qed.

(** X19.  [ev/select] takes the first clause, in the order of the arguments,
    that can succeed at once: the clauses before it are passed over without
    any effect and the clauses behind it are not looked at.  A read clause
    yields [[:take ch y]] with [y] the front item of the channel, which is
    removed; a write clause yields [[:give ch]] after the give. *)
Theorem cfun_channel_choice_first_ready vm pre arg post :
  reachable vm ->
  Forall (fun a => clause_of a <> BadClause /\ clause_ready vm (clause_of a) = false) pre ->
  clause_ready vm (clause_of arg) = true ->
  match clause_of arg with
  | ReadClause ch =>
      exists y l,
        q_contents (items (channels vm ch)) = y :: l /\
        cfun_channel_choice vm (pre ++ arg :: post)
        = Some ((janet_channel_pop vm ch true).1, Return (make_read_result ch y)) /\
        q_contents (items (channels (janet_channel_pop vm ch true).1 ch)) = l
  | WriteClause ch x =>
      exists vm' r,
        janet_channel_push vm ch x true = Some (vm', r) /\
        (r = Return 0 /\
         cfun_channel_choice vm (pre ++ arg :: post)
         = Some (vm', Return (make_write_result ch))
         \/
         r = Panicked "channel overflow: %v" /\
         cfun_channel_choice vm (pre ++ arg :: post)
         = Some (vm', Panicked "channel overflow: %v"))
  | BadClause => False
  end.
Proof.
  intros Hr Hpre Hready. pose proof (reachable_inv vm Hr) as Hinv.
  destruct Hinv as (Hsp & Hpi & Hch).
  rewrite cfun_channel_choice_app, (choice_check_skip vm pre _ Hpre).
  destruct (clause_of arg) as [ch x|ch|] eqn:Hcl; [| |done].
  - simpl in Hready. apply Z.ltb_lt in Hready.
    destruct (choice_check_write vm ch x (Hch ch)) as [Hw _].
    destruct (Hw Hready) as (vm' & r & Hpush & Hshape & _).
    exists vm', r. split; [done|].
    cbn [choice_check]. rewrite Hcl. apply Z.ltb_lt in Hready. rewrite Hready, Hpush.
    destruct Hshape as [-> | ->]; [left|right]; done.
  - simpl in Hready. apply negb_true_iff, Z.eqb_neq in Hready.
    destruct (Hch ch) as (Hwi & _).
    assert (Hne : q_contents (items (channels vm ch)) <> []).
    { intros Hnil. apply Hready, q_empty_head_tail; [done|].
      by apply q_contents_nil_count. }
    destruct (q_contents (items (channels vm ch))) as [|y l] eqn:Hit; [done|].
    exists y, l. split; [done|].
    destruct (janet_channel_pop_item vm ch y l) as (vm1 & Hq & Hit1 & _); [by split_and!|done|].
    assert (Hq' : exists vm1', janet_channel_pop vm ch true = (vm1', (1, Some y)) /\
                               q_contents (items (channels vm1' ch)) = l).
    { pose proof (janet_channel_pop_spec vm ch true) as Hs. cbv zeta in Hs.
      destruct (janet_q_pop_cons _ y l Hwi Hit) as (it & Hpop & _ & Hcit).
      rewrite Hpop in Hs. destruct (janet_q_pop (write_pending (channels vm ch))) as [[w wp]|].
      - eexists. split; [exact Hs|]. by rewrite channels_schedule, channels_put.
      - eexists. split; [exact Hs|]. by rewrite channels_put. }
    destruct Hq' as (vm1' & Hq' & Hit').
    cbn [choice_check]. rewrite Hcl.
    apply Z.eqb_neq in Hready. rewrite Hready. cbn [negb]. rewrite Hq'. done.
Qed.

Lemma cfun_channel_choice_first_ready_witness :
  let vm := with_root_fiber
              (do_give (do_chan (do_chan (do_chan vm_init 0 0) 1 1) 2 1) 1 2 (JNumber 10)) 3 in
  let pre := [JAbstract 0; JAbstract 1; JTuple [JAbstract 0; JNumber 5]] in
  let arg := JAbstract 2 in
  let post := [JTuple [JAbstract 1; JNumber 6]; JNil] in
  (reachable vm /\
   Forall (fun a => clause_of a <> BadClause /\ clause_ready vm (clause_of a) = false) pre /\
   clause_ready vm (clause_of arg) = true) /\
  exists y l,
    q_contents (items (channels vm 2)) = y :: l /\
    cfun_channel_choice vm (pre ++ arg :: post)
    = Some ((janet_channel_pop vm 2 true).1, Return (make_read_result 2 y)) /\
    q_contents (items (channels (janet_channel_pop vm 2 true).1 2)) = l.
Proof.
  intros vm pre arg post.
  assert (H1 : reachable vm).
  { apply reach_root, reachable_do_give, reachable_do_chan, reachable_do_chan,
      reachable_do_chan, reach_init. }
  assert (H2 : Forall (fun a => clause_of a <> BadClause /\
                                clause_ready vm (clause_of a) = false) pre).
  { repeat constructor; discriminate. }
  assert (H3 : clause_ready vm (clause_of arg) = true) by reflexivity.
  split; [by split_and!|].
  exact (cfun_channel_choice_first_ready vm pre arg post H1 H2 H3).
Defined.

(** Channels 0 and 1 are empty, channel 0 has no room; channel 2 holds 10.
    The select passes over the first three clauses and returns
    [[:take 2 10]]; the clauses behind, one of them not even a clause, do
    not matter. *)
Example cfun_channel_choice_first_ready_run :
  let vm := with_root_fiber
              (do_give (do_chan (do_chan (do_chan vm_init 0 0) 1 1) 2 1) 1 2 (JNumber 10)) 3 in
  (cfun_channel_choice vm
     [JAbstract 0; JAbstract 1; JTuple [JAbstract 0; JNumber 5]; JAbstract 2;
      JTuple [JAbstract 1; JNumber 6]; JNil]
   ≫= fun r => Some r.2)
  = Some (Return (JTuple [JKeyword "take"; JAbstract 2; JNumber 10])).
Proof. vm_compute. reflexivity. Qed.

(** The second loop on read clauses whose channels are all empty. *)
Lemma choice_wait_reads chans : forall vm,
  (forall ch, chan_inv (channels vm ch)) ->
  (forall ch, ch ∈ chans -> q_contents (items (channels vm ch)) = []) ->
  (forall ch, ch ∈ chans ->
     janet_q_count (read_pending (channels vm ch)) + Z.of_nat (length chans)
       < JANET_MAX_Q_CAPACITY) ->
  exists vm',
    choice_wait vm (JAbstract <$> chans) = Some (vm', Return tt) /\
    fibers vm' = fibers vm /\ janet_vm_spawn vm' = janet_vm_spawn vm /\
    janet_vm_root_fiber vm' = janet_vm_root_fiber vm /\
    forall ch,
      items (channels vm' ch) = items (channels vm ch) /\
      write_pending (channels vm' ch) = write_pending (channels vm ch) /\
      limit (channels vm' ch) = limit (channels vm ch) /\
      q_contents (read_pending (channels vm' ch))
      = q_contents (read_pending (channels vm ch))
        ++ replicate (count_occ Nat.eq_dec chans ch) (pending_of vm true true).
Proof.
  induction chans as [|c0 rest IH]; intros vm Hch Hemp Hroom.
  - exists vm. split_and!; try done. intros ch. split_and!; try done.
    simpl. by rewrite app_nil_r.
  - destruct (Hch c0) as (Hwi & Hwr & Hww & Hlim & Hwc & Hic).
    pose proof (janet_channel_pop_spec vm c0 true) as Hq. cbv zeta in Hq.
    rewrite (janet_q_pop_nil _ Hwi (Hemp c0 ltac:(by left))) in Hq.
    set (pd := pending_of vm true true) in *.
    destruct (q_push_ignore_spec (read_pending (channels vm c0)) pd Hwr) as (Hwr1 & Hc1 & _).
    specialize (Hroom c0 ltac:(by left)) as Hroom0. simpl length in Hroom0.
    specialize (Hc1 ltac:(lia)).
    set (c1 := with_read_pending (channels vm c0)
                 (q_push_ignore (read_pending (channels vm c0)) pd)) in *.
    set (vm1 := put_channel vm c0 c1) in *.
    assert (Hchan1 : forall ch, channels vm1 ch = if decide (c0 = ch) then c1 else channels vm ch).
    { intros ch. unfold vm1. case_decide as E.
      - subst. apply channels_put.
      - by apply channels_put_ne. }
    destruct (IH vm1) as (vm' & Hrun & Hf & Hs & Hroot & Hall).
    + intros ch. rewrite Hchan1. case_decide; [|done].
      unfold chan_inv, c1. cbn [items read_pending write_pending limit with_read_pending].
      by split_and!.
    + intros ch Hin. rewrite Hchan1. case_decide; [subst|]; [|apply Hemp; by right].
      unfold c1. cbn [items with_read_pending]. apply Hemp. by left.
    + intros ch Hin. rewrite Hchan1. case_decide as E.
      * unfold c1. cbn [read_pending with_read_pending].
        rewrite (janet_q_count_contents _ Hwr1), Hc1, length_app.
        rewrite (janet_q_count_contents _ Hwr) in Hroom0. simpl. lia.
      * specialize (Hroom ch ltac:(by right)). simpl length in Hroom. lia.
    + exists vm'. split_and!; try done.
      * cbn [fmap list_fmap choice_wait clause_of janet_getabstract]. by rewrite Hq.
      * intros ch. destruct (Hall ch) as (Hi & Hw & Hl & Hr). rewrite Hi, Hw, Hl, Hr, Hchan1.
        change (pending_of vm1 true true) with pd.
        case_decide as E.
        -- subst ch. unfold c1. cbn [items read_pending write_pending limit with_read_pending].
           split_and!; try done. rewrite Hc1, count_occ_cons_eq by done.
           simpl. by rewrite <- app_assoc.
        -- split_and!; try done. by rewrite count_occ_cons_neq.
Qed.

(** X20.  [ev/select] with read clauses only, on channels that are all empty:
    the caller is registered on the channel of each clause, once per
    clause and in [JANET_CP_MODE_CHOICE_READ], nothing else changes, and the
    caller is suspended. *)
Theorem cfun_channel_choice_registers_reads vm chans :
  reachable vm -> chans <> [] ->
  (forall ch, ch ∈ chans -> q_contents (items (channels vm ch)) = []) ->
  (forall ch, ch ∈ chans ->
     janet_q_count (read_pending (channels vm ch)) + Z.of_nat (length chans)
       < JANET_MAX_Q_CAPACITY) ->
  exists vm',
    cfun_channel_choice vm (JAbstract <$> chans) = Some (vm', Await) /\
    fibers vm' = fibers vm /\ janet_vm_spawn vm' = janet_vm_spawn vm /\
    forall ch,
      items (channels vm' ch) = items (channels vm ch) /\
      write_pending (channels vm' ch) = write_pending (channels vm ch) /\
      q_contents (read_pending (channels vm' ch))
      = q_contents (read_pending (channels vm ch))
        ++ replicate (count_occ Nat.eq_dec chans ch)
             (mkPending (janet_vm_root_fiber vm)
                        (sched_id (fibers vm (janet_vm_root_fiber vm)))
                        JANET_CP_MODE_CHOICE_READ).
Proof.
  intros Hr Hne Hemp Hroom. destruct (reachable_inv vm Hr) as (_ & _ & Hch).
  destruct (choice_wait_reads chans vm Hch Hemp Hroom) as (vm' & Hrun & Hf & Hs & _ & Hall).
  assert (Hcheck : choice_check vm (JAbstract <$> chans) = Some (vm, Return None)).
  { rewrite <- (app_nil_r (JAbstract <$> chans)). rewrite choice_check_skip; [done|].
    apply Forall_fmap, Forall_forall. intros ch Hin. simpl. split; [done|].
    apply negb_false_iff, Z.eqb_eq. destruct (Hch ch) as (Hwi & _).
    apply q_empty_head_tail; [done|]. apply q_contents_nil_count; [done|]. by apply Hemp. }
  exists vm'. split_and!; try done.
  - destruct chans as [|c0 rest]; [done|].
    change (JAbstract <$> c0 :: rest) with (JAbstract c0 :: (JAbstract <$> rest)) in *.
    rewrite cfun_channel_choice_cons, Hcheck. cbn [mbind option_bind].
    by rewrite Hrun.
  - intros ch. destruct (Hall ch) as (? & ? & ? & ?). by split_and!.
Qed.

Lemma cfun_channel_choice_registers_reads_witness :
  let vm := with_root_fiber (do_chan (do_chan vm_init 0 0) 1 2) 3 in
  let chans := [0; 1; 0]%nat in
  (reachable vm /\ chans <> [] /\
   (forall ch, ch ∈ chans -> q_contents (items (channels vm ch)) = []) /\
   (forall ch, ch ∈ chans ->
      janet_q_count (read_pending (channels vm ch)) + Z.of_nat (length chans)
        < JANET_MAX_Q_CAPACITY)) /\
  exists vm',
    cfun_channel_choice vm (JAbstract <$> chans) = Some (vm', Await) /\
    fibers vm' = fibers vm /\ janet_vm_spawn vm' = janet_vm_spawn vm /\
    forall ch,
      items (channels vm' ch) = items (channels vm ch) /\
      write_pending (channels vm' ch) = write_pending (channels vm ch) /\
      q_contents (read_pending (channels vm' ch))
      = q_contents (read_pending (channels vm ch))
        ++ replicate (count_occ Nat.eq_dec chans ch)
             (mkPending (janet_vm_root_fiber vm)
                        (sched_id (fibers vm (janet_vm_root_fiber vm)))
                        JANET_CP_MODE_CHOICE_READ).
Proof.
  intros vm chans.
  assert (H1 : reachable vm).
  { apply reach_root, reachable_do_chan, reachable_do_chan, reach_init. }
  assert (H2 : chans <> []) by discriminate.
  assert (Hcases : forall ch, ch ∈ chans -> ch = 0%nat \/ ch = 1%nat).
  { intros ch Hin. unfold chans in Hin. rewrite !elem_of_cons in Hin.
    destruct Hin as [?|[?|[?|Hn]]]; [by left|by right|by left|by apply elem_of_nil in Hn]. }
  assert (H3 : forall ch, ch ∈ chans -> q_contents (items (channels vm ch)) = []).
  { intros ch Hin. destruct (Hcases ch Hin) as [-> | ->]; reflexivity. }
  assert (H4 : forall ch, ch ∈ chans ->
            janet_q_count (read_pending (channels vm ch)) + Z.of_nat (length chans)
              < JANET_MAX_Q_CAPACITY).
  { intros ch Hin. destruct (Hcases ch Hin) as [-> | ->]; vm_compute; reflexivity. }
  split; [by split_and!|].
  exact (cfun_channel_choice_registers_reads vm chans H1 H2 H3 H4).
Defined.

(** X21.  A fiber that waits in [ev/select] and is not scheduled is woken
    by one clause only.  Let its registration be the first live reader of
    [ch1], and let every entry of [read_pending] of [ch2] be a registration
    of the fiber with the same [sched_id].  The give on [ch1] returns 0 and
    is a [janet_schedule] of the fiber with [[:take ch1 x1]], after which
    the fiber carries the flag and a new [sched_id]; a later give on [ch2],
    whose [items] is below the hard cap, discards the registrations there
    as stale, stores its value in the channel and changes neither a fiber
    nor the run queue. *)
Theorem select_woken_once vm ch1 ch2 x1 x2 f l1 :
  ch1 <> ch2 ->
  chan_inv (channels vm ch1) -> chan_inv (channels vm ch2) ->
  0 <= sched_id (fibers vm f) < 2^32 ->
  ~ scheduled vm f ->
  skip_stale (fibers vm) (q_contents (read_pending (channels vm ch1)))
    = mkPending f (sched_id (fibers vm f)) JANET_CP_MODE_CHOICE_READ :: l1 ->
  Forall (fun p => pending_fiber p = f /\ pending_sched_id p = sched_id (fibers vm f))
         (q_contents (read_pending (channels vm ch2))) ->
  janet_q_count (items (channels vm ch2)) + 1 < JANET_MAX_Q_CAPACITY ->
  exists vm1 vm2 r,
    janet_channel_push vm ch1 x1 false = Some (vm1, Return 0) /\
    (exists c1, vm1 = janet_schedule (put_channel vm ch1 c1) f (make_read_result ch1 x1)) /\
    scheduled vm1 f /\
    sched_id (fibers vm1 f) <> sched_id (fibers vm f) /\
    janet_channel_push vm1 ch2 x2 false = Some (vm2, r) /\
    q_contents (items (channels vm2 ch2)) = q_contents (items (channels vm ch2)) ++ [x2] /\
    q_contents (read_pending (channels vm2 ch2)) = [] /\
    fibers vm2 = fibers vm1 /\
    janet_vm_spawn vm2 = janet_vm_spawn vm1.
Proof.
  intros Hne Hinv1 Hinv2 Hrange Hns Hlive Hreg Hroom.
  set (s := sched_id (fibers vm f)) in *.
  set (p := mkPending f s JANET_CP_MODE_CHOICE_READ) in *.
  pose proof (janet_channel_push_spec vm ch1 x1 false) as Hs1. cbv zeta in Hs1.
  rewrite Hlive in Hs1. destruct (Hs1 Hinv1) as (rp1 & Hrp1wf & Hrp1 & Hpush1 & _).
  specialize (Hpush1 p eq_refl).
  change (reader_value ch1 x1 p) with (make_read_result ch1 x1) in Hpush1.
  change (pending_fiber p) with f in Hpush1.
  set (vm0 := put_channel vm ch1 (with_read_pending (channels vm ch1) rp1)) in *.
  set (vm1 := janet_schedule vm0 f (make_read_result ch1 x1)) in *.
  assert (Hsid : sched_id (fibers vm1 f) = wrap32 (s + 1)).
  { unfold vm1, janet_schedule. rewrite janet_schedule_signal_fresh by done. simpl.
    by rewrite fn_lookup_insert. }
  assert (Hc2 : channels vm1 ch2 = channels vm ch2).
  { unfold vm1. rewrite channels_schedule. by apply channels_put_ne. }
  assert (Hst : skip_stale (fibers vm1) (q_contents (read_pending (channels vm ch2))) = []).
  { pose proof (wrap32_succ_ne s Hrange) as Hw.
    induction Hreg as [|q qs [Hqf Hqs] _ IH]; [done|]. simpl.
    unfold is_stale. rewrite Hqf, Hqs, Hsid.
    destruct (Z.eqb_spec s (wrap32 (s + 1))) as [E|N]; [congruence|]. simpl. exact IH. }
  pose proof (janet_channel_push_spec vm1 ch2 x2 false) as Hs2. cbv zeta in Hs2.
  rewrite Hc2, Hst in Hs2. destruct (Hs2 Hinv2) as (rp2 & Hrp2wf & Hrp2 & _ & _ & Hpush2).
  destruct (Hpush2 eq_refl Hroom) as (it & Hitwf & Hitc & Hitn & Hblock & Hfree).
  exists vm1.
  assert (Hs : scheduled vm1 f) by apply janet_schedule_signal_sets.
  assert (Hnew : sched_id (fibers vm1 f) <> s).
  { rewrite Hsid. intros E. by apply (wrap32_succ_ne s Hrange). }
  destruct (Z_gt_le_dec (janet_q_count it) (limit (channels vm ch2))) as [Hgt|Hle]; cycle 1.
  - eexists _, _. split; [exact Hpush1|]. split; [by eexists|]. split; [done|].
    split; [done|].
    split; [exact (Hfree Hle)|]. rewrite channels_put. by cbn [items read_pending].
  - destruct (Hblock Hgt) as (wp & _ & _ & Hp).
    eexists _, _. split; [exact Hpush1|]. split; [by eexists|]. split; [done|].
    split; [done|].
    split; [exact Hp|]. rewrite channels_put. by cbn [items read_pending].
Qed.

Lemma select_woken_once_witness :
  let vmA := with_root_fiber (do_chan (do_chan vm_init 0 0) 1 2) 3 in
  let vmB := match cfun_channel_choice vmA [JAbstract 0; JAbstract 1] with
             | Some (v, _) => v
             | None => vmA
             end in
  let vm := with_root_fiber vmB 1 in
  let ch1 := 0%nat in
  let ch2 := 1%nat in
  let x1 := JNumber 42 in
  let x2 := JNumber 43 in
  let f := 3%nat in
  let l1 := @nil JanetChannelPending in
  (ch1 <> ch2 /\
   chan_inv (channels vm ch1) /\ chan_inv (channels vm ch2) /\
   0 <= sched_id (fibers vm f) < 2^32 /\
   ~ scheduled vm f /\
   skip_stale (fibers vm) (q_contents (read_pending (channels vm ch1)))
     = mkPending f (sched_id (fibers vm f)) JANET_CP_MODE_CHOICE_READ :: l1 /\
   Forall (fun p => pending_fiber p = f /\ pending_sched_id p = sched_id (fibers vm f))
          (q_contents (read_pending (channels vm ch2))) /\
   janet_q_count (items (channels vm ch2)) + 1 < JANET_MAX_Q_CAPACITY) /\
  exists vm1 vm2 r,
    janet_channel_push vm ch1 x1 false = Some (vm1, Return 0) /\
    (exists c1, vm1 = janet_schedule (put_channel vm ch1 c1) f (make_read_result ch1 x1)) /\
    scheduled vm1 f /\
    sched_id (fibers vm1 f) <> sched_id (fibers vm f) /\
    janet_channel_push vm1 ch2 x2 false = Some (vm2, r) /\
    q_contents (items (channels vm2 ch2)) = q_contents (items (channels vm ch2)) ++ [x2] /\
    q_contents (read_pending (channels vm2 ch2)) = [] /\
    fibers vm2 = fibers vm1 /\
    janet_vm_spawn vm2 = janet_vm_spawn vm1.
Proof.
  intros vmA vmB vm ch1 ch2 x1 x2 f l1.
  assert (H1 : ch1 <> ch2) by discriminate.
  assert (H2 : chan_inv (channels vm ch1))
    by (vm_compute; split_and!; first [reflexivity | discriminate]).
  assert (H3 : chan_inv (channels vm ch2))
    by (vm_compute; split_and!; first [reflexivity | discriminate]).
  assert (H4 : 0 <= sched_id (fibers vm f) < 2^32)
    by (vm_compute; split; [discriminate|reflexivity]).
  assert (H5 : ~ scheduled vm f) by (vm_compute; discriminate).
  assert (H6 : skip_stale (fibers vm) (q_contents (read_pending (channels vm ch1)))
               = mkPending f (sched_id (fibers vm f)) JANET_CP_MODE_CHOICE_READ :: l1)
    by reflexivity.
  assert (H7 : Forall (fun p => pending_fiber p = f /\
                                pending_sched_id p = sched_id (fibers vm f))
                      (q_contents (read_pending (channels vm ch2)))).
  { change (q_contents (read_pending (channels vm ch2)))
      with [mkPending 3 0 JANET_CP_MODE_CHOICE_READ].
    repeat constructor. }
  assert (H8 : janet_q_count (items (channels vm ch2)) + 1 < JANET_MAX_Q_CAPACITY)
    by (vm_compute; reflexivity).
  split; [by split_and!|].
  exact (select_woken_once vm ch1 ch2 x1 x2 f l1 H1 H2 H3 H4 H5 H6 H7 H8).
Defined.

(** Fiber 3 selects on channels 0 and 1; fiber 1 gives 42 on channel 0 and
    then 43 on channel 1.  Fiber 3 is on the run queue once, with
    [[:take 0 42]]; 43 stays in channel 1. *)
Example select_woken_once_run :
  let vmA := with_root_fiber (do_chan (do_chan vm_init 0 0) 1 2) 3 in
  let vmB := match cfun_channel_choice vmA [JAbstract 0; JAbstract 1] with
             | Some (v, _) => v
             | None => vmA
             end in
  let vm2 := do_give (do_give vmB 1 0 (JNumber 42)) 1 1 (JNumber 43) in
  q_contents (read_pending (channels vmB 0)) = [mkPending 3 0 JANET_CP_MODE_CHOICE_READ] /\
  q_contents (read_pending (channels vmB 1)) = [mkPending 3 0 JANET_CP_MODE_CHOICE_READ] /\
  q_contents (janet_vm_spawn vm2)
    = [mkTask 3 (JTuple [JKeyword "take"; JAbstract 0; JNumber 42]) JANET_SIGNAL_OK] /\
  q_contents (items (channels vm2 1)) = [JNumber 43] /\
  q_contents (read_pending (channels vm2 1)) = [].
Proof. vm_compute. done. Qed.

(** *** [ev/rselect] *)

Section ShuffleFacts.
Context {JanetRNG : Type} (janet_rng_u32 : JanetRNG -> Z * JanetRNG).

Lemma fisher_yates_loop_perm i : forall rng argv,
  (i <= length argv)%nat ->
  (fisher_yates_loop janet_rng_u32 i rng argv).2 ≡ₚ argv.
Proof.
  induction i as [|i IH]; intros rng argv Hi; [done|].
  cbn [fisher_yates_loop]. destruct (Nat.ltb_spec 1 (S i)) as [H1|H1]; [|done].
  destruct (janet_rng_u32 rng) as [r rng'].
  set (k := Z.to_nat (r mod Z.of_nat (S i))).
  assert (Hk : (k < S i)%nat).
  { unfold k. pose proof (Z.mod_pos_bound r (Z.of_nat (S i))). lia. }
  rewrite IH by (rewrite !length_insert; lia).
  apply Permutation_insert_swap; apply list_lookup_lookup_total_lt; lia.
Qed.

(** X22.  [fisher_yates_args] rearranges the clauses and neither drops nor
    repeats one, whatever numbers the generator hands back; so
    [ev/rselect] is [ev/select] on the same clauses in some order.  With
    less than two clauses the order is unchanged. *)
Theorem cfun_channel_rchoice_permutes rng vm argv :
  exists rng' argv',
    fisher_yates_args janet_rng_u32 rng argv = (rng', argv') /\
    argv' ≡ₚ argv /\
    cfun_channel_rchoice janet_rng_u32 rng vm argv = (rng', cfun_channel_choice vm argv') /\
    ((length argv <= 1)%nat -> argv' = argv /\ rng' = rng).
Proof.
  destruct (fisher_yates_args janet_rng_u32 rng argv) as [rng' argv'] eqn:E.
  exists rng', argv'. split; [done|]. split_and!.
  - pose proof (fisher_yates_loop_perm (length argv) rng argv (le_n _)) as Hp.
    unfold fisher_yates_args in E. by rewrite E in Hp.
  - unfold cfun_channel_rchoice. by rewrite E.
  - intros Hlen. unfold fisher_yates_args in E.
    destruct argv as [|a [|b argv]]; simpl in *; [by injection E as <- <-..|lia].
Qed.

End ShuffleFacts.

(** With a generator that counts up from 5, three clauses are
    rearranged. *)
Example fisher_yates_args_run :
  (fisher_yates_args (fun n => (n, n + 1)) 5 [JNumber 0; JNumber 1; JNumber 2]).2
  = [JNumber 1; JNumber 0; JNumber 2].
Proof. vm_compute. reflexivity. Qed.

End CfunsFacts.

Module PollReactorFacts.
Import RingQueue RingQueueFacts Ev SchedulerFacts PollableFacts ChannelFacts.
Import PollReactor.
Local Open Scope nat_scope.

Lemma poll_registered_index s a :
  poll_table_ok s -> a ∈ poll_registered s ->
  state_index s a < janet_vm_fdcount s /\
  janet_vm_listener_map s !!! state_index s a = a.
Proof.
  intros (Hc & Hf & Hm & Hi) Hin. unfold poll_registered in Hin.
  apply list_elem_of_lookup in Hin as [j Hj].
  rewrite lookup_take in Hj. case_decide as Hlt; [|done].
  apply list_lookup_total_correct in Hj. specialize (Hi j Hlt). rewrite Hj in Hi.
  rewrite Hi. done.
Qed.

Lemma poll_registered_lookup s i :
  poll_table_ok s -> i < janet_vm_fdcount s ->
  janet_vm_listener_map s !!! i ∈ poll_registered s.
Proof.
  intros (Hc & Hf & Hm & Hi) Hlt. unfold poll_registered.
  apply (list_elem_of_lookup_2 _ i). rewrite lookup_take. case_decide; [|lia].
  apply list_lookup_lookup_total_lt. lia.
Qed.

Lemma snoc_insert_perm {A} (L : list A) i x y :
  L !! i = Some y -> L ++ [x] ≡ₚ y :: <[i := x]> L.
Proof.
  intros Hi. pose proof (lookup_lt_Some _ _ _ Hi) as Hlt.
  rewrite <- (Permutation_insert_swap (L ++ [x]) i (length L) y x).
  - rewrite insert_app_l by done.
    rewrite insert_app_r_alt by (rewrite length_insert; lia).
    rewrite length_insert, Nat.sub_diag. simpl. by rewrite Permutation_app_comm.
  - by rewrite lookup_app_l.
  - rewrite lookup_app_r by lia. by rewrite Nat.sub_diag.
Qed.

(** X27.  [janet_unlisten] of the [poll] variant takes exactly the given
    listener out of the table: the cell of the listener is filled with the
    last cell in use, the listener that moves records its new index, every
    other listener keeps its own [pollfd], and the table invariant is
    kept. *)
Theorem poll_janet_unlisten_removes vm s st :
  poll_table_ok s ->
  state_addr st ∈ poll_registered s ->
  exists vm' s' r,
    janet_unlisten vm s st = (vm', s', r) /\
    janet_unlisten_impl vm st = (vm', r) /\
    poll_table_ok s' /\
    S (janet_vm_fdcount s') = janet_vm_fdcount s /\
    poll_registered s ≡ₚ state_addr st :: poll_registered s' /\
    (state_addr st ∉ poll_registered s') /\
    forall a, a ∈ poll_registered s -> a <> state_addr st ->
      state_index s' a < janet_vm_fdcount s' /\
      janet_vm_listener_map s' !!! state_index s' a = a /\
      janet_vm_fds s' !!! state_index s' a = janet_vm_fds s !!! state_index s a.
Proof.
  intros Hok Hreg.
  destruct (poll_registered_index s _ Hok Hreg) as [Hilt Himap].
  destruct Hok as (Hc & Hf & Hm & Hi).
  set (i := state_index s (state_addr st)) in *.
  set (n := pred (janet_vm_fdcount s)).
  assert (Hn : janet_vm_fdcount s = S n) by (unfold n; lia).
  set (rep := janet_vm_listener_map s !!! n).
  assert (Hirep : state_index s rep = n) by (apply Hi; lia).
  unfold janet_unlisten. fold i n rep.
  destruct (janet_unlisten_impl vm st) as [vm' r].
  eexists _, _, _. split; [reflexivity|]. split; [reflexivity|].
  assert (Hinj : forall j k, j < S n -> k < S n ->
            janet_vm_listener_map s !!! j = janet_vm_listener_map s !!! k -> j = k).
  { intros j k Hj Hk E. rewrite <- (Hi j), <- (Hi k) by lia. by rewrite E. }
  assert (Hmap' : forall k, k < length (janet_vm_listener_map s) ->
            (<[i := rep]> (janet_vm_listener_map s)) !!! k
            = if decide (i = k) then rep else janet_vm_listener_map s !!! k).
  { intros k Hk. case_decide as E.
    - subst k. apply list_lookup_total_insert_eq. lia.
    - by apply list_lookup_total_insert_ne. }
  assert (Hfds' : forall k, k < length (janet_vm_fds s) ->
            (<[i := janet_vm_fds s !!! n]> (janet_vm_fds s)) !!! k
            = if decide (i = k) then janet_vm_fds s !!! n else janet_vm_fds s !!! k).
  { intros k Hk. case_decide as E.
    - subst k. apply list_lookup_total_insert_eq. lia.
    - by apply list_lookup_total_insert_ne. }
  assert (Hperm : poll_registered s
                  ≡ₚ state_addr st :: take n (<[i := rep]> (janet_vm_listener_map s))).
  { unfold poll_registered. rewrite Hn.
    rewrite (take_S_r _ n rep) by (apply list_lookup_lookup_total_lt; lia).
    destruct (decide (i = n)) as [E|E].
    - rewrite take_insert_ge by lia. rewrite <- Himap, E. fold rep.
      by rewrite Permutation_app_comm.
    - rewrite take_insert_lt by lia. apply snoc_insert_perm.
      rewrite lookup_take_lt by lia. rewrite <- Himap.
      apply list_lookup_lookup_total_lt. lia. }
  assert (Hnd : NoDup (poll_registered s)).
  { unfold poll_registered. apply NoDup_alt. intros j k x Hj Hk.
    rewrite lookup_take in Hj, Hk. repeat case_decide; try done.
    apply list_lookup_total_correct in Hj, Hk. apply Hinj; [lia..|congruence]. }
  split_and!.
  - unfold poll_table_ok. cbn [janet_vm_fdcount janet_vm_fdcap janet_vm_fds
      janet_vm_listener_map state_index].
    rewrite !length_insert. split_and!; try done; [lia|].
    intros k Hk. rewrite Hmap' by lia. case_decide as E.
    + subst k. apply fn_lookup_insert.
    + rewrite fn_lookup_insert_ne; [apply Hi; lia|].
      intros Er. apply (Hinj n k) in Er; lia.
  - cbn [janet_vm_fdcount]. lia.
  - exact Hperm.
  - unfold poll_registered at 1. cbn [janet_vm_fdcount janet_vm_listener_map].
    rewrite Hperm in Hnd. by apply NoDup_cons in Hnd as [? _].
  - intros a Ha Hne. cbn [janet_vm_fdcount janet_vm_fds janet_vm_listener_map state_index].
    destruct (poll_registered_index s a) as [Halt Hamap]; [by split_and!|done|].
    set (j := state_index s a) in *.
    assert (Hji : j <> i) by (intros E; apply Hne; rewrite <- Hamap, <- Himap; by rewrite E).
    destruct (decide (a = rep)) as [E|E].
    + assert (j = n) by (unfold j; by rewrite E).
      rewrite E, fn_lookup_insert.
      rewrite Hmap', Hfds' by lia. rewrite !decide_True by done.
      split_and!; [lia|done|congruence].
    + rewrite fn_lookup_insert_ne by done. fold j.
      assert (j <> n) by (intros Ej; apply E; unfold rep; by rewrite <- Ej).
      rewrite Hmap', Hfds' by lia. rewrite !decide_False by done.
      split_and!; [lia|done|done].
Qed.

Lemma poll_janet_unlisten_removes_witness :
  let vm1 := (janet_listen 1 2 1 4 (with_root_fiber vm_init 1) janet_ev_init 7 0 1 100).1 in
  let vm2 := (janet_listen 1 2 1 4 (with_root_fiber vm1.1 2) vm1.2 8 1 2 101).1 in
  let vm3 := (janet_listen 1 2 1 4 (with_root_fiber vm2.1 3) vm2.2 9 2 1 102).1 in
  let vm := vm3.1 in
  let s := vm3.2 in
  let st := mkState 100 (Some 1%nat) 0 (Z.lor 1 JANET_ASYNC_LISTEN_SPAWNER) in
  (poll_table_ok s /\ state_addr st ∈ poll_registered s) /\
  exists vm' s' r,
    janet_unlisten vm s st = (vm', s', r) /\
    janet_unlisten_impl vm st = (vm', r) /\
    poll_table_ok s' /\
    S (janet_vm_fdcount s') = janet_vm_fdcount s /\
    poll_registered s ≡ₚ state_addr st :: poll_registered s' /\
    (state_addr st ∉ poll_registered s') /\
    forall a, a ∈ poll_registered s -> a <> state_addr st ->
      state_index s' a < janet_vm_fdcount s' /\
      janet_vm_listener_map s' !!! state_index s' a = a /\
      janet_vm_fds s' !!! state_index s' a = janet_vm_fds s !!! state_index s a.
Proof.
  intros vm1 vm2 vm3 vm s st.
  assert (H1 : poll_table_ok s).
  { split_and!; [vm_compute; lia|reflexivity|reflexivity|].
    intros i Hi. change (janet_vm_fdcount s) with 3 in Hi.
    assert (i = 0 \/ i = 1 \/ i = 2) as [-> | [-> | ->]] by lia; reflexivity. }
  assert (H2 : state_addr st ∈ poll_registered s).
  { change (poll_registered s) with [100; 101; 102]. by left. }
  split; [by split|]. exact (poll_janet_unlisten_removes vm s st H1 H2).
Defined.

(** Three listeners are registered, with descriptors 7, 8 and 9.  When the
    first one unlistens, the third takes its cell. *)
Example poll_janet_unlisten_run :
  let vm1 := (janet_listen 1 2 1 4 (with_root_fiber vm_init 1) janet_ev_init 7 0 1 100).1 in
  let vm2 := (janet_listen 1 2 1 4 (with_root_fiber vm1.1 2) vm1.2 8 1 2 101).1 in
  let vm3 := (janet_listen 1 2 1 4 (with_root_fiber vm2.1 3) vm2.2 9 2 1 102).1 in
  let st := mkState 100 (Some 1%nat) 0 (Z.lor 1 JANET_ASYNC_LISTEN_SPAWNER) in
  let s' := (janet_unlisten vm3.1 vm3.2 st).1.2 in
  poll_registered vm3.2 = [100; 101; 102] /\
  fd <$> take 3 (janet_vm_fds vm3.2) = [7; 8; 9]%Z /\
  janet_vm_fdcap vm3.2 = 16 /\
  poll_registered s' = [102; 101] /\
  fd <$> take 2 (janet_vm_fds s') = [9; 8]%Z /\
  state_index s' 102 = 0.
Proof. vm_compute. done. Qed.

Lemma realloc_nat_grow {A} `{Inhabited A} (d : list A) (m : nat) :
  length d <= m -> realloc d (Z.of_nat m) = d ++ replicate (m - length d) junk.
Proof. intros Hm. rewrite realloc_grow by lia. by rewrite Nat2Z.id. Qed.

(** What [janet_push_pollfd] leaves of the table: room for one more cell,
    and the cells in use as they were. *)
Lemma janet_push_pollfd_spec s pfd :
  (janet_vm_fdcount s <= janet_vm_fdcap s) ->
  length (janet_vm_fds s) = janet_vm_fdcap s ->
  length (janet_vm_listener_map s) = janet_vm_fdcap s ->
  let s' := janet_push_pollfd s pfd in
  janet_vm_fdcount s' = S (janet_vm_fdcount s) /\
  janet_vm_fdcount s' <= janet_vm_fdcap s' /\
  length (janet_vm_fds s') = janet_vm_fdcap s' /\
  length (janet_vm_listener_map s') = janet_vm_fdcap s' /\
  state_index s' = state_index s /\
  janet_vm_fds s' !!! janet_vm_fdcount s = pfd /\
  (forall k, k < janet_vm_fdcount s ->
     janet_vm_fds s' !!! k = janet_vm_fds s !!! k /\
     janet_vm_listener_map s' !!! k = janet_vm_listener_map s !!! k).
Proof.
  intros Hc Hf Hm s'. subst s'. unfold janet_push_pollfd.
  destruct (Nat.eqb_spec (janet_vm_fdcap s) (janet_vm_fdcount s)) as [E|E].
  - set (newcap := if janet_vm_fdcount s =? 0 then 16 else janet_vm_fdcount s * 2).
    assert (Hnew : janet_vm_fdcount s < newcap).
    { unfold newcap. destruct (Nat.eqb_spec (janet_vm_fdcount s) 0); lia. }
    cbn [janet_vm_fds janet_vm_listener_map janet_vm_fdcap janet_vm_fdcount state_index].
    rewrite !realloc_nat_grow by lia.
    rewrite length_insert, !length_app, !length_replicate.
    split_and!; try done; try lia.
    + apply list_lookup_total_insert_eq. rewrite length_app, length_replicate. lia.
    + intros k Hk. rewrite list_lookup_total_insert_ne by lia.
      rewrite !lookup_total_app_l by lia. done.
  - cbn [janet_vm_fds janet_vm_listener_map janet_vm_fdcap janet_vm_fdcount state_index].
    rewrite length_insert. split_and!; try done; try lia.
    + apply list_lookup_total_insert_eq. lia.
    + intros k Hk. by rewrite list_lookup_total_insert_ne by lia.
Qed.

Section ListenFacts.
Variables (JANET_ASYNC_LISTEN_READ JANET_ASYNC_LISTEN_WRITE POLLIN POLLOUT : Z).

(** X26.  [janet_listen] of the [poll] variant appends the new listener to the
    table, with the descriptor of its pollable and the events of the
    pollable's aggregate mask, and records its index in the listener; the
    cells of the listeners already in the table and the table invariant
    are kept, whether or not the two blocks had to grow. *)
Theorem poll_janet_listen_registers vm s handle pollable mask state vm' s' st :
  poll_table_ok s ->
  state ∉ poll_registered s ->
  janet_listen JANET_ASYNC_LISTEN_READ JANET_ASYNC_LISTEN_WRITE POLLIN POLLOUT
    vm s handle pollable mask state = (vm', s', Return st) ->
  janet_listen_impl vm pollable mask state = (vm', Return st) /\
  poll_table_ok s' /\
  janet_vm_fdcount s' = S (janet_vm_fdcount s) /\
  poll_registered s' = poll_registered s ++ [state] /\
  state_index s' state = janet_vm_fdcount s /\
  janet_vm_fds s' !!! janet_vm_fdcount s
    = mkPollfd handle
        (make_poll_events JANET_ASYNC_LISTEN_READ JANET_ASYNC_LISTEN_WRITE POLLIN POLLOUT
           (pollable_mask (pollables vm' pollable))) 0 /\
  forall a, a ∈ poll_registered s ->
    state_index s' a = state_index s a /\
    janet_vm_listener_map s' !!! state_index s a = a /\
    janet_vm_fds s' !!! state_index s a = janet_vm_fds s !!! state_index s a.
Proof.
  intros Hok Hfresh Hl.
  destruct (janet_listen_impl vm pollable mask state) as [vm1 r1] eqn:Himpl.
  assert (exists st1, r1 = Return st1) as [st1 ->].
  { unfold janet_listen in Hl. rewrite Himpl in Hl. destruct r1; try done. by eexists. }
  destruct (janet_listen_impl_ok _ _ _ _ _ _ Himpl) as (_ & _ & Hst & _).
  assert (Had : state_addr st1 = state) by (by rewrite Hst).
  assert (Hpo : state_pollable st1 = pollable) by (by rewrite Hst).
  pose proof Hok as (Hc & Hf & Hm & Hi).
  set (ev := mkPollfd handle
               (make_poll_events JANET_ASYNC_LISTEN_READ JANET_ASYNC_LISTEN_WRITE POLLIN POLLOUT
                  (pollable_mask (pollables vm1 pollable))) 0).
  set (s1 := mkPoll (janet_vm_fds s) (janet_vm_listener_map s) (janet_vm_fdcap s)
                    (janet_vm_fdcount s) (<[state := janet_vm_fdcount s]> (state_index s))).
  destruct (janet_push_pollfd_spec s1 ev Hc Hf Hm)
    as (Hcnt & Hcap & Hlf & Hlm & Hidx & Hev & Hold).
  cbn [janet_vm_fdcount janet_vm_fds janet_vm_listener_map state_index s1] in Hcnt, Hev, Hold, Hidx.
  set (s2 := janet_push_pollfd s1 ev) in *.
  assert (Hres : janet_listen JANET_ASYNC_LISTEN_READ JANET_ASYNC_LISTEN_WRITE POLLIN POLLOUT
                   vm s handle pollable mask state
                 = (vm1,
                    mkPoll (janet_vm_fds s2)
                           (<[janet_vm_fdcount s := state]> (janet_vm_listener_map s2))
                           (janet_vm_fdcap s2) (janet_vm_fdcount s2) (state_index s2),
                    Return st1)).
  { unfold janet_listen. rewrite Himpl. cbv zeta. rewrite Had, Hpo. reflexivity. }
  assert (Hn : janet_vm_fdcount s < length (janet_vm_listener_map s2)) by lia.
  clearbody s2. rewrite Hres in Hl. injection Hl as <- <- <-.
  split; [done|].
  split_and!.
  - unfold poll_table_ok.
    cbn [janet_vm_fdcount janet_vm_fds janet_vm_listener_map janet_vm_fdcap state_index].
    rewrite length_insert. split_and!; try done.
    intros i Hilt. rewrite Hidx. destruct (decide (i = janet_vm_fdcount s)) as [->|Hne].
    + rewrite list_lookup_total_insert_eq by done. apply fn_lookup_insert.
    + rewrite list_lookup_total_insert_ne by done.
      destruct (Hold i) as [_ Hk]; [lia|]. rewrite Hk.
      rewrite fn_lookup_insert_ne; [apply Hi; lia|].
      intros E. apply Hfresh. rewrite E. apply poll_registered_lookup; [done|lia].
  - done.
  - unfold poll_registered. cbn [janet_vm_fdcount janet_vm_listener_map]. rewrite Hcnt.
    rewrite (take_S_r _ _ state) by (by apply list_lookup_insert_eq).
    f_equal. rewrite take_insert_ge by done.
    apply list_eq. intros k. rewrite !lookup_take. case_decide as Hk; [|done].
    destruct (Hold k Hk) as [_ Hmk].
    rewrite (list_lookup_lookup_total_lt (janet_vm_listener_map s2) k) by lia.
    rewrite (list_lookup_lookup_total_lt (janet_vm_listener_map s) k) by lia.
    by rewrite Hmk.
  - cbn [state_index]. rewrite Hidx. apply fn_lookup_insert.
  - exact Hev.
  - intros a Ha. destruct (poll_registered_index s a Hok Ha) as [Halt Hamap].
    cbn [state_index janet_vm_listener_map janet_vm_fds]. rewrite Hidx.
    assert (a <> state) by (by intros ->).
    rewrite fn_lookup_insert_ne by done.
    rewrite list_lookup_total_insert_ne by lia.
    destruct (Hold (state_index s a) Halt) as [Hfk Hmk]. rewrite Hmk, Hfk. done.
Qed.

End ListenFacts.

Lemma poll_janet_listen_registers_witness :
  let vm := with_root_fiber vm_init 1 in
  let s := janet_ev_init in
  let r := janet_listen 1 2 1 4 vm s 7 0 1 100 in
  (poll_table_ok s /\ (100%nat ∉ poll_registered s) /\
   janet_listen 1 2 1 4 vm s 7 0 1 100 = (r.1.1, r.1.2, Return (mkState 100 (Some 1%nat) 0 4097))) /\
  (janet_listen_impl vm 0 1 100 = (r.1.1, Return (mkState 100 (Some 1%nat) 0 4097)) /\
   poll_table_ok r.1.2 /\
   janet_vm_fdcount r.1.2 = S (janet_vm_fdcount s) /\
   poll_registered r.1.2 = poll_registered s ++ [100%nat] /\
   state_index r.1.2 100 = janet_vm_fdcount s /\
   janet_vm_fds r.1.2 !!! janet_vm_fdcount s
     = mkPollfd 7 (make_poll_events 1 2 1 4 (pollable_mask (pollables r.1.1 0))) 0 /\
   forall a, a ∈ poll_registered s ->
     state_index r.1.2 a = state_index s a /\
     janet_vm_listener_map r.1.2 !!! state_index s a = a /\
     janet_vm_fds r.1.2 !!! state_index s a = janet_vm_fds s !!! state_index s a).
Proof.
  intros vm s r.
  assert (H1 : poll_table_ok s).
  { split_and!; [vm_compute; lia|reflexivity|reflexivity|]. intros i Hi. simpl in Hi. lia. }
  assert (H2 : 100 ∉ poll_registered s) by (by intros ?%elem_of_nil).
  assert (H3 : janet_listen 1 2 1 4 vm s 7 0 1 100
               = (r.1.1, r.1.2, Return (mkState 100 (Some 1) 0 4097%Z))) by reflexivity.
  split; [by split_and!|].
  exact (poll_janet_listen_registers 1 2 1 4 vm s 7 0 1 100 _ _ _ H1 H2 H3).
Defined.
End PollReactorFacts.

Module ResumeFacts.
Import RingQueue RingQueueFacts Ev SchedulerFacts PollableFacts ChannelFacts
       Timers TimersFacts.





(** Fiber 1 is scheduled with 7 behind fiber 2 and then cancelled: the
    cancellation leaves no trace, and the loop resumes fiber 1 once, with 7
    and [JANET_SIGNAL_OK]. *)
Example janet_cancel_then_run :
  let k := fun (vm : VM) (f : nat) (v : Janet) (sig : JanetSignal) => (vm, JANET_SIGNAL_EVENT) in
  let vm := janet_schedule (janet_schedule vm_init 2 JNil) 1 (JNumber 7) in
  let vm' := janet_cancel vm 1 (JString "late") in
  vm' = vm /\
  (run_scheduled 3 k vm' ≫= fun r => Some r.2)
  = Some [mkTask 2 JNil JANET_SIGNAL_OK; mkTask 1 (JNumber 7) JANET_SIGNAL_OK].
Proof. vm_compute. done. Qed.

End ResumeFacts.
